(** * PyRvDbg: the GDB Remote Serial Protocol client of [main.py]

    A shallow embedding of the class [RSPClient] (packet framing, the
    packet splitter [_rspConsumePackets], the synchronous primitive
    [rspCall], [read], [pause] and [poll]) together with the properties of
    the protocol engine that the specification states about it.

    The socket, the [select] call and the observer [_ui] are the
    environment of the client.  The environment is modelled as an oracle
    (what the next [select], [recv] and [sendall] will answer) and a trace
    (what the client did to the environment, in program order).  The
    observer is the object handed to the constructor; it is modelled as a
    recorder of the calls it receives and never calls back into the
    client. *)

From Stdlib Require Import String List ZArith NArith Lia Bool.
From Stdlib Require Import Strings.Byte.
Import ListNotations.

(** ** Python [bytes] *)

Definition bytes := list byte.

(** A [bytes] literal, [b'...'] in the source. *)
Definition lit (s : string) : bytes := list_byte_of_string s.

(** [ord(c)], also the value of [data[i]] when indexing a [bytes]. *)
Definition ord (c : byte) : Z := Z.of_N (Byte.to_N c).

(** The characters the code compares with or writes. *)
Definition ch_dollar : byte := x24.
Definition ch_hash : byte := x23.
Definition ch_plus : byte := x2b.
Definition ch_T : byte := x54.
Definition ch_O : byte := x4f.
Definition ch_minus : byte := x2d.
Definition ch_zero : byte := x30.

(** [data.find(c)] for a one-byte needle: the index of the first
    occurrence, [None] where Python answers [-1]. *)
Fixpoint find (c : byte) (data : bytes) : option nat :=
  match data with
  | [] => None
  | x :: rest => if Byte.eqb x c then Some 0 else option_map S (find c rest)
  end.

(** [data[-3]]: [None] where Python raises [IndexError]. *)
Definition index_neg3 (data : bytes) : option byte :=
  if length data <? 3 then None else nth_error data (length data - 3).

(** The loop [for b in data: checksum += b]. *)
Definition byte_sum (data : bytes) : Z :=
  fold_left (fun acc c => acc + ord c)%Z data 0%Z.

(** *** printf-style hexadecimal conversion *)

Definition hexdigit (d : Z) : byte :=
  match d with
  | 0%Z => x30 | 1%Z => x31 | 2%Z => x32 | 3%Z => x33
  | 4%Z => x34 | 5%Z => x35 | 6%Z => x36 | 7%Z => x37
  | 8%Z => x38 | 9%Z => x39 | 10%Z => x61 | 11%Z => x62
  | 12%Z => x63 | 13%Z => x64 | 14%Z => x65 | _ => x66
  end.

(** Digits of a non-negative number, most significant first. *)
Fixpoint hex_digits (fuel : nat) (n : Z) (acc : bytes) : bytes :=
  match fuel with
  | O => acc
  | S f =>
      if (n <? 16)%Z then hexdigit n :: acc
      else hex_digits f (n / 16)%Z (hexdigit (n mod 16)%Z :: acc)
  end.

(** [b'%0<width>x' % n]: lowercase digits, a sign for a negative number,
    zeros up to the minimal width. *)
Definition fmt_x (width : nat) (n : Z) : bytes :=
  let digits := hex_digits (S (Z.to_nat (Z.log2 (Z.abs n)))) (Z.abs n) [] in
  let sign := if (n <? 0)%Z then [ch_minus] else [] in
  sign ++ repeat ch_zero (width - length sign - length digits) ++ digits.

(** *** [binascii.unhexlify] *)

Definition hexval (c : byte) : option N :=
  let n := Byte.to_N c in
  if ((48 <=? n) && (n <=? 57))%N then Some (n - 48)%N
  else if ((97 <=? n) && (n <=? 102))%N then Some (n - 87)%N
  else if ((65 <=? n) && (n <=? 70))%N then Some (n - 55)%N
  else None.

(** [None] where Python raises [binascii.Error] (odd length or a
    character that is no hexadecimal digit). *)
Fixpoint unhexlify (data : bytes) : option bytes :=
  match data with
  | [] => Some []
  | hi :: lo :: rest =>
      match hexval hi, hexval lo, unhexlify rest with
      | Some h, Some l, Some r =>
          match Byte.of_N (16 * h + l) with
          | Some c => Some (c :: r)
          | None => None
          end
      | _, _, _ => None
      end
  | [_] => None
  end.

(** ** The environment: socket, observer, console *)

Inductive exn : Type :=
| NotConnected      (* [Exception('Not connected')] *)
| SocketTimeout     (* [socket.timeout]: nothing arrived within 10 seconds *)
| SocketError       (* [OSError]: reset, broken pipe, use after close *)
| IndexError
| BinasciiError
| TypeError
| AttributeError
| ValueError.

(** What one call of [recv] will do: hand out bytes (none of them at end
    of stream) or raise. *)
Inductive recv_outcome : Type :=
| RecvBytes (data : bytes)
| RecvRaises (e : exn).

Inductive sock : Type := SockOpen | SockClosed.

Inductive ui_state : Type := paused | running.

(** The lines the client prints. *)
Inductive message : Type :=
| MsgDisconnected
| MsgMalformed (pkt : bytes)
| MsgTrap (pkt : bytes)
| MsgLog (text : bytes)
| MsgIgnored (pkt : bytes)
| MsgUnexpected (pkt : bytes)
| MsgUnknownAck (data : bytes)
| MsgSocketError (e : exn)
| MsgPollFailed (e : exn).

(** What the client does to its environment. *)
Inductive event : Type :=
| EvSelect (ready : bool)           (* [select] with a zero timeout *)
| EvRecv (data : bytes)             (* a [recv] that returned *)
| EvRecvRaised (e : exn)            (* a [recv] that raised *)
| EvSend (data : bytes)             (* a [sendall] that went through *)
| EvSendRaised
| EvClose
| EvStateUpdated (s : option ui_state)   (* [_ui.onStateUpdated] *)
| EvPrint (m : message).

(** The fields of [RSPClient] followed by the environment.  [_socket] is
    [None] until [connect] creates the socket. *)
Record State : Type := mkState {
  _socket : option sock;
  _connected : bool;
  _pendingData : bytes;
  selects : list bool;          (* answers of the coming [select] calls *)
  recvs : list recv_outcome;    (* answers of the coming [recv] calls *)
  sends : list bool;            (* whether the coming [sendall] calls succeed *)
  trace : list event
}.

Definition set_socket (v : option sock) (s : State) : State :=
  mkState v (_connected s) (_pendingData s) (selects s) (recvs s) (sends s) (trace s).
Definition set_connected (v : bool) (s : State) : State :=
  mkState (_socket s) v (_pendingData s) (selects s) (recvs s) (sends s) (trace s).
Definition set_pendingData (v : bytes) (s : State) : State :=
  mkState (_socket s) (_connected s) v (selects s) (recvs s) (sends s) (trace s).
Definition set_selects (v : list bool) (s : State) : State :=
  mkState (_socket s) (_connected s) (_pendingData s) v (recvs s) (sends s) (trace s).
Definition set_recvs (v : list recv_outcome) (s : State) : State :=
  mkState (_socket s) (_connected s) (_pendingData s) (selects s) v (sends s) (trace s).
Definition set_sends (v : list bool) (s : State) : State :=
  mkState (_socket s) (_connected s) (_pendingData s) (selects s) (recvs s) v (trace s).
Definition emit (e : event) (s : State) : State :=
  mkState (_socket s) (_connected s) (_pendingData s) (selects s) (recvs s) (sends s)
          (trace s ++ [e]).

(** ** A state and exception monad *)

(** How a piece of code ends: with a value, with a Python exception, or,
    for the loops below, with its iteration budget used up. *)
Inductive outcome (A : Type) : Type :=
| Val (a : A)
| Exc (e : exn)
| OutOfFuel.
Arguments Val {A} a.
Arguments Exc {A} e.
Arguments OutOfFuel {A}.

Definition M (A : Type) : Type := State -> State * outcome A.

Definition ret {A} (a : A) : M A := fun s => (s, Val a).
Definition raise {A} (e : exn) : M A := fun s => (s, Exc e).
Definition out_of_fuel {A} : M A := fun s => (s, OutOfFuel).

Definition bind {A B} (m : M A) (k : A -> M B) : M B :=
  fun s =>
    match m s with
    | (s', Val a) => k a s'
    | (s', Exc e) => (s', Exc e)
    | (s', OutOfFuel) => (s', OutOfFuel)
    end.

(** [try: m  except Exception as e: h e]. *)
Definition try_except {A} (m : M A) (h : exn -> M A) : M A :=
  fun s =>
    match m s with
    | (s', Exc e) => h e s'
    | r => r
    end.

Definition gets {A} (f : State -> A) : M A := fun s => (s, Val (f s)).
Definition modify (f : State -> State) : M unit := fun s => (f s, Val tt).

Declare Scope rsp_scope.
Delimit Scope rsp_scope with rsp.
Notation "x <- m ;; k" := (bind m (fun x => k))
  (at level 61, m at next level, right associativity) : rsp_scope.
Notation "m ;; k" := (bind m (fun _ => k))
  (at level 61, right associativity) : rsp_scope.
Open Scope rsp_scope.

(** ** Socket, observer and console primitives *)

Definition print (m : message) : M unit := modify (emit (EvPrint m)).

Definition ui_onStateUpdated (st : option ui_state) : M unit :=
  modify (emit (EvStateUpdated st)).

(** [select.select([self._socket], [], [], 0)]: never waits.  A closed
    socket has file descriptor -1, which [select] refuses. *)
Definition sock_select : M bool :=
  fun s =>
    match _socket s with
    | None => (s, Exc TypeError)
    | Some SockClosed => (s, Exc ValueError)
    | Some SockOpen =>
        match selects s with
        | [] => (emit (EvSelect false) s, Val false)
        | r :: rest => (emit (EvSelect r) (set_selects rest s), Val r)
        end
    end.

(** [self._socket.recv(n)] on a socket with a 10 second timeout: waits for
    data, returns at most [n] bytes and leaves the rest for the next call;
    with nothing left to arrive the wait ends in [socket.timeout]. *)
Definition sock_recv (n : N) : M bytes :=
  fun s =>
    match _socket s with
    | None => (s, Exc AttributeError)
    | Some SockClosed => (s, Exc SocketError)
    | Some SockOpen =>
        match recvs s with
        | [] => (emit (EvRecvRaised SocketTimeout) s, Exc SocketTimeout)
        | RecvRaises e :: rest =>
            (emit (EvRecvRaised e) (set_recvs rest s), Exc e)
        | RecvBytes data :: rest =>
            if (N.of_nat (length data) <=? n)%N
            then (emit (EvRecv data) (set_recvs rest s), Val data)
            else
              let k := N.to_nat n in
              (emit (EvRecv (firstn k data))
                    (set_recvs (RecvBytes (skipn k data) :: rest) s),
               Val (firstn k data))
        end
    end.

(** [self._socket.sendall(data)]. *)
Definition sock_sendall (data : bytes) : M unit :=
  fun s =>
    match _socket s with
    | None => (s, Exc AttributeError)
    | Some SockClosed => (s, Exc SocketError)
    | Some SockOpen =>
        match sends s with
        | false :: rest => (emit EvSendRaised (set_sends rest s), Exc SocketError)
        | true :: rest => (emit (EvSend data) (set_sends rest s), Val tt)
        | [] => (emit (EvSend data) s, Val tt)
        end
    end.

(** [self._socket.close()]; closing twice is allowed. *)
Definition sock_close : M unit :=
  fun s =>
    match _socket s with
    | None => (s, Exc AttributeError)
    | Some _ => (emit EvClose (set_socket (Some SockClosed) s), Val tt)
    end.

(** ** The class [RSPClient] *)

(** What [rspCall] hands back: [True], a payload, or [None] when the
    function body ends without a [return]. *)
Inductive value : Type :=
| VTrue
| VBytes (data : bytes)
| VNone.

(** [disconnect]: clear the flag, close the socket, tell the observer. *)
Definition disconnect : M value :=
  modify (set_connected false) ;;
  sock_close ;;
  ui_onStateUpdated None ;;
  ret VTrue.

(** Both bodies are the identity in the source (marked TODO there). *)
Definition _rspEscape (data : bytes) : bytes := data.
Definition _rspUnescape (data : bytes) : bytes := data.

(** [x == y] on [bytes]. *)
Definition bytes_eqb (x y : bytes) : bool :=
  if list_eq_dec Byte.byte_eq_dec x y then true else false.

(** [_rspGetAck]: one byte from the socket, compared with [+]. *)
Definition _rspGetAck : M bool :=
  data <- sock_recv 1 ;;
  if bytes_eqb data [ch_plus] then ret true
  else print (MsgUnknownAck data) ;; ret false.

(** The first loop of [_rspConsumePackets]: receive until the buffer ends
    in [#] and two more bytes.  [false] stands for the early
    [return None] after a disconnect. *)
Fixpoint recv_frames (fuel : nat) : M bool :=
  match fuel with
  | O => out_of_fuel
  | S f =>
      data <- sock_recv 30000 ;;
      match data with
      | [] => print MsgDisconnected ;; disconnect ;; ret false
      | _ =>
          pending <- gets _pendingData ;;
          modify (set_pendingData (pending ++ data)) ;;
          match index_neg3 (pending ++ data) with
          | None => raise IndexError
          | Some c => if Byte.eqb c ch_hash then ret true else recv_frames f
          end
      end
  end.

(** [len(pkt) >= 3 and pkt[0] == ord(c)]. *)
Definition long_with_head (c : byte) (pkt : bytes) : bool :=
  (3 <=? length pkt) &&
  match pkt with
  | x :: _ => Byte.eqb x c
  | [] => false
  end.

(** The second loop of [_rspConsumePackets]; [r] is the variable [ret]. *)
Fixpoint split_packets (fuel : nat) (r : option bytes) : M (option bytes) :=
  match fuel with
  | O => out_of_fuel
  | S f =>
      pending <- gets _pendingData ;;
      match find ch_hash pending with
      | None => ret r
      | Some pos =>
          let pkt := firstn pos pending in
          modify (set_pendingData (skipn (S pos) pending)) ;;
          match find ch_dollar pkt with
          | None => print (MsgMalformed pkt) ;; split_packets f r
          | Some pos2 =>
              let pkt := skipn (S pos2) pkt in
              if long_with_head ch_T pkt then
                print (MsgTrap pkt) ;;
                ui_onStateUpdated (Some paused) ;;
                split_packets f r
              else if long_with_head ch_O pkt then
                match unhexlify (tl pkt) with
                | None => raise BinasciiError
                | Some text => print (MsgLog text) ;; split_packets f r
                end
              else
                match r with
                | Some old => print (MsgIgnored old)
                | None => ret tt
                end ;;
                split_packets f (Some pkt)
          end
      end
  end.

(** Iterations the receiving loops can make before the oracle is used up:
    every [recv] that returns takes at least one byte or one entry. *)
Fixpoint recv_budget (rs : list recv_outcome) : nat :=
  match rs with
  | [] => 0
  | RecvBytes data :: rest => S (length data + recv_budget rest)
  | RecvRaises _ :: rest => S (recv_budget rest)
  end.

(** [_rspConsumePackets]: the two loops in sequence.  The budgets are
    never used up ([consume_advances] below): the first loop ends at the
    latest when the oracle is empty and [recv] times out, the second takes
    at least one byte from the buffer in every pass. *)
Definition _rspConsumePackets : M (option bytes) :=
  budget <- gets (fun s => S (recv_budget (recvs s))) ;;
  more <- recv_frames budget ;;
  if more then
    pending <- gets _pendingData ;;
    split_packets (S (length pending)) None
  else ret None.

(** [_rspCheckUnexpectedData]: read only if [select] says there is
    something to read. *)
Definition _rspCheckUnexpectedData : M unit :=
  r <- sock_select ;;
  if r then
    data <- _rspConsumePackets ;;
    match data with
    | Some pkt => print (MsgUnexpected pkt)
    | None => ret tt
    end
  else ret tt.

(** [_rspRecvPacket]: [while True] around [_rspConsumePackets], left
    with the first result that is not [None]. *)
Fixpoint recv_packet (fuel : nat) : M bytes :=
  match fuel with
  | O => out_of_fuel
  | S f =>
      r <- _rspConsumePackets ;;
      match r with
      | Some pkt => ret pkt
      | None => recv_packet f
      end
  end.

Definition _rspRecvPacket : M bytes :=
  budget <- gets (fun s => S (S (recv_budget (recvs s)))) ;;
  recv_packet budget.

(** [checksum = 0; for b in data: checksum += b; checksum &= 0xFF]. *)
Definition checksum (data : bytes) : Z := Z.land (byte_sum data) 255.

(** [rspCall] for a [bytes] argument.  The test of [_connected] stands
    before the [try]; everything raised inside it ends in the [except]
    clause, after which the function returns [None]. *)
Definition rspCall (data : bytes) (waitForAck waitForResp : bool) : M value :=
  connected <- gets _connected ;;
  if negb connected then raise NotConnected
  else
    let data := _rspEscape data in
    try_except
      (_rspCheckUnexpectedData ;;
       sock_sendall [ch_dollar] ;;
       sock_sendall data ;;
       sock_sendall [ch_hash] ;;
       sock_sendall (fmt_x 2 (checksum data)) ;;
       (if waitForAck then _rspGetAck ;; ret tt else ret tt) ;;
       if negb waitForResp then ret VTrue
       else
         pkt <- _rspRecvPacket ;;
         ret (VBytes (_rspUnescape pkt)))
      (fun e =>
         print (MsgSocketError e) ;;
         disconnect ;;
         ret VNone).

(** [unhexlify] of what [rspCall] returned; [True] and [None] are no
    bytes-like objects. *)
Definition unhexlify_value (v : value) : M bytes :=
  match v with
  | VBytes data =>
      match unhexlify data with
      | Some out => ret out
      | None => raise BinasciiError
      end
  | VTrue | VNone => raise TypeError
  end.

(** [read]: the request [b'm%x,%x' % (addr, size)]. *)
Definition read (addr size : Z) : M bytes :=
  r <- rspCall (lit "m" ++ fmt_x 0 addr ++ lit "," ++ fmt_x 0 size) false true ;;
  unhexlify_value r.

(** [go]: resume without waiting for a response. *)
Definition go : M value :=
  rspCall (lit "vCont;c") false false ;;
  ui_onStateUpdated (Some running) ;;
  ret VTrue.

(** [pause]: the interrupt byte, straight to the socket. *)
Definition pause : M value :=
  sock_sendall [x03] ;;
  ret VTrue.

(** [poll]: the drain of [rspCall] on its own. *)
Definition poll : M bool :=
  connected <- gets _connected ;;
  if negb connected then ret false
  else
    try_except _rspCheckUnexpectedData
      (fun e => print (MsgPollFailed e) ;; disconnect ;; ret tt) ;;
    ret true.

(** ** Reading a trace *)

(** The bytes an event puts on the wire. *)
Definition sent_of (e : event) : bytes :=
  match e with
  | EvSend data => data
  | _ => []
  end.

(** All the bytes written to the socket, in order. *)
Definition sent (t : list event) : bytes := flat_map sent_of t.

(** The arguments of the calls of [_ui.onStateUpdated], in order. *)
Definition state_updates (t : list event) : list (option ui_state) :=
  flat_map (fun e => match e with EvStateUpdated st => [st] | _ => [] end) t.

(** The number of [_ui.onStateUpdated(None)] calls. *)
Definition null_updates (t : list event) : nat :=
  length (filter (fun st => match st with None => true | Some _ => false end)
                 (state_updates t)).

Definition is_recv (e : event) : bool :=
  match e with
  | EvRecv _ | EvRecvRaised _ => true
  | _ => false
  end.

(** The number of calls of the blocking [recv]. *)
Definition recv_calls (t : list event) : nat := length (filter is_recv t).

(** The packets printed as ignored, in order. *)
Definition ignored (t : list event) : list bytes :=
  flat_map (fun e => match e with EvPrint (MsgIgnored p) => [p] | _ => [] end) t.

(** The lines [Ignored: p], one for each packet. *)
Definition print_ignored (pkts : list bytes) : list event :=
  map (fun p => EvPrint (MsgIgnored p)) pkts.

Definition is_io_failure (e : event) : bool :=
  match e with
  | EvRecvRaised _ | EvSendRaised => true
  | _ => false
  end.

(** The number of socket operations that raised. *)
Definition io_failures (t : list event) : nat := length (filter is_io_failure t).

(** ** Frames on the wire *)

(** A frame on the wire: [$], the payload, [#] and what follows as
    checksum digits. *)
Definition raw_frame (payload cc : bytes) : bytes :=
  [ch_dollar] ++ payload ++ [ch_hash] ++ cc.

(** The frame [rspCall] writes for a payload. *)
Definition frame (payload : bytes) : bytes :=
  raw_frame (_rspEscape payload) (fmt_x 2 (checksum (_rspEscape payload))).

(** A buffer of frames, each given by its payload and the two bytes
    after its [#]. *)
Definition wire (fs : list (bytes * bytes)) : bytes :=
  flat_map (fun f => raw_frame (fst f) (snd f)) fs.

(** The bytes left in the buffer after a pass over [fs]. *)
Definition leftover (junk : bytes) (fs : list (bytes * bytes)) : bytes :=
  last (map snd fs) junk.

(** The digits of lowercase hexadecimal. *)
Definition lower_hex : bytes := lit "0123456789abcdef".

(** The two digits of a checksum value read off the digit string. *)
Definition two_digits (c : Z) : bytes :=
  [nth (Z.to_nat (c / 16)) lower_hex x00; nth (Z.to_nat (c mod 16)) lower_hex x00].

Definition is_none {A} (o : option A) : bool :=
  match o with
  | None => true
  | Some _ => false
  end.

(** [%02x] of [c] is [two_digits c], and neither digit is a delimiter. *)
Definition hex2_ok (c : Z) : bool :=
  bytes_eqb (fmt_x 2 c) (two_digits c) &&
  is_none (find ch_hash (fmt_x 2 c)) && is_none (find ch_dollar (fmt_x 2 c)).

(** The escape character of the protocol. *)
Definition ch_brace : byte := x7d.

(** No byte of the payload is one of [$], [#], [}]. *)
Definition no_reserved (payload : bytes) : Prop :=
  Forall (fun c => c <> ch_dollar /\ c <> ch_hash /\ c <> ch_brace) payload.

(** A connected client with an empty buffer in front of a given oracle. *)
Definition connected_client (sel : list bool) (rcv : list recv_outcome) : State :=
  mkState (Some SockOpen) true [] sel rcv [] [].

(** The codec as a pair of functions: [encode] is the frame [rspCall]
    writes; [decode] is what a connected client with an empty buffer
    makes of the bytes of one [recv], after [_rspUnescape]. *)
Definition encode (payload : bytes) : bytes := frame payload.

Definition decode (data : bytes) : outcome (option bytes) :=
  snd ((r <- _rspConsumePackets ;; ret (option_map _rspUnescape r))
         (connected_client [] [RecvBytes data])).

(** ** Payload classes and the order of packets *)

(** The [if] arms of the splitter, as predicates on a payload. *)
Definition is_trap (pkt : bytes) : bool := long_with_head ch_T pkt.
Definition is_log (pkt : bytes) : bool := long_with_head ch_O pkt.
Definition is_response (pkt : bytes) : bool :=
  negb (long_with_head ch_T pkt) && negb (long_with_head ch_O pkt).

(** Bytes the splitter steps over without seeing a delimiter. *)
Definition clean (junk : bytes) : Prop :=
  find ch_hash junk = None /\ find ch_dollar junk = None.

(** A frame the splitter takes in one piece: no [#] inside the payload,
    two bytes after the [#] that are no delimiters, and, for a log
    frame, a text that [unhexlify] accepts. *)
Definition takes_whole (f : bytes * bytes) : Prop :=
  find ch_hash (fst f) = None /\
  length (snd f) = 2 /\ clean (snd f) /\
  (is_log (fst f) = true -> unhexlify (tl (fst f)) <> None).

(** The payloads of a buffer that the splitter keeps as responses. *)
Definition responses (pkts : list bytes) : list bytes := filter is_response pkts.

(** The variable [ret] as a list of at most one packet. *)
Definition opt_list (r : option bytes) : list bytes :=
  match r with
  | Some p => [p]
  | None => []
  end.

(** What the second loop does with the payloads of a buffer, packet by
    packet: the events it adds and the value of [ret] at the end. *)
Fixpoint route (r : option bytes) (pkts : list bytes) : list event * option bytes :=
  match pkts with
  | [] => ([], r)
  | p :: rest =>
      if is_trap p then
        let (evs, r') := route r rest in
        (EvPrint (MsgTrap p) :: EvStateUpdated (Some paused) :: evs, r')
      else if is_log p then
        let (evs, r') := route r rest in
        (match unhexlify (tl p) with
         | Some text => [EvPrint (MsgLog text)]
         | None => []
         end ++ evs, r')
      else
        let (evs, r') := route (Some p) rest in
        (match r with
         | Some old => [EvPrint (MsgIgnored old)]
         | None => []
         end ++ evs, r')
  end.

(** [if ret != None: print('Ignored:', ret)] as a change of the state. *)
Definition note_ignored (r : option bytes) (s : State) : State :=
  match r with
  | Some old => emit (EvPrint (MsgIgnored old)) s
  | None => s
  end.

(** ** The oracle *)

(** The [recv] answers that are not an end of stream. *)
Definition no_eof (rs : list recv_outcome) : Prop :=
  Forall (fun o => o <> RecvBytes []) rs.

(** Every coming [sendall] goes through. *)
Definition sends_succeed (s : State) : Prop :=
  Forall (fun ok => ok = true) (sends s).

(** ** The parts of [rspCall] *)

(** The parts of [rspCall], named: what follows the four [sendall]
    calls, the body of the [try] and the [except] clause. *)
Definition call_tail (waitForAck waitForResp : bool) : M value :=
  (if waitForAck then _rspGetAck ;; ret tt else ret tt) ;;
  if negb waitForResp then ret VTrue
  else pkt <- _rspRecvPacket ;; ret (VBytes (_rspUnescape pkt)).

Definition call_body (data : bytes) (waitForAck waitForResp : bool) : M value :=
  _rspCheckUnexpectedData ;;
  sock_sendall [ch_dollar] ;;
  sock_sendall data ;;
  sock_sendall [ch_hash] ;;
  sock_sendall (fmt_x 2 (checksum data)) ;;
  call_tail waitForAck waitForResp.

Definition call_handler (e : exn) : M value :=
  print (MsgSocketError e) ;;
  disconnect ;;
  ret VNone.

(** ** Runs and the relations they keep *)

(** A piece of code writes [w] to the socket when it ends with a value,
    and a part of [w] from its start otherwise. *)
Definition writes {A} (m : M A) (w : bytes) : Prop :=
  forall s,
    exists k,
      sent (trace (fst (m s))) = sent (trace s) ++ firstn k w /\
      (forall a, snd (m s) = Val a -> firstn k w = w).

(** A run that comes to an end, and takes something from the [recv]
    oracle when it ends with a value. *)
Definition advanced {A} (s : State) (res : State * outcome A) : Prop :=
  match snd res with
  | Val _ => recv_budget (recvs (fst res)) < recv_budget (recvs s)
  | Exc _ => True
  | OutOfFuel => False
  end.

(** [m], started in [s], makes such a run. *)
Definition advances {A} (m : M A) (s : State) : Prop := advanced s (m s).

(** A piece of code always comes to an end. *)
Definition halts {A} (m : M A) : Prop := forall s, snd (m s) <> OutOfFuel.

(** Nothing was written to the socket. *)
Definition quiet (s s' : State) : Prop := sent (trace s') = sent (trace s).

(** The socket object is still there and the oracle did not grow. *)
Definition tame (s s' : State) : Prop :=
  (_socket s <> None -> _socket s' <> None) /\
  recv_budget (recvs s') <= recv_budget (recvs s).

(** As long as no end of stream is read, the session stays as it is. *)
Definition calm (s s' : State) : Prop :=
  no_eof (recvs s) ->
  no_eof (recvs s') /\ _socket s' = _socket s /\ _connected s' = _connected s /\
  null_updates (trace s') = null_updates (trace s).

(** No socket operation raised. *)
Definition unfailed (s s' : State) : Prop :=
  io_failures (trace s') = io_failures (trace s).

(** The calls of [recv] made so far stay on record. *)
Definition reads_on (s s' : State) : Prop :=
  recv_calls (trace s) <= recv_calls (trace s').

(** [keeps R on_exc m] says that [m] relates the state it starts in to the
    state it ends in; with [on_exc = false] only for the runs that end
    with a value. *)
Definition covered (on_exc : bool) {A} (r : outcome A) : Prop :=
  match r with
  | Val _ => True
  | _ => on_exc = true
  end.

Definition keeps (R : State -> State -> Prop) (on_exc : bool) {A} (m : M A) : Prop :=
  forall s, covered on_exc (snd (m s)) -> R s (fst (m s)).

(** What a relation has to satisfy for the receiving side to keep it. *)
Record basis (R : State -> State -> Prop) (on_exc : bool) : Prop := {
  basis_refl : forall s, R s s;
  basis_trans : forall a b c, R a b -> R b c -> R a c;
  basis_pending : forall v s, R s (set_pendingData v s);
  basis_print : forall m s, R s (emit (EvPrint m) s);
  basis_paused : forall s, R s (emit (EvStateUpdated (Some paused)) s);
  basis_select : keeps R on_exc sock_select;
  basis_recv : forall n, keeps R on_exc (sock_recv n)
}.

(** * The rest of the client

    The typed operations on top of [rspCall], and [parseRegs] of the
    user interface, which decodes what [getRegs] and [getOneReg] return. *)

(** ** Hexadecimal text and integers *)

(** [binascii.hexlify]: two lowercase digits for every byte. *)
Definition hexlify (data : bytes) : bytes :=
  flat_map (fun c => [hexdigit (ord c / 16)%Z; hexdigit (ord c mod 16)%Z]) data.

(** The byte with a given value below 256. *)
Definition byte_of_Z (z : Z) : byte :=
  match Byte.of_N (Z.to_N z) with
  | Some c => c
  | None => x00
  end.

(** [int.from_bytes(data, byteorder='little')]. *)
Fixpoint from_bytes_little (data : bytes) : Z :=
  match data with
  | [] => 0%Z
  | c :: rest => (ord c + 256 * from_bytes_little rest)%Z
  end.

Fixpoint to_bytes_little (size : nat) (n : Z) : bytes :=
  match size with
  | O => []
  | S k => byte_of_Z (n mod 256)%Z :: to_bytes_little k (n / 256)%Z
  end.

(** [n.to_bytes(size, byteorder='little')]: [None] where Python raises
    [OverflowError], for a negative number and for one that does not fit. *)
Definition to_bytes (n : Z) (size : nat) : option bytes :=
  if ((n <? 0) || (256 ^ Z.of_nat size <=? n))%Z then None
  else Some (to_bytes_little size n).

(** ** Memory, registers, breakpoints, execution *)

(** The request of [read]. *)
Definition read_request (addr size : Z) : bytes :=
  lit "m" ++ fmt_x 0 addr ++ lit "," ++ fmt_x 0 size.

Definition _readUInt (addr size : Z) : M Z :=
  data <- read addr size ;;
  ret (from_bytes_little data).

Definition read8 (addr : Z) : M Z := _readUInt addr 1.
Definition read16 (addr : Z) : M Z := _readUInt addr 2.
Definition read32 (addr : Z) : M Z := _readUInt addr 4.
Definition read64 (addr : Z) : M Z := _readUInt addr 8.

(** [write]: the request [b'M%x,%x:%s' % (addr, len(data) // 2, data)]
    with [data] already turned into hexadecimal text. *)
Definition write (addr : Z) (data : bytes) : M value :=
  let data := hexlify data in
  rspCall (lit "M" ++ fmt_x 0 addr ++ lit "," ++
           fmt_x 0 (Z.of_nat (length data) / 2) ++ lit ":" ++ data)
          false true.

(** [_writeUInt]: the argument [uint.to_bytes(size, byteorder='little')]
    is evaluated before [write] is entered; [None] stands for the
    [OverflowError] raised there. *)
Definition _writeUInt (addr uint : Z) (size : nat) : option (M value) :=
  option_map (write addr) (to_bytes uint size).

Definition write8 (addr uint : Z) : option (M value) := _writeUInt addr uint 1.
Definition write16 (addr uint : Z) : option (M value) := _writeUInt addr uint 2.
Definition write32 (addr uint : Z) : option (M value) := _writeUInt addr uint 4.
Definition write64 (addr uint : Z) : option (M value) := _writeUInt addr uint 8.

(** [step]: one instruction, without waiting for a response. *)
Definition step : M value :=
  rspCall (lit "s") false false ;;
  ret VTrue.

(** [getRegs] and [getOneReg]: the [str] arguments ['g'] and
    ['p%02x' % regID], which [rspCall] encodes to the same bytes. *)
Definition getRegs : M value := rspCall (lit "g") false true.

Definition getOneReg (regID : Z) : M value :=
  rspCall (lit "p" ++ fmt_x 2 regID) false true.

(** [_getTypeID]: the lookup in the dictionary of breakpoint kinds; [None]
    where Python raises [KeyError]. *)
Definition _getTypeID (type : string) : option Z :=
  if String.eqb type "soft" then Some 0%Z
  else if String.eqb type "hard" then Some 1%Z
  else if String.eqb type "read" then Some 2%Z
  else if String.eqb type "write" then Some 3%Z
  else if String.eqb type "access" then Some 4%Z
  else None.

(** The request of [bpadd] ([head] is [Z]) and of [bpdel] ([head] is
    [z]): [b'Z%x,%x,%x' % (type, addr, size)]. *)
Definition bp_request (head : byte) (type addr size : Z) : bytes :=
  [head] ++ fmt_x 0 type ++ lit "," ++ fmt_x 0 addr ++ lit "," ++ fmt_x 0 size.

(** [bpadd] and [bpdel]: the lookup comes first, so that an unknown kind
    raises ([None]) before anything is done. *)
Definition bpadd (addr : Z) (type : string) (size : Z) : option (M value) :=
  option_map (fun t => rspCall (bp_request x5a t addr size) false true)
             (_getTypeID type).

Definition bpdel (addr : Z) (type : string) (size : Z) : option (M value) :=
  option_map (fun t => rspCall (bp_request x7a t addr size) false true)
             (_getTypeID type).

(** ** [UIInterface.parseRegs] *)

(** [buf[i:i+width]] for [i] in [range(0, len(buf), width)]. *)
Fixpoint slices (fuel width : nat) (buf : bytes) : list bytes :=
  match fuel with
  | O => []
  | S f =>
      match buf with
      | [] => []
      | _ => firstn width buf :: slices f width (skipn width buf)
      end
  end.

(** [parseRegs(hex, bitWidth)] applied to what [rspCall] returned.
    [unhexlify] comes first; a step [bitWidth // 8] of zero makes [range]
    raise [ValueError], a negative one gives the empty range. *)
Definition parseRegs (hex : value) (bitWidth : Z) : outcome (list Z) :=
  match hex with
  | VTrue | VNone => Exc TypeError
  | VBytes text =>
      match unhexlify text with
      | None => Exc BinasciiError
      | Some buf =>
          let width := (bitWidth / 8)%Z in
          if (width =? 0)%Z then Exc ValueError
          else if (width <? 0)%Z then Val []
          else Val (map from_bytes_little
                        (slices (length buf) (Z.to_nat width) buf))
      end
  end.

(** The requests of [write] and [getOneReg]. *)
Definition write_request (addr : Z) (data : bytes) : bytes :=
  lit "M" ++ fmt_x 0 addr ++ lit "," ++
  fmt_x 0 (Z.of_nat (length (hexlify data)) / 2) ++ lit ":" ++ hexlify data.

Definition reg_request (regID : Z) : bytes := lit "p" ++ fmt_x 2 regID.

(** The state in which [rspCall] goes on after the drain found nothing to
    read and the four [sendall] calls went through. *)
Definition after_request (data : bytes) (s : State) : State :=
  mkState (_socket s) (_connected s) (_pendingData s) (tl (selects s)) (recvs s)
          (tl (tl (tl (tl (sends s)))))
          (trace s ++
           [EvSelect false; EvSend [ch_dollar]; EvSend data; EvSend [ch_hash];
            EvSend (fmt_x 2 (checksum data))]).

(** The state in which [_rspCheckUnexpectedData] goes on after [select]
    reported the socket readable. *)
Definition after_select (s : State) : State :=
  emit (EvSelect true) (set_selects (tl (selects s)) s).

(** ** The buffer between two operations *)

(** No [#] is in the buffer: every frame that arrived has been taken. *)
Definition no_frame_left (s : State) : Prop :=
  find ch_hash (_pendingData s) = None.

(** A run after which the session is closed, or is as connected as it
    was with the buffer again free of [#]. *)
Definition settled (s s' : State) : Prop :=
  _connected s' = false \/
  (_connected s' = _connected s /\ (no_frame_left s -> no_frame_left s')).

(** ** What becomes of the session *)

(** The socket is open; the session has been closed. *)
Definition live (s : State) : Prop := _socket s = Some SockOpen.
Definition dead (s : State) : Prop :=
  _socket s = Some SockClosed /\ _connected s = false.

(** Socket and flag are as they were. *)
Definition same_session (s s' : State) : Prop :=
  _socket s' = _socket s /\ _connected s' = _connected s.

(** A run that leaves an open session as it is or closes it, and leaves
    a closed session closed. *)
Definition survives (s s' : State) : Prop :=
  (live s -> same_session s s' \/ dead s') /\ (dead s -> dead s').

(** * Above the packet layer

    [connect], [monitorCmd], [reset], [readToFile] and [writeFromFile] use
    the packet layer and, besides, create the socket, print lines of their
    own, sleep, and open files.  Their state is the client with these
    parts of the environment around it, and one time line into which the
    events of the packet layer are merged. *)

(** ** The environment of these operations *)

Inductive host_event : Type :=
| Client (e : event)                          (* an event of the packet layer *)
| SocketCreated                               (* [socket.socket(AF_INET, SOCK_STREAM)] *)
| SocketConnected (host : string) (port : Z)  (* a [connect] that went through *)
| SocketRefused (host : string) (port : Z)    (* a [connect] that raised *)
| SocketNoDelay                               (* [setsockopt(IPPROTO_TCP, TCP_NODELAY, 1)] *)
| SocketTimeoutSet (seconds : Z)              (* [settimeout] *)
| HostPrint (line : bytes)                    (* [print] of a request or of a text *)
| Sleep (seconds : Z)                         (* [time.sleep] *)
| TargetXmlUpdated (xml : bytes)              (* [_ui.onTargetXmlUpdated] *)
| FileOpened (name : string) (writing : bool)
| FileOpenFailed (name : string)
| FileWritten (name : string) (data : bytes).

(** The client, the files by name, the answers of the coming [open] and
    [socket.connect] calls, and the time line. *)
Record Host : Type := mkHost {
  client : State;
  files : list (string * bytes);
  opens : list bool;
  connects : list bool;
  timeline : list host_event
}.

Definition HostM (A : Type) : Type := Host -> Host * outcome A.

Definition hret {A} (a : A) : HostM A := fun h => (h, Val a).
Definition hraise {A} (e : exn) : HostM A := fun h => (h, Exc e).
Definition hout_of_fuel {A} : HostM A := fun h => (h, OutOfFuel).

Definition hbind {A B} (m : HostM A) (k : A -> HostM B) : HostM B :=
  fun h =>
    match m h with
    | (h', Val a) => k a h'
    | (h', Exc e) => (h', Exc e)
    | (h', OutOfFuel) => (h', OutOfFuel)
    end.

Definition hgets {A} (f : Host -> A) : HostM A := fun h => (h, Val (f h)).

Declare Scope host_scope.
Delimit Scope host_scope with host.
Notation "x <- m ;; k" := (hbind m (fun x => k))
  (at level 61, m at next level, right associativity) : host_scope.
Notation "m ;; k" := (hbind m (fun _ => k))
  (at level 61, right associativity) : host_scope.

(** An event of the operation itself. *)
Definition note (e : host_event) : HostM unit :=
  fun h =>
    (mkHost (client h) (files h) (opens h) (connects h) (timeline h ++ [e]), Val tt).

(** A piece of the packet layer run on the client: the events it adds to
    the trace of the client go to the time line as well. *)
Definition lift {A} (m : M A) : HostM A :=
  fun h =>
    let (s', r) := m (client h) in
    (mkHost s' (files h) (opens h) (connects h)
            (timeline h ++
             map Client (skipn (length (trace (client h))) (trace s'))),
     r).

(** *** Files *)

Fixpoint file_get (name : string) (fs : list (string * bytes)) : option bytes :=
  match fs with
  | [] => None
  | (n, data) :: rest => if String.eqb n name then Some data else file_get name rest
  end.

Fixpoint file_set (name : string) (data : bytes) (fs : list (string * bytes))
  : list (string * bytes) :=
  match fs with
  | [] => [(name, data)]
  | (n, d) :: rest =>
      if String.eqb n name then (n, data) :: rest
      else (n, d) :: file_set name data rest
  end.

(** [open(name, 'wb')]: the file is created or cut to nothing; [OSError]
    when the environment refuses. *)
Definition open_wb (name : string) : HostM unit :=
  fun h =>
    match opens h with
    | false :: rest =>
        (mkHost (client h) (files h) rest (connects h)
                (timeline h ++ [FileOpenFailed name]), Exc SocketError)
    | _ =>
        (mkHost (client h) (file_set name [] (files h)) (tl (opens h)) (connects h)
                (timeline h ++ [FileOpened name true]), Val tt)
    end.

(** [f.write(data)] on a file opened with [open_wb]. *)
Definition file_write (name : string) (data : bytes) : HostM unit :=
  fun h =>
    let old := match file_get name (files h) with
               | Some d => d
               | None => []
               end in
    (mkHost (client h) (file_set name (old ++ data) (files h)) (opens h)
            (connects h) (timeline h ++ [FileWritten name data]), Val tt).

(** [f.read()] when [maxSize] is -1 and [f.read(maxSize)] otherwise,
    which reads everything for a negative size. *)
Definition read_part (content : bytes) (maxSize : Z) : bytes :=
  if (maxSize =? -1)%Z then content
  else if (maxSize <? 0)%Z then content
  else firstn (Z.to_nat maxSize) content.

(** [open(name, 'rb')] followed by the read: [OSError] when the file is
    missing or the environment refuses. *)
Definition read_file (name : string) (maxSize : Z) : HostM bytes :=
  fun h =>
    match opens h, file_get name (files h) with
    | false :: rest, _ =>
        (mkHost (client h) (files h) rest (connects h)
                (timeline h ++ [FileOpenFailed name]), Exc SocketError)
    | _, None =>
        (mkHost (client h) (files h) (tl (opens h)) (connects h)
                (timeline h ++ [FileOpenFailed name]), Exc SocketError)
    | _, Some content =>
        (mkHost (client h) (files h) (tl (opens h)) (connects h)
                (timeline h ++ [FileOpened name false]),
         Val (read_part content maxSize))
    end.

(** *** The socket *)

(** [self._socket = socket.socket(...)]: a new socket object that is not
    connected yet.  [sock] has no state of its own for it, and the model
    holds it as [SockClosed], which refuses [recv] and [sendall] with
    [OSError] and accepts [close] as the new socket does; the two differ
    for [select], which the client reaches only with the flag
    [_connected] set. *)
Definition socket_socket : HostM unit :=
  (lift (modify (set_socket (Some SockClosed))) ;; note SocketCreated)%host.

(** [self._socket.connect((host, port))]. *)
Definition socket_connect (host : string) (port : Z) : HostM unit :=
  fun h =>
    match connects h with
    | false :: rest =>
        (mkHost (client h) (files h) (opens h) rest
                (timeline h ++ [SocketRefused host port]), Exc SocketError)
    | _ =>
        (mkHost (set_socket (Some SockOpen) (client h)) (files h) (opens h)
                (tl (connects h)) (timeline h ++ [SocketConnected host port]),
         Val tt)
    end.

(** ** The operations *)

(** [r[1:]] on what [rspCall] returned; [None] and [True] cannot be
    sliced. *)
Definition from_second_byte (r : value) : HostM bytes :=
  match r with
  | VBytes data => hret (tl data)
  | VTrue | VNone => hraise TypeError
  end.

(** [connect]. *)
Definition connect (host : string) (port : Z) : HostM bool :=
  (socket_socket ;;
   socket_connect host port ;;
   note SocketNoDelay ;;
   note (SocketTimeoutSet 10) ;;
   ack <- lift _rspGetAck ;;
   if negb ack then
     note (HostPrint (lit "No ack from GDB server")) ;;
     lift sock_close ;;
     hret false
   else
     lift (modify (set_connected true)) ;;
     lift (rspCall (lit "QStartNoAckMode") true true) ;;
     lift (rspCall (lit "!") false true) ;;
     r <- lift (rspCall (lit "qXfer:features:read:target.xml:0,9999") false true) ;;
     xml <- from_second_byte r ;;
     open_wb "target.xml" ;;
     file_write "target.xml" xml ;;
     note (TargetXmlUpdated xml) ;;
     lift (ui_onStateUpdated (Some paused)) ;;
     hret true)%host.

(** The request of [monitorCmd]: [b'qRcmd,%s' % hexlify(cmd)]. *)
Definition monitor_request (cmd : bytes) : bytes := lit "qRcmd," ++ hexlify cmd.

Definition monitorCmd (cmd : bytes) : HostM value :=
  (note (HostPrint (monitor_request cmd)) ;;
   lift (rspCall (monitor_request cmd) false true))%host.

(** [reset]; the argument [halt] is not used, and the function ends
    without a [return]. *)
Definition reset : HostM value :=
  (monitorCmd (lit "reset halt") ;;
   note (Sleep 1) ;;
   lift (ui_onStateUpdated (Some paused)) ;;
   hret VNone)%host.

(** The loop of [readToFile]. *)
Fixpoint read_loop (fuel : nat) (addr size : Z) (file : string) : HostM unit :=
  match fuel with
  | O => hout_of_fuel
  | S f =>
      if (0 <? size)%Z then
        (data <- lift (read addr (Z.min size 4096)) ;;
         file_write file data ;;
         read_loop f (addr + Z.of_nat (length data))%Z
                   (size - Z.of_nat (length data))%Z file)%host
      else hret tt
  end.

(** [readToFile]: a [read] that returns takes at least one answer from
    the oracle, which bounds the number of rounds. *)
Definition readToFile (addr size : Z) (file : string) : HostM bool :=
  (open_wb file ;;
   budget <- hgets (fun h => S (recv_budget (recvs (client h)))) ;;
   read_loop budget addr size file ;;
   hret true)%host.

(** [r == False] for what [write] returned: a payload and [None] both
    differ from [False]. *)
Definition is_False (r : value) : bool :=
  match r with
  | VTrue | VBytes _ | VNone => false
  end.

(** The loop of [writeFromFile]; [pos] grows by 4096 in every round. *)
Fixpoint write_loop (fuel : nat) (addr : Z) (pos : nat) (data : bytes) : HostM bool :=
  match fuel with
  | O => hout_of_fuel
  | S f =>
      if pos <? length data then
        (r <- lift (write addr (firstn 4096 (skipn pos data))) ;;
         if is_False r then
           note (HostPrint (lit "Write failed at: " ++ fmt_x 8 addr)) ;;
           hret false
         else write_loop f (addr + 4096)%Z (pos + 4096) data)%host
      else hret true
  end.

Definition writeFromFile (addr : Z) (file : string) (maxSize : Z) : HostM bool :=
  (data <- read_file file maxSize ;;
   write_loop (S (length data)) addr 0 data)%host.

(** A host around a client, with no file and an environment that lets
    every [open] and [connect] through. *)
Definition host_of (s : State) : Host := mkHost s [] [] [] [].

(** The lines and requests printed by the operations themselves. *)
Definition host_prints (t : list host_event) : list bytes :=
  flat_map (fun e => match e with HostPrint l => [l] | _ => [] end) t.

(** A reply the splitter takes whole and hands out as the response. *)
Definition reply (p cc : bytes) : Prop :=
  find ch_hash p = None /\ is_response p = true /\ length cc = 2 /\ clean cc /\
  (N.of_nat (length (raw_frame p cc)) <= 30000)%N.

(** A connected client between two calls, in an environment where
    [select] finds nothing waiting and every [sendall] goes through. *)
Definition at_rest (s : State) (junk : bytes) (rcv : list recv_outcome) : Prop :=
  _connected s = true /\ _socket s = Some SockOpen /\
  _pendingData s = junk /\ clean junk /\
  selects s = [] /\ sends s = [] /\ recvs s = rcv.

(** ** Memory to file and back *)

(** The answers of a target that sends the given chunks of memory, each
    with the two bytes after its [#]. *)
Definition answers (chunks : list (bytes * bytes)) : list recv_outcome :=
  map (fun c => RecvBytes (raw_frame (hexlify (fst c)) (snd c))) chunks.

(** The replies of a target, payload by payload. *)
Definition replies_of (rs : list (bytes * bytes)) : list recv_outcome :=
  map (fun r => RecvBytes (raw_frame (fst r) (snd r))) rs.

(** The chunks that arrive make up the size asked for, and not before
    the last one. *)
Fixpoint covers (size : Z) (chunks : list bytes) : Prop :=
  match chunks with
  | [] => (size <= 0)%Z
  | d :: rest => (0 < size)%Z /\ covers (size - Z.of_nat (length d)) rest
  end.

(** The frames of the requests [m<addr>,<size>] that go with the chunks:
    at most 4096 bytes are asked for at a time, and the address moves on
    by what arrived. *)
Fixpoint read_requests (addr size : Z) (chunks : list bytes) : bytes :=
  match chunks with
  | [] => []
  | d :: rest =>
      frame (read_request addr (Z.min size 4096)) ++
      read_requests (addr + Z.of_nat (length d)) (size - Z.of_nat (length d)) rest
  end.

(** The frames of the requests [M<addr>,<length>:<data>] for pieces sent
    to addresses 4096 apart. *)
Fixpoint write_requests (addr : Z) (pieces : list bytes) : bytes :=
  match pieces with
  | [] => []
  | d :: rest => frame (write_request addr d) ++ write_requests (addr + 4096) rest
  end.

(** * Properties *)

(** ** [find], slices and the end of the buffer *)

Lemma find_app_none (c : byte) (l1 l2 : bytes) :
  find c l1 = None ->
  find c (l1 ++ l2) = option_map (Nat.add (length l1)) (find c l2).
Proof.
  induction l1 as [|x l1 IH]; simpl; intros H.
  - destruct (find c l2); reflexivity.
  - destruct (Byte.eqb x c); [discriminate|].
    destruct (find c l1); [discriminate|].
    rewrite IH by reflexivity. destruct (find c l2); reflexivity.
Qed.

Lemma find_head (c : byte) (l : bytes) : find c (c :: l) = Some 0.
Proof. simpl. now rewrite (Byte.byte_dec_lb eq_refl). Qed.

Lemma find_at (c : byte) (l1 l2 : bytes) :
  find c l1 = None -> find c (l1 ++ c :: l2) = Some (length l1).
Proof.
  intros H. rewrite find_app_none by assumption. rewrite find_head.
  simpl. now rewrite Nat.add_0_r.
Qed.

Lemma find_none_app (c : byte) (l1 l2 : bytes) :
  find c l1 = None -> find c l2 = None -> find c (l1 ++ l2) = None.
Proof. intros H1 H2. rewrite find_app_none by assumption. now rewrite H2. Qed.

Lemma firstn_length_app (A : Type) (l1 l2 : list A) :
  firstn (length l1) (l1 ++ l2) = l1.
Proof.
  rewrite firstn_app, Nat.sub_diag, firstn_all. simpl. apply app_nil_r.
Qed.

Lemma skipn_length_app (A : Type) (l1 l2 : list A) :
  skipn (length l1) (l1 ++ l2) = l2.
Proof.
  rewrite skipn_app, Nat.sub_diag, skipn_all. reflexivity.
Qed.

Lemma skipn_S_length_app (A : Type) (l1 : list A) (x : A) (l2 : list A) :
  skipn (S (length l1)) (l1 ++ x :: l2) = l2.
Proof.
  replace (S (length l1)) with (length (l1 ++ [x]))
    by (rewrite length_app; simpl; lia).
  replace (l1 ++ x :: l2) with ((l1 ++ [x]) ++ l2)
    by (rewrite <- app_assoc; reflexivity).
  apply skipn_length_app.
Qed.

Lemma index_neg3_end (pre : bytes) (c x y : byte) :
  index_neg3 (pre ++ [c; x; y]) = Some c.
Proof.
  unfold index_neg3. rewrite length_app. simpl length.
  destruct (Nat.ltb_spec (length pre + 3) 3) as [H|H]; [lia|].
  replace (length pre + 3 - 3) with (length pre) by lia.
  rewrite nth_error_app2 by lia. now rewrite Nat.sub_diag.
Qed.

(** ** One pass of the second loop over a frame *)

Lemma split_packets_frame (f : nat) (r : option bytes) (s : State)
      (junk p rest : bytes) :
  clean junk -> find ch_hash p = None ->
  _pendingData s = junk ++ raw_frame p rest ->
  split_packets (S f) r s =
    let s0 := set_pendingData rest s in
    if is_trap p then
      split_packets f r
        (emit (EvStateUpdated (Some paused)) (emit (EvPrint (MsgTrap p)) s0))
    else if is_log p then
      match unhexlify (tl p) with
      | None => (s0, Exc BinasciiError)
      | Some text => split_packets f r (emit (EvPrint (MsgLog text)) s0)
      end
    else split_packets f (Some p) (note_ignored r s0).
Proof.
  intros [Hj1 Hj2] Hp Hpd.
  assert (Hfind : find ch_hash (_pendingData s) = Some (length (junk ++ ch_dollar :: p))).
  { rewrite Hpd. unfold raw_frame. simpl.
    replace (junk ++ ch_dollar :: p ++ ch_hash :: rest)
      with ((junk ++ ch_dollar :: p) ++ ch_hash :: rest)
      by (rewrite <- app_assoc; reflexivity).
    apply find_at. apply find_none_app; [assumption|].
    simpl. now rewrite Hp. }
  assert (Hfirst : firstn (length (junk ++ ch_dollar :: p)) (_pendingData s)
                   = junk ++ ch_dollar :: p).
  { rewrite Hpd. unfold raw_frame. simpl.
    replace (junk ++ ch_dollar :: p ++ ch_hash :: rest)
      with ((junk ++ ch_dollar :: p) ++ ch_hash :: rest)
      by (rewrite <- app_assoc; reflexivity).
    apply firstn_length_app. }
  assert (Hskip : skipn (S (length (junk ++ ch_dollar :: p))) (_pendingData s) = rest).
  { rewrite Hpd. unfold raw_frame. simpl.
    replace (junk ++ ch_dollar :: p ++ ch_hash :: rest)
      with ((junk ++ ch_dollar :: p) ++ ch_hash :: rest)
      by (rewrite <- app_assoc; reflexivity).
    apply skipn_S_length_app. }
  cbn [split_packets]. unfold bind at 1, gets at 1.
  rewrite Hfind. unfold bind at 1, modify at 1.
  rewrite Hfirst, Hskip.
  rewrite (find_at ch_dollar junk p Hj2).
  rewrite skipn_S_length_app.
  unfold is_trap, is_log.
  destruct (long_with_head ch_T p).
  - reflexivity.
  - destruct (long_with_head ch_O p).
    + destruct (unhexlify (tl p)); reflexivity.
    + destruct r; reflexivity.
Qed.

Lemma split_packets_done (f : nat) (r : option bytes) (s : State) :
  find ch_hash (_pendingData s) = None ->
  split_packets (S f) r s = (s, Val r).
Proof.
  intros H. cbn [split_packets]. unfold bind, gets. now rewrite H.
Qed.

(** ** The second loop over a buffer of whole frames *)

Lemma raw_frame_app (p cc w : bytes) :
  raw_frame p cc ++ w = raw_frame p (cc ++ w).
Proof. unfold raw_frame. simpl. now rewrite <- !app_assoc. Qed.

Lemma last_cons_default (A : Type) (l : list A) (x d : A) :
  last (x :: l) d = last l x.
Proof.
  revert x d. induction l as [|y l IH]; intros x d; [reflexivity|].
  change (last (x :: y :: l) d) with (last (y :: l) d).
  now rewrite (IH y d), (IH y x).
Qed.

Lemma leftover_cons (junk : bytes) (f : bytes * bytes) (fs : list (bytes * bytes)) :
  leftover junk (f :: fs) = leftover (snd f) fs.
Proof. unfold leftover. simpl map. apply last_cons_default. Qed.

Lemma split_packets_wire (fs : list (bytes * bytes)) :
  forall (f : nat) (r : option bytes) (s : State) (junk : bytes),
    Forall takes_whole fs -> clean junk ->
    _pendingData s = junk ++ wire fs ->
    length fs < f ->
    split_packets f r s =
      (mkState (_socket s) (_connected s) (leftover junk fs) (selects s)
               (recvs s) (sends s) (trace s ++ fst (route r (map fst fs))),
       Val (snd (route r (map fst fs)))).
Proof.
  induction fs as [|[p cc] fs IH]; intros f r s junk Hfs Hjunk Hpd Hf.
  - destruct f as [|f]; [inversion Hf|].
    simpl in Hpd. rewrite app_nil_r in Hpd.
    rewrite split_packets_done by (rewrite Hpd; apply Hjunk).
    simpl. rewrite app_nil_r. unfold leftover. simpl. rewrite <- Hpd.
    destruct s; reflexivity.
  - destruct f as [|f]; [inversion Hf|]. simpl in Hf.
    inversion Hfs as [|? ? [Hp [Hlen [Hcc Hlog]]] Hrest]; subst.
    simpl in Hp, Hlen, Hcc, Hlog.
    assert (Hpd' : _pendingData s = junk ++ raw_frame p (cc ++ wire fs)).
    { rewrite Hpd.
      change (wire ((p, cc) :: fs)) with (raw_frame p cc ++ wire fs).
      now rewrite raw_frame_app. }
    rewrite (split_packets_frame f r s junk p (cc ++ wire fs) Hjunk Hp Hpd').
    rewrite leftover_cons. cbn [snd map fst route].
    cbv zeta.
    destruct (is_trap p).
    + rewrite (IH f r _ cc Hrest Hcc) by (reflexivity || lia).
      destruct (route r (map fst fs)) as [evs r']. cbn.
      now rewrite <- !app_assoc.
    + destruct (is_log p).
      * destruct (unhexlify (tl p)) as [text|]; [|now specialize (Hlog eq_refl)].
        rewrite (IH f r _ cc Hrest Hcc) by (reflexivity || lia).
        destruct (route r (map fst fs)) as [evs r']. cbn.
        now rewrite <- !app_assoc.
      * rewrite (IH f (Some p) _ cc Hrest Hcc)
          by (destruct r; reflexivity || lia).
        destruct (route (Some p) (map fst fs)) as [evs r'].
        destruct r; cbn; now rewrite <- ?app_assoc.
Qed.

Lemma wire_end (fs : list (bytes * bytes)) :
  fs <> [] -> Forall takes_whole fs ->
  exists pre c1 c2, wire fs = pre ++ [ch_hash; c1; c2].
Proof.
  intros Hne Hfs.
  destruct (exists_last Hne) as [fs' [[p cc] ->]].
  apply Forall_app in Hfs as [_ Hlast].
  inversion Hlast as [|? ? [_ [Hlen _]] _]; subst. simpl in Hlen.
  destruct cc as [|c1 [|c2 [|? ?]]]; try discriminate.
  exists (wire fs' ++ ch_dollar :: p), c1, c2.
  unfold wire. rewrite flat_map_app. simpl. unfold raw_frame. simpl.
  rewrite app_nil_r, <- app_assoc. reflexivity.
Qed.

Lemma wire_length (fs : list (bytes * bytes)) : length fs <= length (wire fs).
Proof.
  induction fs as [|[p cc] fs IH]; simpl; [lia|].
  rewrite length_app. lia.
Qed.

(** ** Receiving *)

Lemma bind_val {A B} (m : M A) (k : A -> M B) (s s' : State) (a : A) :
  m s = (s', Val a) -> bind m k s = k a s'.
Proof. intros H. unfold bind. now rewrite H. Qed.

Lemma sock_recv_whole (n : N) (s : State) (d : bytes) (rest : list recv_outcome) :
  _socket s = Some SockOpen -> recvs s = RecvBytes d :: rest ->
  (N.of_nat (length d) <= n)%N ->
  sock_recv n s = (emit (EvRecv d) (set_recvs rest s), Val d).
Proof.
  intros Hsock Hrecv Hlen. unfold sock_recv. rewrite Hsock, Hrecv.
  apply N.leb_le in Hlen. now rewrite Hlen.
Qed.

(** The first loop stops after one [recv] when the buffer then ends in
    [#] and two more bytes. *)
Lemma recv_frames_hash (f : nat) (s : State) (d : bytes)
      (rest : list recv_outcome) (pre : bytes) (c1 c2 : byte) :
  _socket s = Some SockOpen -> recvs s = RecvBytes d :: rest ->
  (N.of_nat (length d) <= 30000)%N ->
  d <> [] -> _pendingData s ++ d = pre ++ [ch_hash; c1; c2] ->
  recv_frames (S f) s =
    (set_pendingData (_pendingData s ++ d) (emit (EvRecv d) (set_recvs rest s)),
     Val true).
Proof.
  intros Hsock Hrecv Hlen Hne Hend. cbn [recv_frames].
  rewrite (bind_val _ _ _ _ _ (sock_recv_whole _ _ _ _ Hsock Hrecv Hlen)).
  destruct d as [|x d]; [contradiction|].
  unfold bind, gets, modify. cbn [_pendingData emit set_recvs set_pendingData].
  rewrite Hend, index_neg3_end. now rewrite (Byte.byte_dec_lb eq_refl).
Qed.

(** [_rspConsumePackets] when the next [recv] hands out a buffer of whole
    frames: the frames are routed in order and the bytes after the last
    [#] stay in the buffer. *)
Lemma consume_wire (fs : list (bytes * bytes)) (s : State)
      (junk : bytes) (rest : list recv_outcome) :
  fs <> [] -> Forall takes_whole fs -> clean junk ->
  _socket s = Some SockOpen -> _pendingData s = junk ->
  recvs s = RecvBytes (wire fs) :: rest ->
  (N.of_nat (length (wire fs)) <= 30000)%N ->
  _rspConsumePackets s =
    (mkState (Some SockOpen) (_connected s) (leftover junk fs) (selects s)
             rest (sends s)
             (trace s ++ EvRecv (wire fs) :: fst (route None (map fst fs))),
     Val (snd (route None (map fst fs)))).
Proof.
  intros Hne Hfs Hjunk Hsock Hpd Hrecv Hlen.
  destruct (wire_end fs Hne Hfs) as [pre [c1 [c2 Hend]]].
  assert (Hnil : wire fs <> []) by (rewrite Hend; now destruct pre).
  assert (Hend' : _pendingData s ++ wire fs = (junk ++ pre) ++ [ch_hash; c1; c2])
    by (now rewrite Hpd, Hend, app_assoc).
  unfold _rspConsumePackets.
  unfold bind at 1, gets at 1.
  rewrite (bind_val _ _ _ _ _
             (recv_frames_hash _ s _ rest _ c1 c2 Hsock Hrecv Hlen Hnil Hend')).
  unfold bind at 1, gets at 1.
  cbn [_pendingData emit set_recvs set_pendingData].
  rewrite (split_packets_wire fs _ None _ junk); try assumption.
  - cbn. rewrite Hsock. now rewrite <- app_assoc.
  - cbn. now rewrite Hpd.
  - rewrite length_app. pose proof (wire_length fs). lia.
Qed.

(** ** What the receiving side keeps *)

Section Keeps.
Variable R : State -> State -> Prop.
Variable on_exc : bool.

Hypothesis B : basis R on_exc.

Lemma keeps_ret {A} (a : A) : keeps R on_exc (ret a).
Proof. intros s _. apply (basis_refl _ _ B). Qed.

Lemma keeps_raise {A} (e : exn) : keeps R on_exc (@raise A e).
Proof. intros s _. apply (basis_refl _ _ B). Qed.

Lemma keeps_out_of_fuel {A} : keeps R on_exc (@out_of_fuel A).
Proof. intros s _. apply (basis_refl _ _ B). Qed.

Lemma keeps_gets {A} (f : State -> A) : keeps R on_exc (gets f).
Proof. intros s _. apply (basis_refl _ _ B). Qed.

Lemma keeps_bind {A B'} (m : M A) (k : A -> M B') :
  keeps R on_exc m -> (forall a, keeps R on_exc (k a)) -> keeps R on_exc (bind m k).
Proof.
  intros Hm Hk s. unfold bind. specialize (Hm s).
  destruct (m s) as [s1 [a| e |]]; simpl in *; intros Hc.
  - apply (basis_trans _ _ B) with s1; [now apply Hm | now apply Hk].
  - now apply Hm.
  - now apply Hm.
Qed.

Lemma keeps_try {A} (m : M A) (h : exn -> M A) :
  on_exc = true -> keeps R on_exc m -> (forall e, keeps R on_exc (h e)) ->
  keeps R on_exc (try_except m h).
Proof.
  intros Ho Hm Hh s. unfold try_except. specialize (Hm s).
  destruct (m s) as [s1 [a| e |]]; simpl in *; intros Hc.
  - now apply Hm.
  - apply (basis_trans _ _ B) with s1; [now apply Hm | now apply Hh].
  - now apply Hm.
Qed.

Lemma keeps_print (m : message) : keeps R on_exc (print m).
Proof. intros s _. apply (basis_print _ _ B). Qed.

Lemma keeps_set_pending (v : bytes) : keeps R on_exc (modify (set_pendingData v)).
Proof. intros s _. apply (basis_pending _ _ B). Qed.

(** What the first loop does with the bytes of one [recv]. *)
Lemma keeps_after_recv (f : nat) (data : bytes) :
  keeps R on_exc disconnect -> keeps R on_exc (recv_frames f) ->
  keeps R on_exc
    (match data with
     | [] => print MsgDisconnected ;; disconnect ;; ret false
     | _ =>
         pending <- gets _pendingData ;;
         modify (set_pendingData (pending ++ data)) ;;
         match index_neg3 (pending ++ data) with
         | None => raise IndexError
         | Some c => if Byte.eqb c ch_hash then ret true else recv_frames f
         end
     end).
Proof.
  intros R_disconnect IH. destruct data as [|x data].
  - apply keeps_bind; [apply keeps_print|]. intros _.
    apply keeps_bind; [apply R_disconnect | intros _; apply keeps_ret].
  - apply keeps_bind; [apply keeps_gets|]. intros pending.
    apply keeps_bind; [apply keeps_set_pending|]. intros _.
    destruct (index_neg3 _) as [c|]; [|apply keeps_raise].
    destruct (Byte.eqb c ch_hash); [apply keeps_ret | apply IH].
Qed.

(** The first loop, for a relation that [disconnect] keeps as well. *)
Lemma keeps_recv_frames_by (f : nat) :
  keeps R on_exc disconnect -> keeps R on_exc (recv_frames f).
Proof.
  intros R_disconnect.
  induction f as [|f IH]; cbn [recv_frames].
  - apply keeps_out_of_fuel.
  - apply keeps_bind; [apply (basis_recv _ _ B)|]. intros data.
    now apply keeps_after_recv.
Qed.

Hypothesis R_recv_frames : forall f, keeps R on_exc (recv_frames f).

Lemma keeps_split_packets (f : nat) : forall r, keeps R on_exc (split_packets f r).
Proof.
  induction f as [|f IH]; intros r; cbn [split_packets].
  - apply keeps_out_of_fuel.
  - apply keeps_bind; [apply keeps_gets|]. intros pending.
    destruct (find ch_hash pending) as [pos|]; [|apply keeps_ret].
    apply keeps_bind; [apply keeps_set_pending|]. intros _.
    destruct (find ch_dollar (firstn pos pending)) as [pos2|].
    + destruct (long_with_head ch_T _).
      * apply keeps_bind; [apply keeps_print|]. intros _.
        apply keeps_bind; [intros s _; apply (basis_paused _ _ B)|].
        intros _. apply IH.
      * destruct (long_with_head ch_O _).
        -- destruct (unhexlify _); [|apply keeps_raise].
           apply keeps_bind; [apply keeps_print|]. intros _. apply IH.
        -- apply keeps_bind; [|intros _; apply IH].
           destruct r; [apply keeps_print | apply keeps_ret].
    + apply keeps_bind; [apply keeps_print|]. intros _. apply IH.
Qed.

(** What [_rspConsumePackets] does after its first loop. *)
Lemma keeps_after_frames (more : bool) :
  keeps R on_exc
    (if more then
       pending <- gets _pendingData ;;
       split_packets (S (length pending)) None
     else ret None).
Proof.
  destruct more; [|apply keeps_ret].
  apply keeps_bind; [apply keeps_gets|]. intros pending.
  apply keeps_split_packets.
Qed.

Lemma keeps_consume : keeps R on_exc _rspConsumePackets.
Proof.
  unfold _rspConsumePackets.
  apply keeps_bind; [apply keeps_gets|]. intros budget.
  apply keeps_bind; [apply R_recv_frames | apply keeps_after_frames].
Qed.

(** What [_rspCheckUnexpectedData] does with the result of the pass. *)
Lemma keeps_after_consume (data : option bytes) :
  keeps R on_exc
    (match data with
     | Some pkt => print (MsgUnexpected pkt)
     | None => ret tt
     end).
Proof. destruct data; [apply keeps_print | apply keeps_ret]. Qed.

Lemma keeps_check : keeps R on_exc _rspCheckUnexpectedData.
Proof.
  unfold _rspCheckUnexpectedData.
  apply keeps_bind; [apply (basis_select _ _ B)|]. intros [|]; [|apply keeps_ret].
  apply keeps_bind; [apply keeps_consume | apply keeps_after_consume].
Qed.

Lemma keeps_recv_packet (f : nat) : keeps R on_exc (recv_packet f).
Proof.
  induction f as [|f IH]; cbn [recv_packet].
  - apply keeps_out_of_fuel.
  - apply keeps_bind; [apply keeps_consume|].
    intros [pkt|]; [apply keeps_ret | apply IH].
Qed.

Lemma keeps_rspRecvPacket : keeps R on_exc _rspRecvPacket.
Proof.
  unfold _rspRecvPacket.
  apply keeps_bind; [apply keeps_gets|]. intros budget.
  apply keeps_recv_packet.
Qed.

Lemma keeps_getAck : keeps R on_exc _rspGetAck.
Proof.
  unfold _rspGetAck. apply keeps_bind; [apply (basis_recv _ _ B)|]. intros data.
  destruct (bytes_eqb data [ch_plus]); [apply keeps_ret|].
  apply keeps_bind; [apply keeps_print | intros _; apply keeps_ret].
Qed.

Lemma keeps_call_tail (waitForAck waitForResp : bool) :
  keeps R on_exc (call_tail waitForAck waitForResp).
Proof.
  apply keeps_bind.
  - destruct waitForAck; [|apply keeps_ret].
    apply keeps_bind; [apply keeps_getAck | intros _; apply keeps_ret].
  - intros _. destruct (negb waitForResp); [apply keeps_ret|].
    apply keeps_bind; [apply keeps_rspRecvPacket | intros pkt; apply keeps_ret].
Qed.

Lemma keeps_call_body (data : bytes) (waitForAck waitForResp : bool) :
  (forall d, keeps R on_exc (sock_sendall d)) ->
  keeps R on_exc (call_body data waitForAck waitForResp).
Proof.
  intros R_send. unfold call_body.
  apply keeps_bind; [apply keeps_check|]. intros _.
  apply keeps_bind; [apply R_send|]. intros _.
  apply keeps_bind; [apply R_send|]. intros _.
  apply keeps_bind; [apply R_send|]. intros _.
  apply keeps_bind; [apply R_send|]. intros _.
  apply keeps_call_tail.
Qed.
End Keeps.

(** ** What an event adds to the readings of a trace *)

Lemma sent_app (t1 t2 : list event) : sent (t1 ++ t2) = sent t1 ++ sent t2.
Proof. apply flat_map_app. Qed.

Lemma state_updates_app (t1 t2 : list event) :
  state_updates (t1 ++ t2) = state_updates t1 ++ state_updates t2.
Proof. apply flat_map_app. Qed.

Lemma null_updates_app (t1 t2 : list event) :
  null_updates (t1 ++ t2) = null_updates t1 + null_updates t2.
Proof.
  unfold null_updates. now rewrite state_updates_app, filter_app, length_app.
Qed.

Lemma io_failures_app (t1 t2 : list event) :
  io_failures (t1 ++ t2) = io_failures t1 + io_failures t2.
Proof. unfold io_failures. now rewrite filter_app, length_app. Qed.

Lemma ignored_app (t1 t2 : list event) : ignored (t1 ++ t2) = ignored t1 ++ ignored t2.
Proof. apply flat_map_app. Qed.

(** ** [quiet]: the receiving side writes nothing *)

Ltac solve_quiet :=
  unfold quiet, sent; cbn; rewrite ?flat_map_app; cbn; rewrite ?app_nil_r;
  reflexivity.

Lemma quiet_basis : basis quiet true.
Proof.
  split; try (intros; solve_quiet).
  - unfold quiet. congruence.
  - intros s _. unfold sock_select.
    destruct (_socket s) as [[|]|]; try solve_quiet.
    destruct (selects s); solve_quiet.
  - intros n s _. unfold sock_recv.
    destruct (_socket s) as [[|]|]; try solve_quiet.
    destruct (recvs s) as [|[data|e] rest]; try solve_quiet.
    destruct (N.leb _ _); solve_quiet.
Qed.

Lemma quiet_disconnect : keeps quiet true disconnect.
Proof.
  intros s _. unfold disconnect, bind, modify, sock_close, ui_onStateUpdated, ret.
  cbn. destruct (_socket s); solve_quiet.
Qed.

Lemma quiet_recv_frames (f : nat) : keeps quiet true (recv_frames f).
Proof. apply keeps_recv_frames_by; [apply quiet_basis | apply quiet_disconnect]. Qed.

Lemma covered_all {A} (r : outcome A) : covered true r.
Proof. now destruct r. Qed.

Lemma quiet_check (s : State) : quiet s (fst (_rspCheckUnexpectedData s)).
Proof.
  apply (keeps_check _ _ quiet_basis quiet_recv_frames), covered_all.
Qed.

Lemma quiet_call_tail (ack resp : bool) (s : State) :
  quiet s (fst (call_tail ack resp s)).
Proof.
  apply (keeps_call_tail _ _ quiet_basis quiet_recv_frames), covered_all.
Qed.

(** ** [poll] *)

Ltac count_recvs :=
  unfold recv_calls; cbn; rewrite ?filter_app; cbn; rewrite ?length_app; cbn;
  try lia.

Lemma quiet_poll : keeps quiet true poll.
Proof.
  pose proof quiet_basis as B. unfold poll.
  apply keeps_bind; [assumption | now apply keeps_gets |]. intros connected.
  destruct (negb connected); [now apply keeps_ret|].
  apply keeps_bind; [assumption | | intros _; now apply keeps_ret].
  apply keeps_try; [assumption | reflexivity | |].
  - apply keeps_check; [assumption | apply quiet_recv_frames].
  - intros e. apply keeps_bind; [assumption | now apply keeps_print |].
    intros _. apply keeps_bind; [assumption | apply quiet_disconnect |].
    intros _. now apply keeps_ret.
Qed.

(** ** [pause] *)

(** C7, amended: [pause] writes the single byte 0x03, without [$], [#] or
    checksum, and returns [True] at once: it reads nothing and leaves
    buffer, oracle and observer untouched. *)
Theorem pause_sends_interrupt_only (s : State) :
  _socket s = Some SockOpen -> hd true (sends s) = true ->
  snd (pause s) = Val VTrue /\
  trace (fst (pause s)) = trace s ++ [EvSend [x03]] /\
  recvs (fst (pause s)) = recvs s /\
  _pendingData (fst (pause s)) = _pendingData s.
Proof.
  intros Hsock Hsend. unfold pause, bind, sock_sendall. rewrite Hsock.
  destruct (sends s) as [|[|] rest]; cbn in *; try discriminate; auto.
Qed.

Lemma pause_sends_interrupt_only_witness :
  let s := connected_client [] [RecvBytes (lit "$T05#b9")] in
  snd (pause s) = Val VTrue /\
  trace (fst (pause s)) = trace s ++ [EvSend [x03]] /\
  recvs (fst (pause s)) = recvs s /\
  _pendingData (fst (pause s)) = _pendingData s.
Proof. intros s. apply (pause_sends_interrupt_only s); reflexivity. Defined.

(** C7 as stated fails: with the stop reply waiting in the socket, [pause]
    returns without a [recv], and the observer hears nothing. *)
Lemma pause_does_not_wait :
  let s := connected_client [] [RecvBytes (lit "$T05#b9")] in
  pause s =
    (mkState (Some SockOpen) true [] [] [RecvBytes (lit "$T05#b9")] []
             [EvSend [x03]],
     Val VTrue) /\
  recv_calls (trace (fst (pause s))) = 0 /\
  state_updates (trace (fst (pause s))) = [].
Proof. repeat split; reflexivity. Qed.

(** ** A call that is answered *)

Lemma try_val {A} (m : M A) (h : exn -> M A) (s s' : State) (a : A) :
  m s = (s', Val a) -> try_except m h s = (s', Val a).
Proof. intros H. unfold try_except. now rewrite H. Qed.

Lemma sock_select_idle (s : State) :
  _socket s = Some SockOpen -> hd false (selects s) = false ->
  sock_select s = (emit (EvSelect false) (set_selects (tl (selects s)) s), Val false).
Proof.
  intros Hsock Hsel. unfold sock_select. rewrite Hsock.
  destruct s as [sk cn pd sel rcv snd tr]; cbn in *.
  destruct sel as [|r sel]; cbn in *; subst; reflexivity.
Qed.

Lemma check_idle (s : State) :
  _socket s = Some SockOpen -> hd false (selects s) = false ->
  _rspCheckUnexpectedData s =
    (emit (EvSelect false) (set_selects (tl (selects s)) s), Val tt).
Proof.
  intros Hsock Hsel. unfold _rspCheckUnexpectedData.
  now rewrite (bind_val _ _ _ _ _ (sock_select_idle s Hsock Hsel)).
Qed.

Lemma sock_sendall_ok (d : bytes) (s : State) :
  _socket s = Some SockOpen -> sends_succeed s ->
  sock_sendall d s = (emit (EvSend d) (set_sends (tl (sends s)) s), Val tt).
Proof.
  intros Hsock Hs. unfold sock_sendall. rewrite Hsock.
  destruct s as [sk cn pd sel rcv snd tr]; unfold sends_succeed in Hs; cbn in *.
  destruct snd as [|ok snd]; [reflexivity|].
  inversion Hs; subst. reflexivity.
Qed.

Lemma sends_succeed_tl (s : State) (e : event) :
  sends_succeed s -> sends_succeed (emit e (set_sends (tl (sends s)) s)).
Proof.
  unfold sends_succeed. cbn. intros H. destruct (sends s); [constructor|].
  now inversion H.
Qed.

Lemma rspRecvPacket_first (s s' : State) (p : bytes) :
  _rspConsumePackets s = (s', Val (Some p)) -> _rspRecvPacket s = (s', Val p).
Proof.
  intros H. unfold _rspRecvPacket, bind at 1, gets at 1. cbn [recv_packet].
  now rewrite (bind_val _ _ _ _ _ H).
Qed.

(** A call made with nothing waiting in the socket, every [sendall]
    going through and the next [recv] handing out a buffer of whole frames
    with a response among them. *)
Lemma rspCall_wire (data : bytes) (s : State) (fs : list (bytes * bytes))
      (junk : bytes) (rest : list recv_outcome) (p : bytes) :
  _connected s = true -> _socket s = Some SockOpen ->
  _pendingData s = junk -> clean junk ->
  hd false (selects s) = false -> sends_succeed s ->
  recvs s = RecvBytes (wire fs) :: rest ->
  (N.of_nat (length (wire fs)) <= 30000)%N ->
  fs <> [] -> Forall takes_whole fs ->
  snd (route None (map fst fs)) = Some p ->
  rspCall data false true s =
    (mkState (Some SockOpen) true (leftover junk fs) (tl (selects s)) rest
             (tl (tl (tl (tl (sends s)))))
             (trace s ++
              [EvSelect false; EvSend [ch_dollar]; EvSend data; EvSend [ch_hash];
               EvSend (fmt_x 2 (checksum data)); EvRecv (wire fs)] ++
              fst (route None (map fst fs))),
     Val (VBytes p)).
Proof.
  intros Hconn Hsock Hpd Hjunk Hsel Hsends Hrecv Hlen Hne Hfs Hroute.
  unfold rspCall, bind at 1, gets at 1. rewrite Hconn. cbn [negb].
  unfold _rspEscape, _rspUnescape.
  set (s1 := emit (EvSelect false) (set_selects (tl (selects s)) s)).
  set (s2 := emit (EvSend [ch_dollar]) (set_sends (tl (sends s1)) s1)).
  set (s3 := emit (EvSend data) (set_sends (tl (sends s2)) s2)).
  set (s4 := emit (EvSend [ch_hash]) (set_sends (tl (sends s3)) s3)).
  set (s5 := emit (EvSend (fmt_x 2 (checksum data))) (set_sends (tl (sends s4)) s4)).
  assert (H1 : sends_succeed s1) by exact Hsends.
  assert (H2 : sends_succeed s2) by now apply sends_succeed_tl.
  assert (H3 : sends_succeed s3) by now apply sends_succeed_tl.
  assert (H4 : sends_succeed s4) by now apply sends_succeed_tl.
  pose proof (consume_wire fs s5 junk rest Hne Hfs Hjunk Hsock Hpd Hrecv Hlen)
    as Hconsume.
  rewrite Hroute in Hconsume.
  erewrite try_val; [|].
  2:{ rewrite (bind_val _ _ _ _ _ (check_idle s Hsock Hsel)). fold s1.
      rewrite (bind_val _ _ _ _ _ (sock_sendall_ok [ch_dollar] s1 Hsock H1)). fold s2.
      rewrite (bind_val _ _ _ _ _ (sock_sendall_ok data s2 Hsock H2)). fold s3.
      rewrite (bind_val _ _ _ _ _ (sock_sendall_ok [ch_hash] s3 Hsock H3)). fold s4.
      rewrite (bind_val _ _ _ _ _ (sock_sendall_ok _ s4 Hsock H4)). fold s5.
      cbn [negb]. unfold bind at 1, ret at 1.
      rewrite (bind_val _ _ _ _ _ (rspRecvPacket_first _ _ _ Hconsume)).
      reflexivity. }
  cbn. rewrite Hconn. rewrite <- !app_assoc. reflexivity.
Qed.

Lemma sock_select_ready (s : State) :
  _socket s = Some SockOpen -> hd false (selects s) = true ->
  sock_select s = (emit (EvSelect true) (set_selects (tl (selects s)) s), Val true).
Proof.
  intros Hsock Hsel. unfold sock_select. rewrite Hsock.
  destruct s as [sk cn pd sel rcv snd tr]; cbn in *.
  destruct sel as [|r sel]; cbn in *; [discriminate|]. subst. reflexivity.
Qed.

(** The drain in front of a request, with a buffer of whole frames
    already waiting in the socket: the response found in it is printed
    as unexpected and the buffer is used up. *)
Lemma drain_wire (s : State) (fs : list (bytes * bytes))
      (junk : bytes) (rest : list recv_outcome) (p : bytes) :
  _socket s = Some SockOpen -> _pendingData s = junk -> clean junk ->
  hd false (selects s) = true ->
  recvs s = RecvBytes (wire fs) :: rest ->
  (N.of_nat (length (wire fs)) <= 30000)%N ->
  fs <> [] -> Forall takes_whole fs ->
  snd (route None (map fst fs)) = Some p ->
  _rspCheckUnexpectedData s =
    (mkState (Some SockOpen) (_connected s) (leftover junk fs) (tl (selects s))
             rest (sends s)
             (trace s ++
              [EvSelect true; EvRecv (wire fs)] ++
              fst (route None (map fst fs)) ++ [EvPrint (MsgUnexpected p)]),
     Val tt).
Proof.
  intros Hsock Hpd Hjunk Hsel Hrecv Hsize Hne Hfs Hroute.
  unfold _rspCheckUnexpectedData.
  rewrite (bind_val _ _ _ _ _ (sock_select_ready s Hsock Hsel)).
  set (s1 := emit (EvSelect true) (set_selects (tl (selects s)) s)).
  pose proof (consume_wire fs s1 junk rest Hne Hfs Hjunk Hsock Hpd Hrecv Hsize)
    as Hconsume.
  rewrite Hroute in Hconsume.
  rewrite (bind_val _ _ _ _ _ Hconsume).
  unfold print, modify, emit. cbn. now rewrite <- !app_assoc.
Qed.

(** ** Checksums *)

Lemma checksum_mod (data : bytes) : checksum data = (byte_sum data mod 256)%Z.
Proof. unfold checksum. change 255%Z with (Z.ones 8). now rewrite Z.land_ones. Qed.

Lemma checksum_range (data : bytes) : (0 <= checksum data < 256)%Z.
Proof. rewrite checksum_mod. now apply Z.mod_pos_bound. Qed.

Lemma hex2_table :
  forallb (fun n => hex2_ok (Z.of_nat n)) (seq 0 256) = true.
Proof. vm_compute. reflexivity. Qed.

Lemma hex2_ok_range (c : Z) : (0 <= c < 256)%Z -> hex2_ok c = true.
Proof.
  intros Hc. pose proof hex2_table as H. rewrite forallb_forall in H.
  specialize (H (Z.to_nat c)). rewrite Z2Nat.id in H by lia.
  apply H, in_seq. lia.
Qed.

Lemma bytes_eqb_eq (x y : bytes) : bytes_eqb x y = true -> x = y.
Proof. unfold bytes_eqb. now destruct (list_eq_dec _ x y). Qed.

Lemma is_none_eq {A} (o : option A) : is_none o = true -> o = None.
Proof. now destruct o. Qed.

Lemma fmt_checksum (data : bytes) :
  fmt_x 2 (checksum data) = two_digits (checksum data) /\
  clean (fmt_x 2 (checksum data)).
Proof.
  pose proof (hex2_ok_range _ (checksum_range data)) as H.
  unfold hex2_ok in H. apply andb_prop in H as [H H3]. apply andb_prop in H as [H1 H2].
  split; [now apply bytes_eqb_eq | split; now apply is_none_eq].
Qed.

Lemma fmt_checksum_length (data : bytes) : length (fmt_x 2 (checksum data)) = 2.
Proof. now rewrite (proj1 (fmt_checksum data)). Qed.

(** ** Payload classes *)

Lemma short_not_long (c : byte) (p : bytes) :
  length p < 3 -> long_with_head c p = false.
Proof.
  intros H. unfold long_with_head.
  destruct (Nat.leb_spec 3 (length p)); [lia | reflexivity].
Qed.

Lemma response_not_trap (p : bytes) : is_response p = true -> is_trap p = false.
Proof.
  unfold is_response, is_trap. now destruct (long_with_head ch_T p).
Qed.

Lemma response_not_log (p : bytes) : is_response p = true -> is_log p = false.
Proof.
  unfold is_response, is_log.
  destruct (long_with_head ch_T p), (long_with_head ch_O p); auto.
Qed.

Lemma trap_not_log (p : bytes) : is_trap p = true -> is_log p = false.
Proof.
  unfold is_trap, is_log, long_with_head.
  destruct (3 <=? length p); [|discriminate]. destruct p as [|x p]; [discriminate|].
  cbn. intros H. apply Byte.byte_dec_bl in H. subst. reflexivity.
Qed.

Lemma route_response (r : option bytes) (p : bytes) (pkts : list bytes) :
  is_response p = true ->
  route r (p :: pkts) =
    (match r with Some old => [EvPrint (MsgIgnored old)] | None => [] end
       ++ fst (route (Some p) pkts),
     snd (route (Some p) pkts)).
Proof.
  intros H. cbn [route].
  rewrite (response_not_trap p H), (response_not_log p H).
  now destruct (route (Some p) pkts).
Qed.

Lemma route_trap (r : option bytes) (p : bytes) (pkts : list bytes) :
  is_trap p = true ->
  route r (p :: pkts) =
    (EvPrint (MsgTrap p) :: EvStateUpdated (Some paused) :: fst (route r pkts),
     snd (route r pkts)).
Proof. intros H. cbn [route]. rewrite H. now destruct (route r pkts). Qed.

Lemma takes_whole_response (p cc : bytes) :
  find ch_hash p = None -> is_response p = true ->
  length cc = 2 -> clean cc -> takes_whole (p, cc).
Proof.
  intros Hp Hr Hlen Hcc. repeat split; try assumption; try apply Hcc.
  cbn. rewrite (response_not_log p Hr). discriminate.
Qed.

Lemma takes_whole_trap (p cc : bytes) :
  find ch_hash p = None -> is_trap p = true ->
  length cc = 2 -> clean cc -> takes_whole (p, cc).
Proof.
  intros Hp Hr Hlen Hcc. repeat split; try assumption; try apply Hcc.
  cbn. rewrite (trap_not_log p Hr). discriminate.
Qed.

(** ** The checksum digits of a received frame *)

Lemma wire_one (p cc : bytes) : wire [(p, cc)] = raw_frame p cc.
Proof. unfold wire. cbn [flat_map fst snd]. apply app_nil_r. Qed.




(** ** Encoding and decoding *)

Lemma no_reserved_find_hash (p : bytes) : no_reserved p -> find ch_hash p = None.
Proof.
  induction 1 as [|x p [_ [Hx _]] _ IH]; [reflexivity|]. simpl. rewrite IH.
  destruct (Byte.eqb x ch_hash) eqn:E; [|reflexivity].
  apply Byte.byte_dec_bl in E. contradiction.
Qed.

Lemma decode_raw_frame (p cc : bytes) :
  find ch_hash p = None -> is_response p = true ->
  length cc = 2 -> clean cc ->
  (N.of_nat (length (raw_frame p cc)) <= 30000)%N ->
  decode (raw_frame p cc) = Val (Some p).
Proof.
  intros Hp Hr Hlen Hcc Hsize. unfold decode.
  rewrite <- wire_one in Hsize |- *.
  assert (Hfs : Forall takes_whole [(p, cc)])
    by (constructor; [now apply takes_whole_response | constructor]).
  assert (Hjunk : clean []) by (split; reflexivity).
  assert (Hne : [(p, cc)] <> []) by discriminate.
  rewrite (bind_val _ _ _ _ _
             (consume_wire _ (connected_client [] [RecvBytes (wire [(p, cc)])])
                [] [] Hne Hfs Hjunk eq_refl eq_refl eq_refl Hsize)).
  cbn [map fst snd]. rewrite (route_response None p [] Hr). reflexivity.
Qed.

(** C2, amended: a payload without reserved bytes that the splitter does
    not take for a notification survives encoding and decoding, and a
    received payload of that kind is returned byte for byte: a [*] in it
    stays an ordinary byte and nothing is expanded. *)
Theorem roundtrip_without_reserved_bytes (P : bytes) :
  no_reserved P -> is_response P = true ->
  (N.of_nat (length (encode P)) <= 30000)%N ->
  decode (encode P) = Val (Some P) /\
  (forall cc, length cc = 2 -> clean cc -> decode (raw_frame P cc) = Val (Some P)).
Proof.
  intros Hres Hclass Hsize.
  pose proof (no_reserved_find_hash P Hres) as Hp.
  unfold encode, frame, _rspEscape in *.
  destruct (fmt_checksum P) as [_ Hclean].
  pose proof (fmt_checksum_length P) as Hlen.
  split.
  - now apply decode_raw_frame.
  - intros cc Hcc Hccclean. apply decode_raw_frame; try assumption.
    unfold raw_frame in *. rewrite !length_app in *. cbn [length] in *.
    rewrite Hlen in Hsize. rewrite Hcc. exact Hsize.
Qed.

Lemma roundtrip_without_reserved_bytes_witness :
  decode (encode (lit "m1000,4")) = Val (Some (lit "m1000,4")) /\
  (forall cc, length cc = 2 -> clean cc ->
              decode (raw_frame (lit "m1000,4") cc) = Val (Some (lit "m1000,4"))).
Proof.
  apply (roundtrip_without_reserved_bytes (lit "m1000,4")).
  - unfold no_reserved. repeat constructor; discriminate.
  - reflexivity.
  - vm_compute. discriminate.
Defined.

(** C2 as stated fails.  Encoding inserts no escape: the frame of [a#b]
    carries the [#] as it is, and decoding it yields [a].  Decoding
    expands no run: the frame [$0* #7a], which stands for [0000] in the
    protocol, is returned as the three bytes [0* ]. *)
Lemma escape_and_rle_not_done :
  encode (lit "a#b") = lit "$a#b#e6" /\
  decode (encode (lit "a#b")) = Val (Some (lit "a")) /\
  decode (lit "$0* #7a") = Val (Some (lit "0* ")).
Proof. repeat split; reflexivity. Qed.

(** ** Several responses in one buffer *)

Lemma last_map_some (l : list bytes) (r : option bytes) :
  l <> [] -> last (map Some l) r = Some (last l []).
Proof.
  induction l as [|x [|y l] IH]; intros H; [contradiction | reflexivity |].
  change (last (map Some (x :: y :: l)) r) with (last (map Some (y :: l)) r).
  change (last (x :: y :: l) []) with (last (y :: l) []).
  apply IH. discriminate.
Qed.

(** The value of [ret] after the loop is the last response, the packets
    printed as ignored are all the earlier ones. *)
Lemma route_spec (pkts : list bytes) :
  forall r,
    snd (route r pkts) = last (map Some (responses pkts)) r /\
    ignored (fst (route r pkts)) = removelast (opt_list r ++ responses pkts).
Proof.
  induction pkts as [|p pkts IH]; intros r.
  - cbn. rewrite app_nil_r. now destruct r.
  - assert (Hr : is_response p = negb (is_trap p) && negb (is_log p))
      by reflexivity.
    unfold responses. cbn [route filter]. fold (responses pkts). rewrite Hr.
    destruct (is_trap p) eqn:Ht.
    + cbn [negb andb]. destruct (IH r) as [H1 H2].
      destruct (route r pkts) as [evs r']. cbn [fst snd] in *.
      split; [exact H1 | exact H2].
    + destruct (is_log p) eqn:Hl.
      * cbn [negb andb]. destruct (IH r) as [H1 H2].
        destruct (route r pkts) as [evs r']. cbn [fst snd] in *.
        split; [exact H1|]. rewrite ignored_app, H2.
        now destruct (unhexlify (tl p)).
      * cbn [negb andb]. destruct (IH (Some p)) as [H1 H2].
        destruct (route (Some p) pkts) as [evs r']. cbn [fst snd] in *.
        split.
        -- rewrite H1. cbn [map].
           destruct (responses pkts); [reflexivity|].
           now rewrite last_cons_default.
        -- rewrite ignored_app, H2. cbn [opt_list].
           destruct r as [old|]; cbn; [|reflexivity].
           now destruct (responses pkts).
Qed.




(** ** A stop notification in front of the response *)

Lemma is_trap_intro (p : bytes) :
  3 <= length p -> hd_error p = Some ch_T -> is_trap p = true.
Proof.
  intros Hlen Hhd. unfold is_trap, long_with_head.
  destruct p as [|x p]; [discriminate|]. cbn in Hhd. inversion Hhd; subst.
  apply Nat.leb_le in Hlen. rewrite Hlen. reflexivity.
Qed.

Lemma wire_two (p cc q cc' : bytes) :
  wire [(p, cc); (q, cc')] = raw_frame p cc ++ raw_frame q cc'.
Proof. unfold wire. cbn [flat_map fst snd]. now rewrite app_nil_r. Qed.

Lemma takes_whole_frame_response (p : bytes) :
  find ch_hash p = None -> is_response p = true ->
  takes_whole (p, fmt_x 2 (checksum p)).
Proof.
  intros Hp Hr. apply takes_whole_response; try assumption.
  - apply fmt_checksum_length.
  - apply fmt_checksum.
Qed.

Lemma takes_whole_frame_trap (p : bytes) :
  find ch_hash p = None -> is_trap p = true ->
  takes_whole (p, fmt_x 2 (checksum p)).
Proof.
  intros Hp Hr. apply takes_whole_trap; try assumption.
  - apply fmt_checksum_length.
  - apply fmt_checksum.
Qed.




(** ** Reading memory *)

(** C9: [read(0x1000, 4)] writes the frame of [m1000,4], and with the
    frame of [deadbeef] as the answer it returns the bytes DE AD BE EF in
    the order of the hexadecimal text. *)
Theorem read_memory_scenario (junk : bytes) (rest : list recv_outcome) (s : State) :
  _connected s = true -> _socket s = Some SockOpen ->
  _pendingData s = junk -> clean junk ->
  hd false (selects s) = false -> sends_succeed s ->
  recvs s = RecvBytes (lit "$deadbeef#20") :: rest ->
  snd (read 0x1000 4 s) = Val [xde; xad; xbe; xef] /\
  sent (trace (fst (read 0x1000 4 s))) = sent (trace s) ++ lit "$m1000,4#8e" /\
  lit "$deadbeef#20" = frame (lit "deadbeef") /\
  lit "$m1000,4#8e" = frame (lit "m1000,4").
Proof.
  intros Hconn Hsock Hpd Hjunk Hsel Hsends Hrecv.
  set (fs := [(lit "deadbeef", lit "20")]).
  assert (Hfs : Forall takes_whole fs).
  { constructor; [|constructor]. repeat split; try reflexivity. discriminate. }
  assert (Hcall : rspCall (lit "m1000,4") false true s = _)
    by (apply (rspCall_wire (lit "m1000,4") s fs junk rest (lit "deadbeef"));
        try assumption; try reflexivity; try discriminate;
        vm_compute; discriminate).
  unfold read.
  change (lit "m" ++ fmt_x 0 4096 ++ lit "," ++ fmt_x 0 4) with (lit "m1000,4").
  rewrite (bind_val _ _ _ _ _ Hcall).
  repeat split. cbn [fst unhexlify_value]. 
  change (unhexlify (lit "deadbeef")) with (Some [xde; xad; xbe; xef]).
  cbn [ret fst trace]. rewrite sent_app. reflexivity.
Qed.

Lemma read_memory_scenario_witness :
  let s := connected_client [] [RecvBytes (lit "$deadbeef#20")] in
  snd (read 0x1000 4 s) = Val [xde; xad; xbe; xef] /\
  sent (trace (fst (read 0x1000 4 s))) = lit "$m1000,4#8e".
Proof.
  intros s.
  refine (let H := read_memory_scenario [] [] s _ _ _ _ _ _ _ in
          conj (proj1 H) (proj1 (proj2 H))).
  - reflexivity.
  - reflexivity.
  - reflexivity.
  - split; reflexivity.
  - reflexivity.
  - constructor.
  - reflexivity.
Defined.

(** ** Short packets *)

Lemma short_is_response (p : bytes) : length p < 3 -> is_response p = true.
Proof.
  intros H. unfold is_response. now rewrite !short_not_long.
Qed.

Lemma route_all_responses (pkts : list bytes) :
  forall r,
    Forall (fun p => is_response p = true) pkts ->
    route r pkts =
      (print_ignored (removelast (opt_list r ++ pkts)), last (map Some pkts) r).
Proof.
  induction pkts as [|p pkts IH]; intros r Hall.
  - cbn. rewrite app_nil_r. now destruct r.
  - inversion Hall as [|? ? Hp Hrest]; subst.
    rewrite (route_response r p pkts Hp), (IH (Some p) Hrest).
    cbn [fst snd opt_list app map]. rewrite last_cons_default.
    destruct r as [old|]; reflexivity.
Qed.

(** C10: a packet of fewer than three payload bytes is a response whatever
    its first byte is.  It reaches neither the observer nor the log
    output; it is the value returned by the pass when no response follows
    it in the buffer, and it is printed as ignored when one does. *)
Theorem short_packet_is_response
        (p cc junk : bytes) (tail : list (bytes * bytes))
        (rest : list recv_outcome) (s : State) :
  length p < 3 -> find ch_hash p = None -> length cc = 2 -> clean cc ->
  Forall takes_whole tail ->
  Forall (fun f => is_response (fst f) = true) tail ->
  _socket s = Some SockOpen -> _pendingData s = junk -> clean junk ->
  recvs s = RecvBytes (wire ((p, cc) :: tail)) :: rest ->
  (N.of_nat (length (wire ((p, cc) :: tail))) <= 30000)%N ->
  snd (_rspConsumePackets s) = Val (Some (last (map fst tail) p)) /\
  trace (fst (_rspConsumePackets s)) =
    trace s ++ EvRecv (wire ((p, cc) :: tail))
            :: print_ignored (removelast (p :: map fst tail)).
Proof.
  intros Hshort Hp Hlen Hcc Htail Hresp Hsock Hpd Hjunk Hrecv Hsize.
  pose proof (short_is_response p Hshort) as Hclass.
  assert (Hfs : Forall takes_whole ((p, cc) :: tail))
    by (constructor; [now apply takes_whole_response | assumption]).
  assert (Hne : (p, cc) :: tail <> []) by discriminate.
  rewrite (consume_wire _ s junk rest Hne Hfs Hjunk Hsock Hpd Hrecv Hsize).
  assert (Hall : Forall (fun q => is_response q = true) (map fst ((p, cc) :: tail))).
  { constructor; [exact Hclass|]. now apply Forall_map. }
  rewrite (route_all_responses _ None Hall).
  change (map fst ((p, cc) :: tail)) with (p :: map fst tail).
  rewrite (last_map_some (p :: map fst tail) None) by discriminate.
  rewrite last_cons_default.
  split; reflexivity.
Qed.

Lemma short_packet_is_response_witness :
  let s := connected_client [] [RecvBytes (lit "$T1#85$OK#9a")] in
  snd (_rspConsumePackets s) = Val (Some (lit "OK")) /\
  trace (fst (_rspConsumePackets s)) =
    [EvRecv (lit "$T1#85$OK#9a"); EvPrint (MsgIgnored (lit "T1"))].
Proof.
  intros s.
  apply (short_packet_is_response (lit "T1") (lit "85") [] [(lit "OK", lit "9a")] [] s).
  - cbn. lia.
  - reflexivity.
  - reflexivity.
  - split; reflexivity.
  - repeat constructor; discriminate.
  - repeat constructor.
  - reflexivity.
  - reflexivity.
  - split; reflexivity.
  - reflexivity.
  - vm_compute. discriminate.
Defined.

(** ** The bytes a call writes *)

Lemma rspCall_unfold (data : bytes) (ack resp : bool) (s : State) :
  rspCall data ack resp s =
    if _connected s
    then try_except (call_body (_rspEscape data) ack resp) call_handler s
    else (s, Exc NotConnected).
Proof.
  unfold rspCall, bind at 1, gets at 1. now destruct (_connected s).
Qed.

Lemma writes_quiet {A} (m : M A) :
  (forall s, quiet s (fst (m s))) -> writes m [].
Proof.
  intros H s. exists 0. cbn. rewrite app_nil_r. split; [apply H | reflexivity].
Qed.

Lemma writes_sendall (d : bytes) : writes (sock_sendall d) d.
Proof.
  intros s. unfold sock_sendall.
  destruct (_socket s) as [[|]|].
  - destruct (sends s) as [|[|] rest].
    + exists (length d). rewrite firstn_all. split; [|reflexivity]. solve_quiet.
    + exists (length d). rewrite firstn_all. split; [|reflexivity]. solve_quiet.
    + exists 0. split; [solve_quiet | discriminate].
  - exists 0. split; [solve_quiet | discriminate].
  - exists 0. split; [solve_quiet | discriminate].
Qed.

Lemma writes_bind {A B} (m : M A) (k : A -> M B) (w1 w2 : bytes) :
  writes m w1 -> (forall a, writes (k a) w2) -> writes (bind m k) (w1 ++ w2).
Proof.
  intros Hm Hk s. unfold bind.
  destruct (Hm s) as [k1 [Hs1 Hv1]].
  destruct (m s) as [s1 [a| e |]]; cbn [fst snd] in *.
  - destruct (Hk a s1) as [k2 [Hs2 Hv2]].
    exists (length w1 + k2). rewrite firstn_app_2. split.
    + rewrite Hs2, Hs1, (Hv1 a eq_refl). now rewrite app_assoc.
    + intros b Hb. now rewrite (Hv2 b Hb).
  - exists (Nat.min k1 (length w1)). split; [|discriminate].
    rewrite Hs1. f_equal. rewrite firstn_app.
    replace (Nat.min k1 (length w1) - length w1) with 0 by lia.
    cbn. rewrite app_nil_r. rewrite <- firstn_firstn, firstn_all. reflexivity.
  - exists (Nat.min k1 (length w1)). split; [|discriminate].
    rewrite Hs1. f_equal. rewrite firstn_app.
    replace (Nat.min k1 (length w1) - length w1) with 0 by lia.
    cbn. rewrite app_nil_r. rewrite <- firstn_firstn, firstn_all. reflexivity.
Qed.

Lemma writes_call_body (data : bytes) (ack resp : bool) :
  writes (call_body data ack resp) (raw_frame data (fmt_x 2 (checksum data))).
Proof.
  assert (H : writes (call_body data ack resp)
                ([] ++ [ch_dollar] ++ data ++ [ch_hash] ++
                 fmt_x 2 (checksum data) ++ [])).
  { unfold call_body.
    apply writes_bind; [apply writes_quiet, quiet_check|]. intros _.
    apply writes_bind; [apply writes_sendall|]. intros _.
    apply writes_bind; [apply writes_sendall|]. intros _.
    apply writes_bind; [apply writes_sendall|]. intros _.
    apply writes_bind; [apply writes_sendall|]. intros _.
    apply writes_quiet, quiet_call_tail. }
  now rewrite app_nil_r in H.
Qed.

Lemma quiet_handler (e : exn) (s : State) : quiet s (fst (call_handler e s)).
Proof.
  unfold call_handler, print, disconnect, bind, modify, sock_close,
    ui_onStateUpdated, ret.
  cbn. destruct (_socket s); solve_quiet.
Qed.

Lemma handler_value (e : exn) (s : State) (v : value) :
  snd (call_handler e s) = Val v -> v = VNone.
Proof.
  unfold call_handler, print, disconnect, bind, modify, sock_close,
    ui_onStateUpdated, ret.
  cbn. destruct (_socket s); cbn; congruence.
Qed.

(** What [rspCall] writes: a part of the frame from its start, and all
    of it when the call returns something other than [None]. *)
Lemma rspCall_writes (data : bytes) (ack resp : bool) (s : State) :
  _connected s = true ->
  exists k,
    sent (trace (fst (rspCall data ack resp s))) =
      sent (trace s) ++ firstn k (frame data) /\
    (forall v, snd (rspCall data ack resp s) = Val v -> v <> VNone ->
               firstn k (frame data) = frame data).
Proof.
  intros Hconn. rewrite rspCall_unfold, Hconn. unfold try_except.
  destruct (writes_call_body (_rspEscape data) ack resp s) as [k [Hs Hv]].
  exists k. fold (frame data) in Hs, Hv.
  destruct (call_body (_rspEscape data) ack resp s) as [s1 [v| e |]];
    cbn [fst snd] in *.
  - split; [exact Hs | intros v' Hv' _; now apply (Hv v)].
  - split.
    + rewrite <- Hs. apply quiet_handler.
    + intros v Hval Hne. now apply handler_value in Hval.
  - split; [exact Hs | discriminate].
Qed.



(** ** [tame]: the socket object stays, the oracle shrinks *)

Ltac solve_tame :=
  unfold tame; cbn;
  try match goal with H : recvs _ = _ |- _ => rewrite H; cbn end;
  rewrite ?length_skipn; split; [congruence || tauto | lia].

Lemma tame_basis : basis tame true.
Proof.
  split; try (intros; solve_tame).
  - unfold tame. intros a b c [H1 H2] [H3 H4]. split; [tauto | lia].
  - intros s _. unfold sock_select.
    destruct (_socket s) as [[|]|] eqn:Hs; try solve_tame.
    destruct (selects s); solve_tame.
  - intros n s _. unfold sock_recv.
    destruct (_socket s) as [[|]|] eqn:Hs; try solve_tame.
    destruct (recvs s) as [|[data|e] rest] eqn:Hr; try solve_tame.
    destruct (N.leb _ _); solve_tame.
Qed.

Lemma tame_disconnect : keeps tame true disconnect.
Proof.
  intros s _. unfold disconnect, bind, modify, sock_close, ui_onStateUpdated, ret.
  cbn. destruct (_socket s) eqn:Hs; solve_tame.
Qed.

Lemma tame_recv_frames (f : nat) : keeps tame true (recv_frames f).
Proof. apply keeps_recv_frames_by; [apply tame_basis | apply tame_disconnect]. Qed.

Lemma tame_sendall (d : bytes) : keeps tame true (sock_sendall d).
Proof.
  intros s _. unfold sock_sendall.
  destruct (_socket s) as [[|]|] eqn:Hs; try solve_tame.
  destruct (sends s) as [|[|] rest]; solve_tame.
Qed.

Lemma tame_split_packets (f : nat) (r : option bytes) (s : State) :
  tame s (fst (split_packets f r s)).
Proof.
  apply (keeps_split_packets _ _ tame_basis), covered_all.
Qed.

Lemma tame_call_body (data : bytes) (ack resp : bool) (s : State) :
  tame s (fst (call_body data ack resp s)).
Proof.
  apply (keeps_call_body _ _ tame_basis tame_recv_frames data ack resp tame_sendall),
    covered_all.
Qed.

(** ** Every loop comes to an end *)

Lemma sock_recv_advances (n : N) (s : State) :
  (0 < n)%N -> advances (sock_recv n) s.
Proof.
  intros Hn. unfold advances, advanced, sock_recv.
  destruct (_socket s) as [[|]|]; cbn; trivial.
  destruct (recvs s) as [|[data|e] rest]; cbn; trivial.
  destruct (N.leb_spec (N.of_nat (length data)) n); cbn; [lia|].
  rewrite length_skipn. lia.
Qed.

Lemma sock_recv_socket (n : N) (s s' : State) (d : bytes) :
  sock_recv n s = (s', Val d) -> _socket s' = Some SockOpen.
Proof.
  unfold sock_recv.
  destruct (_socket s) as [[|]|] eqn:Hs; try discriminate.
  destruct (recvs s) as [|[data|e] rest]; try discriminate.
  destruct (N.leb _ _); intros H; inversion H; subst; exact Hs.
Qed.

Lemma recv_frames_advances (f : nat) :
  forall s, recv_budget (recvs s) < f -> advances (recv_frames f) s.
Proof.
  induction f as [|f IH]; intros s Hf; [lia|].
  unfold advances. cbn [recv_frames]. unfold bind at 1.
  pose proof (sock_recv_advances 30000 s eq_refl) as Hadv.
  pose proof (sock_recv_socket 30000 s) as Hsock.
  unfold advances, advanced in Hadv.
  destruct (sock_recv 30000 s) as [s1 [d| e |]]; cbn [fst snd] in Hadv;
    [|exact I|contradiction].
  specialize (Hsock s1 d eq_refl).
  destruct d as [|x d].
  - unfold advanced, print, disconnect, bind, modify, sock_close,
      ui_onStateUpdated, ret.
    cbn. rewrite Hsock. cbn. exact Hadv.
  - unfold bind at 1, gets at 1. unfold bind at 1, modify at 1.
    destruct (index_neg3 _) as [c|]; [|exact I].
    destruct (Byte.eqb c ch_hash); [exact Hadv|].
    specialize (IH (set_pendingData (_pendingData s1 ++ x :: d) s1)).
    unfold advances, advanced in IH |- *. cbn [recvs set_pendingData] in IH.
    assert (Hlt : recv_budget (recvs s1) < f) by lia.
    specialize (IH Hlt).
    destruct (recv_frames f _) as [s2 [b| e |]]; cbn [fst snd] in *;
      [lia | trivial | contradiction].
Qed.

Lemma find_lt (c : byte) (l : bytes) (pos : nat) :
  find c l = Some pos -> pos < length l.
Proof.
  revert pos. induction l as [|x l IH]; intros pos; simpl; [discriminate|].
  destruct (Byte.eqb x c).
  - intros H. inversion H. lia.
  - destruct (find c l) as [q|]; [|discriminate].
    intros H. inversion H. specialize (IH q eq_refl). lia.
Qed.

Lemma split_packets_halts (f : nat) :
  forall r s, length (_pendingData s) < f -> snd (split_packets f r s) <> OutOfFuel.
Proof.
  induction f as [|f IH]; intros r s Hf; [lia|].
  cbn [split_packets]. unfold bind at 1, gets at 1.
  destruct (find ch_hash (_pendingData s)) as [pos|] eqn:Hpos; [|discriminate].
  apply find_lt in Hpos.
  unfold bind at 1, modify at 1.
  assert (Hlen : length (skipn (S pos) (_pendingData s)) < f)
    by (rewrite length_skipn; lia).
  destruct (find ch_dollar _) as [pos2|].
  - destruct (long_with_head ch_T _).
    + unfold bind, print, ui_onStateUpdated, modify. cbn. apply IH. exact Hlen.
    + destruct (long_with_head ch_O _).
      * destruct (unhexlify _); [|discriminate].
        unfold bind, print, modify. cbn. apply IH. exact Hlen.
      * destruct r; unfold bind, print, modify, ret; cbn; apply IH; exact Hlen.
  - unfold bind, print, modify. cbn. apply IH. exact Hlen.
Qed.

Lemma consume_advances (s : State) : advances _rspConsumePackets s.
Proof.
  unfold advances, _rspConsumePackets. unfold bind at 1, gets at 1.
  unfold bind at 1.
  pose proof (recv_frames_advances (S (recv_budget (recvs s))) s
                (Nat.lt_succ_diag_r _)) as Hadv.
  unfold advances, advanced in Hadv.
  destruct (recv_frames _ s) as [s1 [[|]| e |]]; cbn [fst snd] in Hadv;
    try exact Hadv; try exact I.
  unfold bind at 1, gets at 1.
  pose proof (split_packets_halts (S (length (_pendingData s1))) None s1
                (Nat.lt_succ_diag_r _)) as Hhalt.
  pose proof (tame_split_packets (S (length (_pendingData s1))) None s1) as [_ Hle].
  unfold advanced.
  destruct (split_packets _ None s1) as [s2 [r| e |]]; cbn [fst snd] in *;
    [lia | exact I | contradiction].
Qed.

Lemma recv_packet_halts (f : nat) :
  forall s, recv_budget (recvs s) < f -> snd (recv_packet f s) <> OutOfFuel.
Proof.
  induction f as [|f IH]; intros s Hf; [lia|].
  cbn [recv_packet]. unfold bind.
  pose proof (consume_advances s) as Hadv. unfold advances, advanced in Hadv.
  destruct (_rspConsumePackets s) as [s1 [[pkt|]| e |]]; cbn [fst snd] in *;
    try discriminate; try contradiction.
  apply IH. lia.
Qed.

Lemma halts_ret {A} (a : A) : halts (ret a).
Proof. intros s. discriminate. Qed.

Lemma halts_bind {A B} (m : M A) (k : A -> M B) :
  halts m -> (forall a, halts (k a)) -> halts (bind m k).
Proof.
  intros Hm Hk s. unfold bind. specialize (Hm s).
  destruct (m s) as [s1 [a| e |]]; cbn in *; [apply Hk | discriminate | now elim Hm].
Qed.

Lemma halts_print (m : message) : halts (print m).
Proof. intros s. discriminate. Qed.

Lemma halts_recv (n : N) : halts (sock_recv n).
Proof.
  intros s. unfold sock_recv.
  destruct (_socket s) as [[|]|]; try discriminate.
  destruct (recvs s) as [|[data|e] rest]; try discriminate.
  destruct (N.leb _ _); discriminate.
Qed.

Lemma halts_sendall (d : bytes) : halts (sock_sendall d).
Proof.
  intros s. unfold sock_sendall.
  destruct (_socket s) as [[|]|]; try discriminate.
  destruct (sends s) as [|[|] rest]; discriminate.
Qed.

Lemma halts_consume : halts _rspConsumePackets.
Proof.
  intros s. pose proof (consume_advances s) as H. unfold advances, advanced in H.
  destruct (snd (_rspConsumePackets s)); [discriminate | discriminate | contradiction].
Qed.

Lemma halts_check : halts _rspCheckUnexpectedData.
Proof.
  unfold _rspCheckUnexpectedData. apply halts_bind.
  - intros s. unfold sock_select.
    destruct (_socket s) as [[|]|]; try discriminate.
    destruct (selects s); discriminate.
  - intros [|]; [|apply halts_ret].
    apply halts_bind; [apply halts_consume|].
    intros [pkt|]; [apply halts_print | apply halts_ret].
Qed.

Lemma halts_rspRecvPacket : halts _rspRecvPacket.
Proof.
  intros s. unfold _rspRecvPacket, bind at 1, gets at 1.
  apply recv_packet_halts. lia.
Qed.

Lemma halts_getAck : halts _rspGetAck.
Proof.
  unfold _rspGetAck. apply halts_bind; [apply halts_recv|]. intros data.
  destruct (bytes_eqb _ _); [apply halts_ret|].
  apply halts_bind; [apply halts_print | intros ?; apply halts_ret].
Qed.

Lemma halts_call_tail (ack resp : bool) : halts (call_tail ack resp).
Proof.
  unfold call_tail. apply halts_bind.
  - destruct ack; [|apply halts_ret].
    apply halts_bind; [apply halts_getAck | intros ?; apply halts_ret].
  - intros _. destruct (negb resp); [apply halts_ret|].
    apply halts_bind; [apply halts_rspRecvPacket | intros ?; apply halts_ret].
Qed.

Lemma halts_call_body (data : bytes) (ack resp : bool) :
  halts (call_body data ack resp).
Proof.
  unfold call_body.
  apply halts_bind; [apply halts_check|]. intros _.
  apply halts_bind; [apply halts_sendall|]. intros _.
  apply halts_bind; [apply halts_sendall|]. intros _.
  apply halts_bind; [apply halts_sendall|]. intros _.
  apply halts_bind; [apply halts_sendall|]. intros _.
  apply halts_call_tail.
Qed.

(** ** [calm]: without an end of stream the session stays as it is *)

Ltac fields :=
  cbn [fst snd _socket _connected _pendingData selects recvs sends trace emit
       set_socket set_connected set_pendingData set_selects set_recvs set_sends].

Lemma null_updates_snoc (t : list event) (e : event) :
  null_updates (t ++ [e]) =
  null_updates t + match e with EvStateUpdated None => 1 | _ => 0 end.
Proof.
  rewrite null_updates_app. f_equal. destruct e as [| | | | | |[st|]|]; reflexivity.
Qed.

Lemma io_failures_snoc (t : list event) (e : event) :
  io_failures (t ++ [e]) = io_failures t + if is_io_failure e then 1 else 0.
Proof. rewrite io_failures_app. f_equal. now destruct e. Qed.

Ltac calm_intro :=
  unfold calm; fields; intros Hno;
  try match goal with H : recvs _ = _ |- _ => rewrite H in Hno; rewrite ?H end;
  repeat split;
  rewrite ?null_updates_snoc; cbn [Nat.add]; rewrite ?Nat.add_0_r;
  try assumption; try reflexivity.

Ltac solve_calm := solve [calm_intro].

Lemma no_eof_tail (o : recv_outcome) (rest : list recv_outcome) :
  no_eof (o :: rest) -> no_eof rest.
Proof. intros H. now inversion H. Qed.

Lemma no_eof_split (n : N) (data : bytes) (rest : list recv_outcome) :
  (n < N.of_nat (length data))%N -> no_eof rest ->
  no_eof (RecvBytes (skipn (N.to_nat n) data) :: rest).
Proof.
  intros Hn Hrest. constructor; [|exact Hrest].
  intros H. inversion H as [Hskip].
  apply (f_equal (@length byte)) in Hskip. rewrite length_skipn in Hskip.
  cbn in Hskip. lia.
Qed.

Lemma calm_basis : basis calm true.
Proof.
  split; try (intros; solve_calm).
  - intros a b c Hab Hbc Hno.
    destruct (Hab Hno) as [H1 [H2 [H3 H4]]].
    destruct (Hbc H1) as [H5 [H6 [H7 H8]]].
    repeat split; congruence.
  - intros s _. unfold sock_select.
    destruct (_socket s) as [[|]|] eqn:Hs; try solve_calm.
    destruct (selects s); solve_calm.
  - intros n s _. unfold sock_recv.
    destruct (_socket s) as [[|]|] eqn:Hs; try solve_calm.
    destruct (recvs s) as [|[data|e] rest] eqn:Hr; try solve_calm.
    + destruct (N.leb_spec (N.of_nat (length data)) n); calm_intro.
      * now apply no_eof_tail in Hno.
      * apply no_eof_split; [assumption | now apply no_eof_tail in Hno].
    + calm_intro. now apply no_eof_tail in Hno.
Qed.

Lemma calm_sendall (d : bytes) : keeps calm true (sock_sendall d).
Proof.
  intros s _. unfold sock_sendall.
  destruct (_socket s) as [[|]|] eqn:Hs; try solve_calm.
  destruct (sends s) as [|[|] rest]; solve_calm.
Qed.

(** A [recv] that returns no byte has read the end of the stream. *)
Lemma sock_recv_eof (n : N) (s s' : State) :
  (0 < n)%N -> sock_recv n s = (s', Val []) -> ~ no_eof (recvs s).
Proof.
  intros Hn. unfold sock_recv.
  destruct (_socket s) as [[|]|]; try discriminate.
  destruct (recvs s) as [|[data|e] rest]; try discriminate.
  destruct (N.leb_spec (N.of_nat (length data)) n) as [Hle|Hgt];
    intros Heq Hno; inversion Heq as [[Hstate Hdata]].
  - subst data. inversion Hno as [|? ? Hd _]. now apply Hd.
  - destruct data as [|x data]; [cbn in Hgt; lia|].
    assert (Hk : N.to_nat n = S (pred (N.to_nat n))) by lia.
    rewrite Hk in Hdata. discriminate.
Qed.

Lemma calm_recv_frames (f : nat) : keeps calm true (recv_frames f).
Proof.
  pose proof calm_basis as B.
  induction f as [|f IH]; cbn [recv_frames].
  - now apply keeps_out_of_fuel.
  - intros s _. unfold bind at 1.
    pose proof (basis_recv _ _ B 30000 s (covered_all _)) as Hrecv.
    pose proof (sock_recv_eof 30000 s) as Heof.
    destruct (sock_recv 30000 s) as [s1 [d| e |]]; cbn [fst snd] in *;
      try exact Hrecv.
    destruct d as [|x d].
    + intros Hno. now elim (Heof s1 eq_refl eq_refl).
    + apply (basis_trans _ _ B) with s1; [exact Hrecv|].
      match goal with
      | |- calm s1 (fst (?m s1)) => assert (Hrest : keeps calm true m)
      end.
      { apply keeps_bind; [assumption | now apply keeps_gets |]. intros pending.
        apply keeps_bind; [assumption | now apply keeps_set_pending |]. intros _.
        destruct (index_neg3 _) as [c|]; [|now apply keeps_raise].
        destruct (Byte.eqb c ch_hash); [now apply keeps_ret | apply IH]. }
      apply Hrest, covered_all.
Qed.

Lemma calm_call_body (data : bytes) (ack resp : bool) (s : State) :
  calm s (fst (call_body data ack resp s)).
Proof.
  apply (keeps_call_body _ _ calm_basis calm_recv_frames data ack resp calm_sendall),
    covered_all.
Qed.

(** ** [unfailed]: a run that ends with a value saw no socket error *)

Ltac solve_unfailed :=
  unfold unfailed; fields; rewrite ?io_failures_snoc; cbn [is_io_failure];
  rewrite ?Nat.add_0_r; reflexivity.

Lemma unfailed_basis : basis unfailed false.
Proof.
  split; try (intros; solve_unfailed).
  - unfold unfailed. congruence.
  - intros s. unfold sock_select.
    destruct (_socket s) as [[|]|]; try (intros H; discriminate H).
    destruct (selects s); intros _; solve_unfailed.
  - intros n s. unfold sock_recv.
    destruct (_socket s) as [[|]|]; try (intros H; discriminate H).
    destruct (recvs s) as [|[data|e] rest]; try (intros H; discriminate H).
    destruct (N.leb _ _); intros _; solve_unfailed.
Qed.

Lemma unfailed_disconnect : keeps unfailed false disconnect.
Proof.
  intros s. unfold disconnect, bind, modify, sock_close, ui_onStateUpdated, ret.
  cbn. destruct (_socket s); [intros _; solve_unfailed | intros H; discriminate H].
Qed.

Lemma unfailed_sendall (d : bytes) : keeps unfailed false (sock_sendall d).
Proof.
  intros s. unfold sock_sendall.
  destruct (_socket s) as [[|]|]; try (intros H; discriminate H).
  destruct (sends s) as [|[|] rest]; try (intros H; discriminate H);
    intros _; solve_unfailed.
Qed.

Lemma unfailed_call_body (data : bytes) (ack resp : bool) (s s' : State) (v : value) :
  call_body data ack resp s = (s', Val v) -> unfailed s s'.
Proof.
  intros H.
  pose proof (keeps_call_body _ _ unfailed_basis
                (fun f => keeps_recv_frames_by _ _ unfailed_basis f unfailed_disconnect)
                data ack resp unfailed_sendall s) as K.
  rewrite H in K. now apply K.
Qed.

(** ** A call that fails *)

Lemma bind_val_inv {A B} (m : M A) (k : A -> M B) (s s' : State) (b : B) :
  bind m k s = (s', Val b) ->
  exists s1 a, m s = (s1, Val a) /\ k a s1 = (s', Val b).
Proof.
  unfold bind. destruct (m s) as [s1 [a| e |]]; try discriminate. eauto.
Qed.

(** The body of the [try] never returns [None]. *)
Lemma call_body_value (data : bytes) (ack resp : bool) (s s' : State) (v : value) :
  call_body data ack resp s = (s', Val v) -> v <> VNone.
Proof.
  unfold call_body, call_tail. intros H.
  do 6 (apply bind_val_inv in H as [? [? [_ H]]]).
  destruct (negb resp).
  - inversion H. discriminate.
  - apply bind_val_inv in H as [? [? [_ H]]]. inversion H. discriminate.
Qed.

Lemma handler_run (e : exn) (s : State) :
  _socket s <> None ->
  call_handler e s =
    (emit (EvStateUpdated None)
       (emit EvClose
          (set_socket (Some SockClosed)
             (set_connected false (emit (EvPrint (MsgSocketError e)) s)))),
     Val VNone).
Proof.
  intros Hs. unfold call_handler, print, disconnect, bind, modify, sock_close,
    ui_onStateUpdated, ret.
  cbn. destruct (_socket s); [reflexivity | contradiction].
Qed.




(** ** [poll] comes to an end, writes nothing, and may wait *)

Lemma halts_disconnect : halts disconnect.
Proof.
  intros s. unfold disconnect, bind, modify, sock_close, ui_onStateUpdated, ret.
  cbn. destruct (_socket s); discriminate.
Qed.

Lemma halts_poll : halts poll.
Proof.
  unfold poll. apply halts_bind; [intros s; discriminate|]. intros connected.
  destruct (negb connected); [apply halts_ret|].
  apply halts_bind; [|intros _; apply halts_ret].
  intros s. unfold try_except.
  pose proof (halts_check s) as Hc.
  destruct (_rspCheckUnexpectedData s) as [s1 [[]| e |]]; cbn [snd] in *;
    [discriminate | | now elim Hc].
  apply halts_bind; [apply halts_print|]. intros _.
  apply halts_bind; [apply halts_disconnect | intros _; apply halts_ret].
Qed.

(** *** [reads_on]: a ready socket is read *)

Ltac solve_reads :=
  unfold reads_on, recv_calls; fields; rewrite ?filter_app, ?length_app; cbn; lia.

Lemma reads_basis : basis reads_on true.
Proof.
  split; try (intros; solve_reads).
  - unfold reads_on. intros a b c H1 H2. lia.
  - intros s _. unfold sock_select.
    destruct (_socket s) as [[|]|]; try solve_reads.
    destruct (selects s); solve_reads.
  - intros n s _. unfold sock_recv.
    destruct (_socket s) as [[|]|]; try solve_reads.
    destruct (recvs s) as [|[data|e] rest]; try solve_reads.
    destruct (N.leb _ _); solve_reads.
Qed.

Lemma reads_disconnect : keeps reads_on true disconnect.
Proof.
  intros s _. unfold disconnect, bind, modify, sock_close, ui_onStateUpdated, ret.
  cbn. destruct (_socket s); solve_reads.
Qed.

Lemma reads_recv_frames (f : nat) : keeps reads_on true (recv_frames f).
Proof. apply keeps_recv_frames_by; [apply reads_basis | apply reads_disconnect]. Qed.

Lemma sock_recv_reads (n : N) (s : State) :
  _socket s = Some SockOpen ->
  recv_calls (trace s) < recv_calls (trace (fst (sock_recv n s))).
Proof.
  intros Hsock. unfold sock_recv. rewrite Hsock.
  destruct (recvs s) as [|[data|e] rest]; try solve_reads.
  destruct (N.leb _ _); solve_reads.
Qed.

Lemma reads_bind_first {A B} (m : M A) (k : A -> M B) (s : State) :
  recv_calls (trace s) < recv_calls (trace (fst (m s))) ->
  (forall a, keeps reads_on true (k a)) ->
  recv_calls (trace s) < recv_calls (trace (fst (bind m k s))).
Proof.
  intros Hm Hk. unfold bind.
  destruct (m s) as [s1 [a| e |]]; cbn [fst] in *; try exact Hm.
  pose proof (Hk a s1 (covered_all _)) as Hle. unfold reads_on in Hle. lia.
Qed.

Lemma reads_try_first {A} (m : M A) (h : exn -> M A) (s : State) :
  recv_calls (trace s) < recv_calls (trace (fst (m s))) ->
  (forall e, keeps reads_on true (h e)) ->
  recv_calls (trace s) < recv_calls (trace (fst (try_except m h s))).
Proof.
  intros Hm Hh. unfold try_except.
  destruct (m s) as [s1 [a| e |]]; cbn [fst] in *; try exact Hm.
  pose proof (Hh e s1 (covered_all _)) as Hle. unfold reads_on in Hle. lia.
Qed.

(** With the socket reported readable, the drain calls [recv]. *)
Lemma check_reads (s : State) :
  _socket s = Some SockOpen -> hd false (selects s) = true ->
  recv_calls (trace s) < recv_calls (trace (fst (_rspCheckUnexpectedData s))).
Proof.
  intros Hsock Hsel. pose proof reads_basis as B.
  unfold _rspCheckUnexpectedData.
  rewrite (bind_val _ _ _ _ _ (sock_select_ready s Hsock Hsel)).
  set (s1 := emit (EvSelect true) (set_selects (tl (selects s)) s)).
  assert (Heq : recv_calls (trace s) = recv_calls (trace s1))
    by (unfold s1, recv_calls; fields; rewrite filter_app, length_app; cbn; lia).
  rewrite Heq.
  apply reads_bind_first; [|intros data; now apply keeps_after_consume].
  unfold _rspConsumePackets, bind at 1, gets at 1.
  apply reads_bind_first; [|intros more; now apply keeps_after_frames].
  cbn [recv_frames].
  apply reads_bind_first; [now apply sock_recv_reads|].
  intros data.
  apply keeps_after_recv;
    [assumption | apply reads_disconnect | apply reads_recv_frames].
Qed.





(** * Properties of the rest of the client *)

(** ** Hexadecimal text *)

Lemma hexlify_byte (c : byte) :
  unhexlify [hexdigit (ord c / 16)%Z; hexdigit (ord c mod 16)%Z] = Some [c] /\
  find ch_hash [hexdigit (ord c / 16)%Z; hexdigit (ord c mod 16)%Z] = None /\
  Byte.eqb (hexdigit (ord c / 16)%Z) ch_T = false /\
  Byte.eqb (hexdigit (ord c / 16)%Z) ch_O = false.
Proof. destruct c; repeat split; reflexivity. Qed.

Lemma unhexlify_pair (hi lo c : byte) (rest r : bytes) :
  unhexlify [hi; lo] = Some [c] -> unhexlify rest = Some r ->
  unhexlify (hi :: lo :: rest) = Some (c :: r).
Proof.
  cbn. intros H1 H2. rewrite H2.
  destruct (hexval hi), (hexval lo); try discriminate.
  destruct (Byte.of_N _); [|discriminate]. now inversion H1.
Qed.

Lemma unhexlify_hexlify (data : bytes) : unhexlify (hexlify data) = Some data.
Proof.
  induction data as [|c data IH]; [reflexivity|].
  change (hexlify (c :: data))
    with (hexdigit (ord c / 16)%Z :: hexdigit (ord c mod 16)%Z :: hexlify data).
  apply unhexlify_pair; [apply hexlify_byte | exact IH].
Qed.

Lemma hexlify_length (data : bytes) : length (hexlify data) = 2 * length data.
Proof.
  induction data as [|c data IH]; [reflexivity|].
  change (hexlify (c :: data))
    with (hexdigit (ord c / 16)%Z :: hexdigit (ord c mod 16)%Z :: hexlify data).
  cbn [length]. rewrite IH. lia.
Qed.

Lemma hexlify_no_hash (data : bytes) : find ch_hash (hexlify data) = None.
Proof.
  induction data as [|c data IH]; [reflexivity|].
  change (hexlify (c :: data))
    with ([hexdigit (ord c / 16)%Z; hexdigit (ord c mod 16)%Z] ++ hexlify data).
  apply find_none_app; [apply hexlify_byte | exact IH].
Qed.

Lemma hexlify_is_response (data : bytes) : is_response (hexlify data) = true.
Proof.
  unfold is_response, long_with_head.
  destruct data as [|c data]; [reflexivity|].
  change (hexlify (c :: data))
    with (hexdigit (ord c / 16)%Z :: hexdigit (ord c mod 16)%Z :: hexlify data).
  destruct (hexlify_byte c) as [_ [_ [HT HO]]]. rewrite HT, HO.
  now rewrite !andb_false_r.
Qed.

(** ** A call answered by one response *)

Lemma rspCall_answered (data p cc junk : bytes) (rest : list recv_outcome) (s : State) :
  find ch_hash p = None -> is_response p = true -> length cc = 2 -> clean cc ->
  _connected s = true -> _socket s = Some SockOpen ->
  _pendingData s = junk -> clean junk ->
  hd false (selects s) = false -> sends_succeed s ->
  recvs s = RecvBytes (raw_frame p cc) :: rest ->
  (N.of_nat (length (raw_frame p cc)) <= 30000)%N ->
  rspCall data false true s =
    (mkState (Some SockOpen) true cc (tl (selects s)) rest
             (tl (tl (tl (tl (sends s)))))
             (trace s ++
              [EvSelect false; EvSend [ch_dollar]; EvSend data; EvSend [ch_hash];
               EvSend (fmt_x 2 (checksum data)); EvRecv (raw_frame p cc)]),
     Val (VBytes p)).
Proof.
  intros Hp Hclass Hlen Hcc Hconn Hsock Hpd Hjunk Hsel Hsends Hrecv Hsize.
  rewrite <- wire_one in Hrecv, Hsize.
  assert (Hfs : Forall takes_whole [(p, cc)])
    by (constructor; [now apply takes_whole_response | constructor]).
  assert (Hne : [(p, cc)] <> []) by discriminate.
  assert (Hroute : route None (map fst [(p, cc)]) = ([], Some p))
    by (cbn [map fst]; now rewrite (route_response None p [] Hclass)).
  rewrite (rspCall_wire data s [(p, cc)] junk rest p Hconn Hsock Hpd Hjunk Hsel
             Hsends Hrecv Hsize Hne Hfs) by now rewrite Hroute.
  rewrite Hroute, wire_one. cbn [fst leftover map snd last].
  now rewrite app_nil_r.
Qed.

(** The bytes a call has written when it was answered. *)
Lemma sent_answered (t : list event) (data wire : bytes) :
  sent (t ++ [EvSelect false; EvSend [ch_dollar]; EvSend data; EvSend [ch_hash];
              EvSend (fmt_x 2 (checksum data)); EvRecv wire])
  = sent t ++ frame data.
Proof.
  rewrite sent_app. unfold frame, raw_frame, _rspEscape. cbn.
  now rewrite app_nil_r.
Qed.

(** ** [read] and the integer readers *)

Lemma read_answered
      (addr size : Z) (d cc junk : bytes) (rest : list recv_outcome) (s : State) :
  length cc = 2 -> clean cc ->
  _connected s = true -> _socket s = Some SockOpen ->
  _pendingData s = junk -> clean junk ->
  hd false (selects s) = false -> sends_succeed s ->
  recvs s = RecvBytes (raw_frame (hexlify d) cc) :: rest ->
  (N.of_nat (length (raw_frame (hexlify d) cc)) <= 30000)%N ->
  read addr size s =
    (fst (rspCall (read_request addr size) false true s), Val d) /\
  rspCall (read_request addr size) false true s =
    (mkState (Some SockOpen) true cc (tl (selects s)) rest
             (tl (tl (tl (tl (sends s)))))
             (trace s ++
              [EvSelect false; EvSend [ch_dollar]; EvSend (read_request addr size);
               EvSend [ch_hash];
               EvSend (fmt_x 2 (checksum (read_request addr size)));
               EvRecv (raw_frame (hexlify d) cc)]),
     Val (VBytes (hexlify d))).
Proof.
  intros Hlen Hcc Hconn Hsock Hpd Hjunk Hsel Hsends Hrecv Hsize.
  pose proof (rspCall_answered (read_request addr size) (hexlify d) cc junk rest s
                (hexlify_no_hash d) (hexlify_is_response d) Hlen Hcc Hconn Hsock
                Hpd Hjunk Hsel Hsends Hrecv Hsize) as Hcall.
  split; [|exact Hcall].
  unfold read. fold (read_request addr size).
  rewrite (bind_val _ _ _ _ _ Hcall), Hcall.
  unfold unhexlify_value. now rewrite unhexlify_hexlify.
Qed.

(** [read] returns the bytes whose hexadecimal text the target sent,
    however many were asked for; the session stays connected. *)
Theorem read_returns_what_was_sent
        (addr size : Z) (d cc junk : bytes) (rest : list recv_outcome) (s : State) :
  length cc = 2 -> clean cc ->
  _connected s = true -> _socket s = Some SockOpen ->
  _pendingData s = junk -> clean junk ->
  hd false (selects s) = false -> sends_succeed s ->
  recvs s = RecvBytes (raw_frame (hexlify d) cc) :: rest ->
  (N.of_nat (length (raw_frame (hexlify d) cc)) <= 30000)%N ->
  snd (read addr size s) = Val d /\
  sent (trace (fst (read addr size s))) =
    sent (trace s) ++ frame (read_request addr size) /\
  _connected (fst (read addr size s)) = true /\
  recvs (fst (read addr size s)) = rest.
Proof.
  intros Hlen Hcc Hconn Hsock Hpd Hjunk Hsel Hsends Hrecv Hsize.
  destruct (read_answered addr size d cc junk rest s Hlen Hcc Hconn Hsock Hpd
              Hjunk Hsel Hsends Hrecv Hsize) as [Hread Hcall].
  rewrite Hread, Hcall. cbn [fst snd trace _connected recvs].
  rewrite sent_answered. auto.
Qed.

Lemma read_returns_what_was_sent_witness :
  let s := connected_client [] [RecvBytes (lit "$00ff10#8d")] in
  snd (read 0x20000000 4 s) = Val [x00; xff; x10] /\
  sent (trace (fst (read 0x20000000 4 s))) = lit "$m20000000,4#4f".
Proof.
  intros s.
  refine (let H := read_returns_what_was_sent 0x20000000 4 [x00; xff; x10]
                     (lit "8d") [] [] s _ _ _ _ _ _ _ _ _ _ in
          conj (proj1 H) (proj1 (proj2 H))).
  - reflexivity.
  - split; reflexivity.
  - reflexivity.
  - reflexivity.
  - reflexivity.
  - split; reflexivity.
  - reflexivity.
  - constructor.
  - reflexivity.
  - vm_compute. discriminate.
Defined.

(** When the answer is no hexadecimal text (an error reply such as [E01],
    an odd number of digits), [read] raises [binascii.Error]: the
    [unhexlify] stands outside the [try] of [rspCall], and the session
    stays connected. *)
Theorem read_raises_on_bad_reply
        (addr size : Z) (p cc junk : bytes) (rest : list recv_outcome) (s : State) :
  unhexlify p = None ->
  find ch_hash p = None -> is_response p = true -> length cc = 2 -> clean cc ->
  _connected s = true -> _socket s = Some SockOpen ->
  _pendingData s = junk -> clean junk ->
  hd false (selects s) = false -> sends_succeed s ->
  recvs s = RecvBytes (raw_frame p cc) :: rest ->
  (N.of_nat (length (raw_frame p cc)) <= 30000)%N ->
  snd (read addr size s) = Exc BinasciiError /\
  _connected (fst (read addr size s)) = true /\
  _socket (fst (read addr size s)) = Some SockOpen /\
  state_updates (trace (fst (read addr size s))) = state_updates (trace s).
Proof.
  intros Hbad Hp Hclass Hlen Hcc Hconn Hsock Hpd Hjunk Hsel Hsends Hrecv Hsize.
  unfold read. fold (read_request addr size).
  rewrite (bind_val _ _ _ _ _
             (rspCall_answered (read_request addr size) p cc junk rest s
                Hp Hclass Hlen Hcc Hconn Hsock Hpd Hjunk Hsel Hsends Hrecv Hsize)).
  unfold unhexlify_value. rewrite Hbad.
  cbn [raise fst snd trace _connected _socket].
  rewrite state_updates_app. cbn. now rewrite app_nil_r.
Qed.

Lemma read_raises_on_bad_reply_witness :
  let s := connected_client [] [RecvBytes (lit "$E01#a6")] in
  snd (read 0 4 s) = Exc BinasciiError /\
  _connected (fst (read 0 4 s )) = true.
Proof.
  intros s.
  refine (let H := read_raises_on_bad_reply 0 4 (lit "E01") (lit "a6") [] [] s
                     _ _ _ _ _ _ _ _ _ _ _ _ _ in
          conj (proj1 H) (proj1 (proj2 H))).
  - reflexivity.
  - reflexivity.
  - reflexivity.
  - reflexivity.
  - split; reflexivity.
  - reflexivity.
  - reflexivity.
  - reflexivity.
  - split; reflexivity.
  - reflexivity.
  - constructor.
  - reflexivity.
  - vm_compute. discriminate.
Defined.

(** ** Little-endian integers *)

Lemma ord_range (c : byte) : (0 <= ord c < 256)%Z.
Proof.
  unfold ord. pose proof (Byte.to_N_bounded c). lia.
Qed.

Lemma ord_byte_of_Z (z : Z) : (0 <= z < 256)%Z -> ord (byte_of_Z z) = z.
Proof.
  intros Hz. unfold byte_of_Z, ord.
  destruct (Byte.of_N (Z.to_N z)) as [c|] eqn:E.
  - apply Byte.to_of_N in E. rewrite E. lia.
  - apply Byte.of_N_None_iff in E. lia.
Qed.

Lemma from_bytes_little_range (data : bytes) :
  (0 <= from_bytes_little data < 256 ^ Z.of_nat (length data))%Z.
Proof.
  induction data as [|c data IH]; [cbn; lia|].
  cbn [from_bytes_little length]. rewrite Nat2Z.inj_succ, Z.pow_succ_r by lia.
  pose proof (ord_range c). lia.
Qed.

Lemma to_bytes_little_length (size : nat) (n : Z) :
  length (to_bytes_little size n) = size.
Proof.
  revert n. induction size as [|k IH]; intros n; [reflexivity|].
  cbn. now rewrite IH.
Qed.

Lemma from_to_bytes_little (size : nat) :
  forall n, (0 <= n < 256 ^ Z.of_nat size)%Z ->
            from_bytes_little (to_bytes_little size n) = n.
Proof.
  induction size as [|k IH]; intros n Hn.
  - cbn in *. lia.
  - rewrite Nat2Z.inj_succ, Z.pow_succ_r in Hn by lia.
    cbn [to_bytes_little from_bytes_little].
    rewrite ord_byte_of_Z by (apply Z.mod_pos_bound; lia).
    rewrite IH.
    + symmetry. rewrite Z.add_comm. apply Z.div_mod. lia.
    + split; [apply Z.div_pos; lia | apply Z.div_lt_upper_bound; lia].
Qed.

Lemma to_from_bytes_little (data : bytes) :
  to_bytes_little (length data) (from_bytes_little data) = data.
Proof.
  induction data as [|c data IH]; [reflexivity|].
  cbn [length from_bytes_little to_bytes_little].
  pose proof (ord_range c) as Hc.
  replace ((ord c + 256 * from_bytes_little data) mod 256)%Z with (ord c).
  - replace ((ord c + 256 * from_bytes_little data) / 256)%Z
      with (from_bytes_little data).
    + rewrite IH. f_equal. unfold byte_of_Z, ord.
      rewrite N2Z.id, Byte.of_to_N. reflexivity.
    + rewrite Z.mul_comm, Z.div_add by lia. rewrite Z.div_small by lia. lia.
  - rewrite Z.mul_comm, Z.mod_add by lia. now rewrite Z.mod_small.
Qed.

(** [to_bytes] and [from_bytes] in little-endian order are inverse to
    each other: a number that fits comes back from its [size] bytes, and
    every byte string is the encoding of its value; [to_bytes] fails
    exactly for the numbers that are negative or too large. *)
Lemma to_bytes_from_bytes (n : Z) (size : nat) :
  (to_bytes n size = None <-> (n < 0 \/ 256 ^ Z.of_nat size <= n)%Z) /\
  (forall b, to_bytes n size = Some b ->
             length b = size /\ from_bytes_little b = n) /\
  (forall b : bytes, to_bytes (from_bytes_little b) (length b) = Some b).
Proof.
  unfold to_bytes. split; [|split].
  - destruct (Z.ltb_spec n 0), (Z.leb_spec (256 ^ Z.of_nat size) n); cbn;
      split; intros H'; try discriminate; try reflexivity; lia.
  - intros b.
    destruct (Z.ltb_spec n 0), (Z.leb_spec (256 ^ Z.of_nat size) n); cbn;
      try discriminate.
    intros H'. inversion H'; subst. split.
    + apply to_bytes_little_length.
    + apply from_to_bytes_little. lia.
  - intros b. pose proof (from_bytes_little_range b) as Hr.
    destruct (Z.ltb_spec (from_bytes_little b) 0); [lia|].
    destruct (Z.leb_spec (256 ^ Z.of_nat (length b)) (from_bytes_little b)); [lia|].
    cbn. now rewrite to_from_bytes_little.
Qed.

(** [_readUInt], and so [read8] to [read64], returns the little-endian
    value of the bytes that arrived, whatever their number: the size asked
    for is not compared with the size of the answer. *)
Theorem readUInt_is_little_endian
        (addr size : Z) (d cc junk : bytes) (rest : list recv_outcome) (s : State) :
  length cc = 2 -> clean cc ->
  _connected s = true -> _socket s = Some SockOpen ->
  _pendingData s = junk -> clean junk ->
  hd false (selects s) = false -> sends_succeed s ->
  recvs s = RecvBytes (raw_frame (hexlify d) cc) :: rest ->
  (N.of_nat (length (raw_frame (hexlify d) cc)) <= 30000)%N ->
  snd (_readUInt addr size s) = Val (from_bytes_little d) /\
  (0 <= from_bytes_little d < 256 ^ Z.of_nat (length d))%Z.
Proof.
  intros Hlen Hcc Hconn Hsock Hpd Hjunk Hsel Hsends Hrecv Hsize.
  split; [|apply from_bytes_little_range].
  unfold _readUInt.
  destruct (read_answered addr size d cc junk rest s Hlen Hcc Hconn Hsock Hpd
              Hjunk Hsel Hsends Hrecv Hsize) as [Hread _].
  now rewrite (bind_val _ _ _ _ _ Hread).
Qed.

Lemma readUInt_is_little_endian_witness :
  let s := connected_client [] [RecvBytes (lit "$78563412#a4")] in
  snd (read32 0x1000 s) = Val 0x12345678%Z.
Proof.
  intros s.
  refine (proj1 (readUInt_is_little_endian 0x1000 4 [x78; x56; x34; x12] (lit "a4")
                   [] [] s _ _ _ _ _ _ _ _ _ _)).
  - reflexivity.
  - split; reflexivity.
  - reflexivity.
  - reflexivity.
  - reflexivity.
  - split; reflexivity.
  - reflexivity.
  - constructor.
  - reflexivity.
  - vm_compute. discriminate.
Defined.

(** ** [write] and the integer writers *)

(** [write] sends [M], the address, the number of data bytes and their
    hexadecimal text, from which the bytes can be read back, and returns
    the answer as it is: an error reply comes back as data, not as a
    failure. *)
Theorem write_sends_length_and_hex
        (addr : Z) (d p cc junk : bytes) (rest : list recv_outcome) (s : State) :
  find ch_hash p = None -> is_response p = true -> length cc = 2 -> clean cc ->
  _connected s = true -> _socket s = Some SockOpen ->
  _pendingData s = junk -> clean junk ->
  hd false (selects s) = false -> sends_succeed s ->
  recvs s = RecvBytes (raw_frame p cc) :: rest ->
  (N.of_nat (length (raw_frame p cc)) <= 30000)%N ->
  snd (write addr d s) = Val (VBytes p) /\
  sent (trace (fst (write addr d s))) =
    sent (trace s) ++
    frame (lit "M" ++ fmt_x 0 addr ++ lit "," ++ fmt_x 0 (Z.of_nat (length d)) ++
           lit ":" ++ hexlify d) /\
  unhexlify (hexlify d) = Some d.
Proof.
  intros Hp Hclass Hlen Hcc Hconn Hsock Hpd Hjunk Hsel Hsends Hrecv Hsize.
  unfold write.
  replace (Z.of_nat (length (hexlify d)) / 2)%Z with (Z.of_nat (length d))
    by (rewrite hexlify_length, Nat2Z.inj_mul, Z.mul_comm, Z.div_mul; lia).
  rewrite (rspCall_answered _ p cc junk rest s Hp Hclass Hlen Hcc Hconn Hsock Hpd
             Hjunk Hsel Hsends Hrecv Hsize).
  cbn [fst snd trace]. rewrite sent_answered.
  repeat split. apply unhexlify_hexlify.
Qed.

Lemma write_sends_length_and_hex_witness :
  let s := connected_client [] [RecvBytes (lit "$E01#a6")] in
  snd (write 0x1000 [xde; xad] s) = Val (VBytes (lit "E01")) /\
  sent (trace (fst (write 0x1000 [xde; xad] s))) = frame (lit "M1000,2:dead").
Proof.
  intros s.
  refine (let H := write_sends_length_and_hex 0x1000 [xde; xad] (lit "E01")
                     (lit "a6") [] [] s _ _ _ _ _ _ _ _ _ _ _ _ in
          conj (proj1 H) (proj1 (proj2 H))).
  - reflexivity.
  - reflexivity.
  - reflexivity.
  - split; reflexivity.
  - reflexivity.
  - reflexivity.
  - reflexivity.
  - split; reflexivity.
  - reflexivity.
  - constructor.
  - reflexivity.
  - vm_compute. discriminate.
Defined.

(** The integer writers and readers agree.  [_writeUInt] raises (before
    anything is sent) exactly for a number that is negative or does not
    fit in [size] bytes; otherwise it writes [size] bytes, and a target
    that answers a read with these bytes makes [_readUInt] return the
    number written. *)
Theorem written_integer_is_read_back (addr n : Z) (size : nat) :
  (_writeUInt addr n size = None <-> (n < 0 \/ 256 ^ Z.of_nat size <= n)%Z) /\
  ((0 <= n < 256 ^ Z.of_nat size)%Z ->
   exists b,
     length b = size /\ _writeUInt addr n size = Some (write addr b) /\
     forall (asked : Z) (cc junk : bytes) (rest : list recv_outcome) (s : State),
       length cc = 2 -> clean cc ->
       _connected s = true -> _socket s = Some SockOpen ->
       _pendingData s = junk -> clean junk ->
       hd false (selects s) = false -> sends_succeed s ->
       recvs s = RecvBytes (raw_frame (hexlify b) cc) :: rest ->
       (N.of_nat (length (raw_frame (hexlify b) cc)) <= 30000)%N ->
       snd (_readUInt addr asked s) = Val n).
Proof.
  destruct (to_bytes_from_bytes n size) as [Hnone [Hsome _]].
  unfold _writeUInt. split.
  - rewrite <- Hnone. destruct (to_bytes n size); cbn; split; congruence.
  - intros Hn. destruct (to_bytes n size) as [b|] eqn:E.
    + destruct (Hsome b eq_refl) as [Hlen Hval].
      exists b. repeat split; try assumption.
      intros asked cc junk rest s H1 H2 H3 H4 H5 H6 H7 H8 H9 H10.
      unfold _readUInt.
      destruct (read_answered addr asked b cc junk rest s H1 H2 H3 H4 H5 H6 H7 H8
                  H9 H10) as [Hread _].
      rewrite (bind_val _ _ _ _ _ Hread). cbn. now rewrite Hval.
    + assert (Hbad : (n < 0 \/ 256 ^ Z.of_nat size <= n)%Z) by now apply Hnone.
      lia.
Qed.

Lemma written_integer_is_read_back_witness :
  exists b,
    length b = 4 /\ _writeUInt 0x1000 0xdeadbeef 4 = Some (write 0x1000 b).
Proof.
  destruct (proj2 (written_integer_is_read_back 0x1000 0xdeadbeef 4))
    as [b [H1 [H2 _]]]; [split; [lia | reflexivity]|].
  exists b. exact (conj H1 H2).
Defined.

(** ** [parseRegs] *)

Lemma slices_whole (k : nat) (vals : list Z) :
  forall fuel,
    length vals <= fuel ->
    slices fuel (S k) (flat_map (to_bytes_little (S k)) vals)
    = map (to_bytes_little (S k)) vals.
Proof.
  induction vals as [|v vals IH]; intros fuel Hfuel.
  - destruct fuel; reflexivity.
  - destruct fuel as [|f]; [cbn in Hfuel; lia|].
    cbn [flat_map map]. cbn [slices].
    destruct (to_bytes_little (S k) v ++ flat_map (to_bytes_little (S k)) vals)
      as [|x l] eqn:E; [cbn in E; discriminate|].
    rewrite <- E.
    pose proof (to_bytes_little_length (S k) v) as Hlen.
    rewrite firstn_app, skipn_app, Hlen, Nat.sub_diag.
    rewrite firstn_all2, skipn_all2 by lia.
    cbn [firstn skipn]. rewrite app_nil_r. cbn [app].
    rewrite IH by (cbn in Hfuel; lia). reflexivity.
Qed.

Lemma flat_map_length_const (k : nat) (vals : list Z) :
  length (flat_map (to_bytes_little k) vals) = k * length vals.
Proof.
  induction vals as [|v vals IH]; cbn; [lia|].
  rewrite length_app, to_bytes_little_length, IH. lia.
Qed.

(** [parseRegs] undoes the encoding of registers: the hexadecimal text
    of the little-endian words of [width] bytes each is parsed back into
    the values, for every [bitWidth] whose eighth part is [width]. *)
Theorem parseRegs_reads_little_endian_words
        (width : nat) (bitWidth : Z) (vals : list Z) :
  0 < width -> (bitWidth / 8 = Z.of_nat width)%Z ->
  Forall (fun v => 0 <= v < 256 ^ Z.of_nat width)%Z vals ->
  parseRegs (VBytes (hexlify (flat_map (to_bytes_little width) vals))) bitWidth
  = Val vals.
Proof.
  intros Hw Hbw Hvals. unfold parseRegs.
  rewrite unhexlify_hexlify, Hbw.
  destruct (Z.eqb_spec (Z.of_nat width) 0); [lia|].
  destruct (Z.ltb_spec (Z.of_nat width) 0); [lia|].
  rewrite Nat2Z.id. destruct width as [|k]; [lia|].
  rewrite slices_whole
    by (rewrite flat_map_length_const; nia).
  f_equal. rewrite map_map.
  induction Hvals as [|v vals Hv _ IH]; [reflexivity|].
  cbn [map]. now rewrite IH, from_to_bytes_little.
Qed.

Lemma parseRegs_reads_little_endian_words_witness :
  parseRegs (VBytes (lit "78563412efbeadde")) 32 = Val [0x12345678; 0xdeadbeef]%Z.
Proof.
  refine (parseRegs_reads_little_endian_words 4 32 [0x12345678; 0xdeadbeef]%Z _ _ _).
  - lia.
  - reflexivity.
  - repeat constructor; lia.
Defined.

Lemma slices_spec (width : nat) :
  forall fuel buf,
    0 < width -> length buf <= fuel ->
    length (slices fuel width buf) = (length buf + width - 1) / width /\
    Forall (fun sl => length sl <= width) (slices fuel width buf) /\
    concat (slices fuel width buf) = buf.
Proof.
  induction fuel as [|f IH]; intros buf Hw Hfuel.
  - destruct buf; [|cbn in Hfuel; lia]. cbn.
    rewrite Nat.div_small by lia. auto.
  - destruct buf as [|x buf'] eqn:E.
    + cbn. rewrite Nat.div_small by lia. auto.
    + rewrite <- E in *. assert (Hlen : 0 < length buf) by (subst; cbn; lia).
      assert (Hs : slices (S f) width buf =
                   firstn width buf :: slices f width (skipn width buf))
        by (subst; reflexivity).
      rewrite Hs.
      destruct (IH (skipn width buf) Hw) as [H1 [H2 H3]];
        [rewrite length_skipn; lia|].
      split; [|split].
      * cbn [length]. rewrite H1, length_skipn.
        destruct (Nat.le_gt_cases width (length buf)) as [Hge|Hlt].
        -- replace (length buf + width - 1)
             with (length buf - width + width - 1 + 1 * width) by lia.
           rewrite Nat.div_add by lia. lia.
        -- replace (length buf - width + width - 1) with (width - 1) by lia.
           rewrite (Nat.div_small (width - 1)) by lia.
           replace (length buf + width - 1)
             with (length buf - 1 + 1 * width) by lia.
           rewrite Nat.div_add by lia. rewrite Nat.div_small by lia. lia.
      * constructor; [|exact H2]. rewrite length_firstn. lia.
      * cbn [concat]. rewrite H3. apply firstn_skipn.
Qed.

(** [parseRegs] on any hexadecimal text, with a width of at least one
    byte: the bytes are cut into pieces of [width] bytes, the last one
    shorter if the text does not divide; there are as many registers as
    pieces, rounded up, and every value is below 256 to the power
    [width].  With a [bitWidth] from 0 to 7 the step of the range is zero
    and [ValueError] is raised. *)
Theorem parseRegs_count_and_bounds (buf : bytes) (bitWidth : Z) :
  ((0 < bitWidth / 8)%Z ->
   exists regs,
     parseRegs (VBytes (hexlify buf)) bitWidth = Val regs /\
     length regs =
       (length buf + Z.to_nat (bitWidth / 8) - 1) / Z.to_nat (bitWidth / 8) /\
     Forall (fun v => 0 <= v < 256 ^ (bitWidth / 8))%Z regs) /\
  ((0 <= bitWidth < 8)%Z ->
   parseRegs (VBytes (hexlify buf)) bitWidth = Exc ValueError).
Proof.
  unfold parseRegs. rewrite unhexlify_hexlify. split.
  - intros Hw.
    destruct (Z.eqb_spec (bitWidth / 8) 0); [lia|].
    destruct (Z.ltb_spec (bitWidth / 8) 0); [lia|].
    eexists. split; [reflexivity|].
    destruct (slices_spec (Z.to_nat (bitWidth / 8)) (length buf) buf)
      as [H1 [H2 _]]; [lia | lia |].
    rewrite length_map. split; [exact H1|].
    apply Forall_map. eapply Forall_impl; [|exact H2].
    intros sl Hsl. cbn beta in Hsl.
    pose proof (from_bytes_little_range sl) as Hr.
    split; [lia|]. eapply Z.lt_le_trans; [apply Hr|].
    apply Z.pow_le_mono_r; lia.
  - intros Hbw. rewrite Z.div_small by lia. reflexivity.
Qed.

Lemma parseRegs_count_and_bounds_witness :
  exists regs,
    parseRegs (VBytes (hexlify [x01; x02; x03; x04; x05])) 32 = Val regs /\
    length regs = 2.
Proof.
  destruct (parseRegs_count_and_bounds [x01; x02; x03; x04; x05] 32) as [H _].
  destruct H as [regs [H1 [H2 _]]]; [reflexivity|].
  exists regs. exact (conj H1 H2).
Defined.

(** ** The parts of a call, one after the other *)

(** Two states are the same when their fields are. *)
Lemma state_ext (a b : State) :
  _socket a = _socket b -> _connected a = _connected b ->
  _pendingData a = _pendingData b -> selects a = selects b ->
  recvs a = recvs b -> sends a = sends b -> trace a = trace b -> a = b.
Proof. destruct a, b; cbn; intros; subst; reflexivity. Qed.

Ltac same_state :=
  apply state_ext;
  cbn [_socket _connected _pendingData selects recvs sends trace emit
       after_request after_select
       set_socket set_connected set_pendingData set_selects set_recvs set_sends].

Lemma try_bind_val {A B} (m : M A) (k : A -> M B) (h : exn -> M B)
      (s s' : State) (a : A) :
  m s = (s', Val a) -> try_except (bind m k) h s = try_except (k a) h s'.
Proof. intros H. unfold try_except, bind. now rewrite H. Qed.

Lemma call_body_idle (data : bytes) (ack resp : bool) (s : State) :
  _socket s = Some SockOpen -> hd false (selects s) = false -> sends_succeed s ->
  call_body data ack resp s = call_tail ack resp (after_request data s).
Proof.
  intros Hsock Hsel Hsends. unfold call_body.
  set (s1 := emit (EvSelect false) (set_selects (tl (selects s)) s)).
  set (s2 := emit (EvSend [ch_dollar]) (set_sends (tl (sends s1)) s1)).
  set (s3 := emit (EvSend data) (set_sends (tl (sends s2)) s2)).
  set (s4 := emit (EvSend [ch_hash]) (set_sends (tl (sends s3)) s3)).
  assert (H1 : sends_succeed s1) by exact Hsends.
  assert (H2 : sends_succeed s2) by now apply sends_succeed_tl.
  assert (H3 : sends_succeed s3) by now apply sends_succeed_tl.
  assert (H4 : sends_succeed s4) by now apply sends_succeed_tl.
  rewrite (bind_val _ _ _ _ _ (check_idle s Hsock Hsel)). fold s1.
  rewrite (bind_val _ _ _ _ _ (sock_sendall_ok [ch_dollar] s1 Hsock H1)). fold s2.
  rewrite (bind_val _ _ _ _ _ (sock_sendall_ok data s2 Hsock H2)). fold s3.
  rewrite (bind_val _ _ _ _ _ (sock_sendall_ok [ch_hash] s3 Hsock H3)). fold s4.
  rewrite (bind_val _ _ _ _ _ (sock_sendall_ok _ s4 Hsock H4)).
  f_equal.
  subst s4 s3 s2 s1.
  cbv [after_request emit set_sends set_selects
       _socket _connected _pendingData selects recvs sends trace].
  now rewrite <- !app_assoc.
Qed.

(** A call on a connected client, nothing waiting in the socket and every
    [sendall] going through: what is left to do after the request. *)
Lemma rspCall_idle (data : bytes) (ack resp : bool) (s : State) :
  _connected s = true -> _socket s = Some SockOpen ->
  hd false (selects s) = false -> sends_succeed s ->
  rspCall data ack resp s =
    try_except (call_tail ack resp) call_handler (after_request data s).
Proof.
  intros Hconn Hsock Hsel Hsends. rewrite rspCall_unfold, Hconn.
  unfold try_except, _rspEscape. now rewrite call_body_idle.
Qed.

Lemma sent_no_wait (t : list event) (data : bytes) :
  sent (t ++ [EvSelect false; EvSend [ch_dollar]; EvSend data; EvSend [ch_hash];
              EvSend (fmt_x 2 (checksum data))])
  = sent t ++ frame data.
Proof.
  rewrite sent_app. unfold frame, raw_frame, _rspEscape. cbn.
  now rewrite app_nil_r.
Qed.

Lemma sent_after_request (data : bytes) (s : State) :
  sent (trace (after_request data s)) = sent (trace s) ++ frame data.
Proof. apply sent_no_wait. Qed.

Lemma rspRecvPacket_exc (s s' : State) (e : exn) :
  _rspConsumePackets s = (s', Exc e) -> _rspRecvPacket s = (s', Exc e).
Proof.
  intros H. unfold _rspRecvPacket, bind at 1, gets at 1. cbn [recv_packet].
  unfold bind. now rewrite H.
Qed.

Lemma call_tail_first (s s' : State) (p : bytes) :
  _rspConsumePackets s = (s', Val (Some p)) ->
  call_tail false true s = (s', Val (VBytes p)).
Proof.
  intros H. unfold call_tail.
  change (bind (ret tt) ?k s) with (k tt s). cbn [negb].
  now rewrite (bind_val _ _ _ _ _ (rspRecvPacket_first _ _ _ H)).
Qed.

Lemma call_tail_exc (s s' : State) (e : exn) :
  _rspConsumePackets s = (s', Exc e) -> call_tail false true s = (s', Exc e).
Proof.
  intros H. unfold call_tail.
  change (bind (ret tt) ?k s) with (k tt s). cbn [negb].
  unfold bind. now rewrite (rspRecvPacket_exc _ _ _ H).
Qed.

Lemma try_exc {A} (m : M A) (h : exn -> M A) (s s' : State) (e : exn) :
  m s = (s', Exc e) -> try_except m h s = h e s'.
Proof. intros H. unfold try_except. now rewrite H. Qed.

(** A call that does not wait for a response. *)
Lemma rspCall_no_wait (data : bytes) (s : State) :
  _connected s = true -> _socket s = Some SockOpen ->
  hd false (selects s) = false -> sends_succeed s ->
  rspCall data false false s = (after_request data s, Val VTrue).
Proof.
  intros Hconn Hsock Hsel Hsends.
  now rewrite (rspCall_idle data false false s Hconn Hsock Hsel Hsends).
Qed.

(** ** Calls on a closed session, calls that do not wait *)

(** A call on a connected client with a socket object returns, and a
    result [None] means that the session was closed. *)
Lemma rspCall_outcome (data : bytes) (ack resp : bool) (s : State) :
  _connected s = true -> _socket s <> None ->
  exists s' v,
    rspCall data ack resp s = (s', Val v) /\
    (v = VNone -> _connected s' = false /\ _socket s' = Some SockClosed).
Proof.
  intros Hconn Hsock. rewrite rspCall_unfold, Hconn. unfold try_except.
  pose proof (halts_call_body (_rspEscape data) ack resp s) as Hhalt.
  pose proof (tame_call_body (_rspEscape data) ack resp s) as [Htame _].
  pose proof (call_body_value (_rspEscape data) ack resp s) as Hval.
  destruct (call_body (_rspEscape data) ack resp s) as [s1 [v| e |]];
    cbn [fst snd] in *.
  - exists s1, v. split; [reflexivity|]. intros ->. now elim (Hval s1 VNone).
  - rewrite (handler_run e s1) by (apply Htame; assumption).
    eexists _, _. split; [reflexivity|]. intros _. split; reflexivity.
  - now elim Hhalt.
Qed.

Lemma rspCall_closed (data : bytes) (ack resp : bool) (s : State) :
  _connected s = false -> rspCall data ack resp s = (s, Exc NotConnected).
Proof. intros H. now rewrite rspCall_unfold, H. Qed.





(** [go] and [step] do not wait: with nothing waiting in the socket they
    write their frame and return without a [recv], so that whatever the
    target answers stays in the socket for [poll] or for the drain of the
    next call.  [go] tells the observer [running]; [step] tells it
    nothing. *)
Theorem go_and_step_do_not_wait (s : State) :
  _connected s = true -> _socket s = Some SockOpen ->
  hd false (selects s) = false -> sends_succeed s ->
  (snd (step s) = Val VTrue /\
   sent (trace (fst (step s))) = sent (trace s) ++ frame (lit "s") /\
   recvs (fst (step s)) = recvs s /\
   recv_calls (trace (fst (step s))) = recv_calls (trace s) /\
   state_updates (trace (fst (step s))) = state_updates (trace s)) /\
  (snd (go s) = Val VTrue /\
   sent (trace (fst (go s))) = sent (trace s) ++ frame (lit "vCont;c") /\
   recvs (fst (go s)) = recvs s /\
   recv_calls (trace (fst (go s))) = recv_calls (trace s) /\
   state_updates (trace (fst (go s))) = state_updates (trace s) ++ [Some running]).
Proof.
  intros Hconn Hsock Hsel Hsends. unfold step, go.
  rewrite !(bind_val _ _ _ _ _ (rspCall_no_wait _ s Hconn Hsock Hsel Hsends)).
  unfold bind, ui_onStateUpdated, modify, ret, emit, after_request.
  cbn [fst snd trace recvs].
  split; repeat split.
  - apply sent_no_wait.
  - unfold recv_calls. rewrite filter_app, length_app. cbn. lia.
  - rewrite state_updates_app. cbn. apply app_nil_r.
  - rewrite sent_app, sent_no_wait. cbn. apply app_nil_r.
  - unfold recv_calls. rewrite !filter_app, !length_app. cbn. lia.
  - rewrite !state_updates_app. cbn. now rewrite app_nil_r.
Qed.

Lemma go_and_step_do_not_wait_witness :
  let s := connected_client [] [RecvBytes (lit "$T05#b9")] in
  sent (trace (fst (go s))) = lit "$vCont;c#a8" /\
  recvs (fst (go s)) = [RecvBytes (lit "$T05#b9")].
Proof.
  intros s.
  refine (let H := proj2 (go_and_step_do_not_wait s _ _ _ _) in
          conj (proj1 (proj2 H)) (proj1 (proj2 (proj2 H)))).
  - reflexivity.
  - reflexivity.
  - reflexivity.
  - constructor.
Defined.

(** ** The acknowledgement *)

Lemma bytes_eqb_one (a b : byte) : bytes_eqb [a] [b] = Byte.eqb a b.
Proof.
  unfold bytes_eqb. destruct (list_eq_dec Byte.byte_eq_dec [a] [b]) as [E|E].
  - inversion E; subst. symmetry. now apply Byte.byte_dec_lb.
  - destruct (Byte.eqb a b) eqn:Hab; [|reflexivity].
    apply Byte.byte_dec_bl in Hab. subst. now elim E.
Qed.

Lemma getAck_first_byte (a : byte) (more : bytes) (rest : list recv_outcome)
      (s : State) :
  _socket s = Some SockOpen -> recvs s = RecvBytes (a :: more) :: rest ->
  more <> [] ->
  _rspGetAck s =
    (if Byte.eqb a ch_plus
     then emit (EvRecv [a]) (set_recvs (RecvBytes more :: rest) s)
     else emit (EvPrint (MsgUnknownAck [a]))
            (emit (EvRecv [a]) (set_recvs (RecvBytes more :: rest) s)),
     Val (Byte.eqb a ch_plus)).
Proof.
  intros Hsock Hrecv Hmore.
  assert (Hone : sock_recv 1 s =
                 (emit (EvRecv [a]) (set_recvs (RecvBytes more :: rest) s),
                  Val [a])).
  { unfold sock_recv. rewrite Hsock, Hrecv.
    destruct (N.leb_spec (N.of_nat (length (a :: more))) 1) as [H|_].
    - destruct more; [contradiction | cbn [length] in H; lia].
    - reflexivity. }
  unfold _rspGetAck. rewrite (bind_val _ _ _ _ _ Hone), bytes_eqb_one.
  destruct (Byte.eqb a ch_plus); reflexivity.
Qed.

(** A call that waits for the acknowledgement, which arrives in front of
    the response in one segment. *)
Lemma rspCall_acked
      (data p cc junk : bytes) (a : byte) (rest : list recv_outcome) (s : State) :
  find ch_hash p = None -> is_response p = true -> length cc = 2 -> clean cc ->
  _connected s = true -> _socket s = Some SockOpen ->
  _pendingData s = junk -> clean junk ->
  hd false (selects s) = false -> sends_succeed s ->
  recvs s = RecvBytes (a :: raw_frame p cc) :: rest ->
  (N.of_nat (length (raw_frame p cc)) <= 30000)%N ->
  rspCall data true true s =
    (mkState (Some SockOpen) true cc (tl (selects s)) rest
             (tl (tl (tl (tl (sends s)))))
             (trace (after_request data s) ++
              EvRecv [a] ::
              (if Byte.eqb a ch_plus then [] else [EvPrint (MsgUnknownAck [a])]) ++
              [EvRecv (raw_frame p cc)]),
     Val (VBytes p)).
Proof.
  intros Hp Hclass Hlen Hcc Hconn Hsock Hpd Hjunk Hsel Hsends Hrecv Hsize.
  rewrite (rspCall_idle data true true s Hconn Hsock Hsel Hsends).
  set (s5 := after_request data s).
  assert (Hsock5 : _socket s5 = Some SockOpen) by exact Hsock.
  assert (Hrecv5 : recvs s5 = RecvBytes (a :: raw_frame p cc) :: rest) by exact Hrecv.
  assert (Hmore : raw_frame p cc <> []) by discriminate.
  pose proof (getAck_first_byte a (raw_frame p cc) rest s5 Hsock5 Hrecv5 Hmore)
    as Hack.
  set (s6 := if Byte.eqb a ch_plus
             then emit (EvRecv [a]) (set_recvs (RecvBytes (raw_frame p cc) :: rest) s5)
             else emit (EvPrint (MsgUnknownAck [a]))
                    (emit (EvRecv [a])
                       (set_recvs (RecvBytes (raw_frame p cc) :: rest) s5))) in *.
  assert (Hfs : Forall takes_whole [(p, cc)])
    by (constructor; [now apply takes_whole_response | constructor]).
  assert (Hne : [(p, cc)] <> []) by discriminate.
  assert (Hroute : route None (map fst [(p, cc)]) = ([], Some p))
    by (cbn [map fst]; now rewrite (route_response None p [] Hclass)).
  assert (Hsock6 : _socket s6 = Some SockOpen)
    by (unfold s6; destruct (Byte.eqb a ch_plus); exact Hsock).
  assert (Hpd6 : _pendingData s6 = junk)
    by (unfold s6; destruct (Byte.eqb a ch_plus); exact Hpd).
  assert (Hrecv6 : recvs s6 = RecvBytes (wire [(p, cc)]) :: rest)
    by (rewrite wire_one; unfold s6; destruct (Byte.eqb a ch_plus); reflexivity).
  assert (Hsize6 : (N.of_nat (length (wire [(p, cc)])) <= 30000)%N)
    by now rewrite wire_one.
  pose proof (consume_wire [(p, cc)] s6 junk rest Hne Hfs Hjunk Hsock6 Hpd6
                Hrecv6 Hsize6) as Hconsume.
  rewrite Hroute, wire_one in Hconsume. cbn [fst snd] in Hconsume.
  erewrite try_val; [|].
  2:{ unfold call_tail.
      rewrite (bind_val _ _ _ s6 tt).
      2:{ now rewrite (bind_val _ _ _ _ _ Hack). }
      cbn [negb].
      rewrite (bind_val _ _ _ _ _ (rspRecvPacket_first _ _ _ Hconsume)).
      reflexivity. }
  assert (Htr : trace s6 =
                trace s5 ++ EvRecv [a] ::
                (if Byte.eqb a ch_plus then [] else [EvPrint (MsgUnknownAck [a])]))
    by (unfold s6; destruct (Byte.eqb a ch_plus); cbn;
        now rewrite <- ?app_assoc).
  assert (Hc6 : _connected s6 = true)
    by (unfold s6; destruct (Byte.eqb a ch_plus); exact Hconn).
  assert (Hsel6 : selects s6 = tl (selects s))
    by (unfold s6; destruct (Byte.eqb a ch_plus); reflexivity).
  assert (Hsnd6 : sends s6 = tl (tl (tl (tl (sends s)))))
    by (unfold s6; destruct (Byte.eqb a ch_plus); reflexivity).
  rewrite Htr, Hc6, Hsel6, Hsnd6. unfold leftover. cbn [map snd last].
  f_equal. f_equal. rewrite <- !app_assoc. reflexivity.
Qed.

(** With [waitForAck] the acknowledgement is one byte taken by
    [recv(1)], which leaves the rest of the segment for the response.
    The byte is not judged: when it is not [+] (a [-], say, which asks for
    the packet again) it is printed as unknown and the call goes on as
    with [+]: nothing is sent again and the response is returned. *)
Theorem ack_byte_is_read_but_not_judged
        (data p cc junk : bytes) (a : byte) (rest : list recv_outcome) (s : State) :
  find ch_hash p = None -> is_response p = true -> length cc = 2 -> clean cc ->
  _connected s = true -> _socket s = Some SockOpen ->
  _pendingData s = junk -> clean junk ->
  hd false (selects s) = false -> sends_succeed s ->
  recvs s = RecvBytes (a :: raw_frame p cc) :: rest ->
  (N.of_nat (length (raw_frame p cc)) <= 30000)%N ->
  snd (rspCall data true true s) = Val (VBytes p) /\
  trace (fst (rspCall data true true s)) =
    trace (after_request data s) ++
    EvRecv [a] ::
    (if Byte.eqb a ch_plus then [] else [EvPrint (MsgUnknownAck [a])]) ++
    [EvRecv (raw_frame p cc)] /\
  sent (trace (fst (rspCall data true true s))) = sent (trace s) ++ frame data /\
  recvs (fst (rspCall data true true s)) = rest /\
  _connected (fst (rspCall data true true s)) = true.
Proof.
  intros Hp Hclass Hlen Hcc Hconn Hsock Hpd Hjunk Hsel Hsends Hrecv Hsize.
  rewrite (rspCall_acked data p cc junk a rest s Hp Hclass Hlen Hcc Hconn Hsock
             Hpd Hjunk Hsel Hsends Hrecv Hsize).
  cbn [fst snd trace recvs _connected]. repeat split.
  rewrite sent_app, sent_after_request.
  destruct (Byte.eqb a ch_plus); cbn; now rewrite app_nil_r.
Qed.

Lemma ack_byte_is_read_but_not_judged_witness :
  let s := connected_client [] [RecvBytes (lit "-$OK#9a")] in
  snd (rspCall (lit "QStartNoAckMode") true true s) = Val (VBytes (lit "OK")) /\
  sent (trace (fst (rspCall (lit "QStartNoAckMode") true true s))) =
    lit "$QStartNoAckMode#b0".
Proof.
  intros s.
  refine (let H := ack_byte_is_read_but_not_judged (lit "QStartNoAckMode")
                     (lit "OK") (lit "9a") [] x2d [] s _ _ _ _ _ _ _ _ _ _ _ _ in
          conj (proj1 H) (proj1 (proj2 (proj2 H)))).
  - reflexivity.
  - reflexivity.
  - reflexivity.
  - split; reflexivity.
  - reflexivity.
  - reflexivity.
  - reflexivity.
  - split; reflexivity.
  - reflexivity.
  - constructor.
  - reflexivity.
  - vm_compute. discriminate.
Defined.

(** ** Segments that are no whole frames *)

Lemma sock_recv_part (s : State) (d : bytes) (rest : list recv_outcome) :
  _socket s = Some SockOpen -> recvs s = RecvBytes d :: rest ->
  (N.of_nat (length d) <= 30000)%N ->
  sock_recv 30000 s = (emit (EvRecv d) (set_recvs rest s), Val d).
Proof. apply sock_recv_whole. Qed.

(** The first loop when the buffer is shorter than three bytes after the
    [recv]: [self._pendingData[-3]] raises. *)
Lemma recv_frames_short (f : nat) (s : State) (d : bytes) (rest : list recv_outcome) :
  _socket s = Some SockOpen -> recvs s = RecvBytes d :: rest ->
  d <> [] -> length (_pendingData s ++ d) < 3 ->
  recv_frames (S f) s =
    (set_pendingData (_pendingData s ++ d) (emit (EvRecv d) (set_recvs rest s)),
     Exc IndexError).
Proof.
  intros Hsock Hrecv Hne Hlen. cbn [recv_frames].
  assert (Hsize : (N.of_nat (length d) <= 30000)%N)
    by (rewrite length_app in Hlen; lia).
  rewrite (bind_val _ _ _ _ _ (sock_recv_part _ _ _ Hsock Hrecv Hsize)).
  destruct d as [|x d]; [contradiction|].
  unfold bind, gets, modify. cbn [_pendingData emit set_recvs set_pendingData].
  unfold index_neg3. apply Nat.ltb_lt in Hlen. now rewrite Hlen.
Qed.

(** The first loop goes round again when the third byte from the end is
    no [#]. *)
Lemma recv_frames_more (f : nat) (s : State) (d : bytes)
      (rest : list recv_outcome) (c : byte) :
  _socket s = Some SockOpen -> recvs s = RecvBytes d :: rest ->
  (N.of_nat (length d) <= 30000)%N -> d <> [] ->
  index_neg3 (_pendingData s ++ d) = Some c -> c <> ch_hash ->
  recv_frames (S f) s =
    recv_frames f
      (set_pendingData (_pendingData s ++ d) (emit (EvRecv d) (set_recvs rest s))).
Proof.
  intros Hsock Hrecv Hsize Hne Hidx Hc. cbn [recv_frames].
  rewrite (bind_val _ _ _ _ _ (sock_recv_part _ _ _ Hsock Hrecv Hsize)).
  destruct d as [|x d]; [contradiction|].
  unfold bind at 1, gets at 1. unfold bind at 1, modify at 1.
  cbn [_pendingData emit set_recvs set_pendingData].
  rewrite Hidx.
  destruct (Byte.eqb c ch_hash) eqn:E; [|reflexivity].
  apply Byte.byte_dec_bl in E. contradiction.
Qed.

(** A first segment that leaves the buffer shorter than three bytes ends
    the session: the test of the third byte from the end raises
    [IndexError] inside the [try]; the call, whose request has gone out in
    full, returns [None], and the client is disconnected. *)
Theorem short_first_segment_ends_session
        (data d : bytes) (rest : list recv_outcome) (s : State) :
  _connected s = true -> _socket s = Some SockOpen ->
  hd false (selects s) = false -> sends_succeed s ->
  recvs s = RecvBytes d :: rest -> d <> [] ->
  length (_pendingData s ++ d) < 3 ->
  snd (rspCall data false true s) = Val VNone /\
  trace (fst (rspCall data false true s)) =
    trace (after_request data s) ++
    [EvRecv d; EvPrint (MsgSocketError IndexError); EvClose; EvStateUpdated None] /\
  sent (trace (fst (rspCall data false true s))) = sent (trace s) ++ frame data /\
  _connected (fst (rspCall data false true s)) = false /\
  _socket (fst (rspCall data false true s)) = Some SockClosed.
Proof.
  intros Hconn Hsock Hsel Hsends Hrecv Hne Hlen.
  rewrite (rspCall_idle data false true s Hconn Hsock Hsel Hsends).
  set (s5 := after_request data s).
  assert (Hconsume :
            _rspConsumePackets s5 =
              (set_pendingData (_pendingData s ++ d)
                 (emit (EvRecv d) (set_recvs rest s5)), Exc IndexError)).
  { unfold _rspConsumePackets, bind at 1, gets at 1.
    unfold bind. now rewrite (recv_frames_short _ s5 d rest Hsock Hrecv Hne Hlen). }
  rewrite (try_exc _ _ _ _ _ (call_tail_exc _ _ _ Hconsume)).
  rewrite handler_run by (cbn; rewrite Hsock; discriminate).
  cbn [fst snd trace _connected _socket emit set_pendingData set_recvs
       set_connected set_socket].
  repeat split.
  - rewrite <- !app_assoc. reflexivity.
  - rewrite !sent_app. unfold s5. rewrite sent_after_request. cbn.
    now rewrite !app_nil_r.
Qed.

Lemma short_first_segment_ends_session_witness :
  let s := connected_client [] [RecvBytes (lit "$O"); RecvBytes (lit "K#9a")] in
  snd (rspCall (lit "g") false true s) = Val VNone /\
  _connected (fst (rspCall (lit "g") false true s)) = false.
Proof.
  intros s.
  refine (let H := short_first_segment_ends_session (lit "g") (lit "$O")
                     [RecvBytes (lit "K#9a")] s _ _ _ _ _ _ _ in
          conj (proj1 H) (proj1 (proj2 (proj2 (proj2 H))))).
  - reflexivity.
  - reflexivity.
  - reflexivity.
  - constructor.
  - reflexivity.
  - discriminate.
  - cbn. lia.
Defined.

Lemma find_none_nth (c x : byte) (l : bytes) (i : nat) :
  find c l = None -> nth_error l i = Some x -> x <> c.
Proof.
  revert i. induction l as [|y l IH]; intros i Hf Hn.
  - destruct i; discriminate.
  - cbn in Hf. destruct (Byte.eqb y c) eqn:E; [discriminate|].
    destruct (find c l) eqn:Hl; [discriminate|].
    destruct i as [|i].
    + cbn in Hn. inversion Hn; subst. intros ->.
      now rewrite (Byte.byte_dec_lb eq_refl) in E.
    + now apply (IH i).
Qed.

(** The first part of a frame does not end the first loop. *)
Lemma partial_frame_goes_on (junk p cc d1 d2 : bytes) :
  clean junk -> find ch_hash p = None -> length cc = 2 ->
  d1 ++ d2 = raw_frame p cc -> d2 <> [] -> 3 <= length (junk ++ d1) ->
  exists c, index_neg3 (junk ++ d1) = Some c /\ c <> ch_hash.
Proof.
  intros [Hj _] Hp Hcc Hsplit Hd2 Hlen.
  unfold index_neg3.
  destruct (Nat.ltb_spec (length (junk ++ d1)) 3) as [H|_]; [lia|].
  destruct (nth_error (junk ++ d1) (length (junk ++ d1) - 3)) as [c|] eqn:E.
  2:{ apply nth_error_None in E. lia. }
  exists c. split; [reflexivity|].
  assert (Hall : (junk ++ d1) ++ d2 = (junk ++ ch_dollar :: p) ++ ch_hash :: cc).
  { rewrite <- !app_assoc, Hsplit. reflexivity. }
  assert (Hd2len : 0 < length d2) by (destruct d2; [contradiction | cbn; lia]).
  assert (Hlens : length (junk ++ d1) + length d2 =
                  length (junk ++ ch_dollar :: p) + 3).
  { rewrite <- !length_app, Hall, !length_app. cbn [length]. rewrite Hcc. lia. }
  apply (find_none_nth ch_hash c (junk ++ ch_dollar :: p)
           (length (junk ++ d1) - 3)).
  - apply find_none_app; [assumption|]. cbn. now rewrite Hp.
  - rewrite <- (nth_error_app1 _ (ch_hash :: cc)) by lia.
    rewrite <- Hall. rewrite nth_error_app1 by lia. exact E.
Qed.

(** [_rspConsumePackets] when a frame arrives in two segments. *)
Lemma consume_two_parts (p cc d1 d2 junk : bytes) (rest : list recv_outcome)
      (s : State) :
  find ch_hash p = None -> is_response p = true -> length cc = 2 -> clean cc ->
  _socket s = Some SockOpen -> _pendingData s = junk -> clean junk ->
  d1 ++ d2 = raw_frame p cc -> d1 <> [] -> d2 <> [] ->
  3 <= length (junk ++ d1) ->
  recvs s = RecvBytes d1 :: RecvBytes d2 :: rest ->
  (N.of_nat (length (raw_frame p cc)) <= 30000)%N ->
  _rspConsumePackets s =
    (mkState (Some SockOpen) (_connected s) cc (selects s) rest (sends s)
             (trace s ++ [EvRecv d1; EvRecv d2]),
     Val (Some p)).
Proof.
  intros Hp Hclass Hlen Hcc Hsock Hpd Hjunk Hsplit Hd1 Hd2 Hlong Hrecv Hsize.
  destruct (partial_frame_goes_on junk p cc d1 d2 Hjunk Hp Hlen Hsplit Hd2 Hlong)
    as [c [Hidx Hc]].
  assert (Hsizes : length d1 + length d2 = length (raw_frame p cc))
    by (now rewrite <- length_app, Hsplit).
  destruct cc as [|c1 [|c2 [|? ?]]]; try discriminate.
  unfold _rspConsumePackets, bind at 1, gets at 1.
  rewrite Hrecv. cbn [recv_budget]. unfold bind at 1.
  rewrite (recv_frames_more _ s d1 (RecvBytes d2 :: rest) c Hsock Hrecv)
    by (try assumption; try lia; now rewrite Hpd).
  set (s1 := set_pendingData (_pendingData s ++ d1)
               (emit (EvRecv d1) (set_recvs (RecvBytes d2 :: rest) s))).
  assert (Hend : _pendingData s1 ++ d2 =
                 (junk ++ ch_dollar :: p) ++ [ch_hash; c1; c2]).
  { cbn. rewrite Hpd, <- !app_assoc, Hsplit. reflexivity. }
  rewrite (recv_frames_hash _ s1 d2 rest _ c1 c2 Hsock eq_refl
             ltac:(lia) Hd2 Hend).
  unfold bind at 1, gets at 1.
  cbn [_pendingData emit set_recvs set_pendingData s1].
  assert (Hfs : Forall takes_whole [(p, [c1; c2])])
    by (constructor; [now apply takes_whole_response | constructor]).
  rewrite (split_packets_wire [(p, [c1; c2])] _ None _ junk Hfs Hjunk).
  - cbn [map fst]. rewrite (route_response None p [] Hclass).
    cbn. rewrite Hsock, <- !app_assoc. reflexivity.
  - cbn [_pendingData]. rewrite wire_one, Hpd, <- app_assoc, Hsplit. reflexivity.
  - cbn [length]. rewrite !length_app.
    destruct d2; [contradiction | cbn [length]; lia].
Qed.

(** A frame that arrives in two segments is put together: the first loop
    goes on receiving until the buffer ends in [#] and two more bytes, and
    the call returns the payload, provided the buffer holds at least
    three bytes after the first segment. *)
Theorem split_frame_is_put_together
        (data p cc d1 d2 junk : bytes) (rest : list recv_outcome) (s : State) :
  find ch_hash p = None -> is_response p = true -> length cc = 2 -> clean cc ->
  _connected s = true -> _socket s = Some SockOpen ->
  _pendingData s = junk -> clean junk ->
  hd false (selects s) = false -> sends_succeed s ->
  d1 ++ d2 = raw_frame p cc -> d1 <> [] -> d2 <> [] ->
  3 <= length (junk ++ d1) ->
  recvs s = RecvBytes d1 :: RecvBytes d2 :: rest ->
  (N.of_nat (length (raw_frame p cc)) <= 30000)%N ->
  snd (rspCall data false true s) = Val (VBytes p) /\
  recv_calls (trace (fst (rspCall data false true s))) = recv_calls (trace s) + 2 /\
  recvs (fst (rspCall data false true s)) = rest /\
  _pendingData (fst (rspCall data false true s)) = cc /\
  _connected (fst (rspCall data false true s)) = true.
Proof.
  intros Hp Hclass Hlen Hcc Hconn Hsock Hpd Hjunk Hsel Hsends Hsplit Hd1 Hd2
         Hlong Hrecv Hsize.
  rewrite (rspCall_idle data false true s Hconn Hsock Hsel Hsends).
  pose proof (consume_two_parts p cc d1 d2 junk rest (after_request data s)
                Hp Hclass Hlen Hcc Hsock Hpd Hjunk Hsplit Hd1 Hd2 Hlong Hrecv
                Hsize) as Hconsume.
  rewrite (try_val _ _ _ _ _ (call_tail_first _ _ _ Hconsume)).
  cbn [fst snd trace recvs _pendingData _connected after_request].
  repeat split; [|assumption].
  unfold recv_calls. rewrite !filter_app, !length_app. cbn. lia.
Qed.

Lemma split_frame_is_put_together_witness :
  let s := connected_client [] [RecvBytes (lit "$dead"); RecvBytes (lit "beef#20")] in
  snd (rspCall (lit "m1000,4") false true s) = Val (VBytes (lit "deadbeef")).
Proof.
  intros s.
  refine (proj1 (split_frame_is_put_together (lit "m1000,4") (lit "deadbeef")
                   (lit "20") (lit "$dead") (lit "beef#20") [] [] s
                   _ _ _ _ _ _ _ _ _ _ _ _ _ _ _ _)).
  - reflexivity.
  - reflexivity.
  - reflexivity.
  - split; reflexivity.
  - reflexivity.
  - reflexivity.
  - reflexivity.
  - split; reflexivity.
  - reflexivity.
  - constructor.
  - reflexivity.
  - discriminate.
  - discriminate.
  - cbn. lia.
  - reflexivity.
  - vm_compute. discriminate.
Defined.

(** ** A [#] inside a payload *)

Lemma split_packets_malformed (f : nat) (r : option bytes) (s : State)
      (g rest : bytes) :
  clean g -> _pendingData s = g ++ ch_hash :: rest ->
  split_packets (S f) r s =
    split_packets f r (emit (EvPrint (MsgMalformed g)) (set_pendingData rest s)).
Proof.
  intros [Hg1 Hg2] Hpd. cbn [split_packets]. unfold bind at 1, gets at 1.
  rewrite Hpd, (find_at ch_hash g rest Hg1).
  unfold bind at 1, modify at 1.
  rewrite firstn_length_app, skipn_S_length_app, Hg2.
  reflexivity.
Qed.

Lemma consume_cut (p1 p2 cc junk : bytes) (rest : list recv_outcome) (s : State) :
  find ch_hash p1 = None -> is_response p1 = true -> clean p2 ->
  length cc = 2 -> clean cc ->
  _socket s = Some SockOpen -> _pendingData s = junk -> clean junk ->
  recvs s = RecvBytes (raw_frame (p1 ++ ch_hash :: p2) cc) :: rest ->
  (N.of_nat (length (raw_frame (p1 ++ ch_hash :: p2) cc)) <= 30000)%N ->
  _rspConsumePackets s =
    (mkState (Some SockOpen) (_connected s) cc (selects s) rest (sends s)
             (trace s ++ [EvRecv (raw_frame (p1 ++ ch_hash :: p2) cc);
                          EvPrint (MsgMalformed p2)]),
     Val (Some p1)).
Proof.
  intros Hp1 Hclass Hp2 Hlen Hcc Hsock Hpd Hjunk Hrecv Hsize.
  set (d := raw_frame (p1 ++ ch_hash :: p2) cc) in *.
  assert (Hd : d = raw_frame p1 (p2 ++ ch_hash :: cc)).
  { unfold d, raw_frame. cbn. now rewrite <- !app_assoc. }
  destruct cc as [|c1 [|c2 [|? ?]]]; try discriminate.
  assert (Hend : _pendingData s ++ d =
                 (junk ++ ch_dollar :: p1 ++ ch_hash :: p2) ++ [ch_hash; c1; c2]).
  { rewrite Hpd. unfold d, raw_frame.
    cbn [app]. rewrite <- !app_assoc. cbn [app]. now rewrite <- !app_assoc. }
  unfold _rspConsumePackets, bind at 1, gets at 1.
  rewrite (bind_val _ _ _ _ _
             (recv_frames_hash _ s d rest _ c1 c2 Hsock Hrecv Hsize
                ltac:(discriminate) Hend)).
  unfold bind at 1, gets at 1.
  cbn [_pendingData emit set_recvs set_pendingData].
  assert (Hfuel : exists f, length (_pendingData s ++ d) = S (S f)).
  { rewrite Hend, length_app. cbn [length].
    exists (S (length (junk ++ ch_dollar :: p1 ++ ch_hash :: p2))). lia. }
  destruct Hfuel as [f ->].
  rewrite (split_packets_frame _ None _ junk p1 (p2 ++ ch_hash :: [c1; c2]) Hjunk Hp1)
    by (cbn [_pendingData set_pendingData]; now rewrite Hpd, Hd).
  cbv zeta.
  rewrite (response_not_trap p1 Hclass), (response_not_log p1 Hclass).
  cbn [note_ignored].
  rewrite (split_packets_malformed _ _ _ p2 [c1; c2] Hp2) by reflexivity.
  rewrite split_packets_done by apply Hcc.
  f_equal. same_state; rewrite ?Hsock, <- ?app_assoc; reflexivity.
Qed.



(** ** [poll] and the packets nobody asked for *)

Lemma check_ready (s : State) :
  _socket s = Some SockOpen -> hd false (selects s) = true ->
  _rspCheckUnexpectedData s =
    (data <- _rspConsumePackets ;;
     match data with
     | Some pkt => print (MsgUnexpected pkt)
     | None => ret tt
     end) (after_select s).
Proof.
  intros Hsock Hsel. unfold _rspCheckUnexpectedData.
  now rewrite (bind_val _ _ _ _ _ (sock_select_ready s Hsock Hsel)).
Qed.

Lemma poll_connected (s : State) :
  _connected s = true ->
  poll s =
    (try_except _rspCheckUnexpectedData
       (fun e => print (MsgPollFailed e) ;; disconnect ;; ret tt) ;;
     ret true) s.
Proof. intros H. unfold poll, bind at 1, gets at 1. now rewrite H. Qed.

Lemma poll_checked (s s' : State) :
  _connected s = true -> _rspCheckUnexpectedData s = (s', Val tt) ->
  poll s = (s', Val true).
Proof.
  intros Hconn H. rewrite (poll_connected s Hconn).
  unfold bind, try_except. now rewrite H.
Qed.

Lemma poll_failed (s s' : State) (e : exn) :
  _connected s = true -> _rspCheckUnexpectedData s = (s', Exc e) ->
  _socket s' <> None ->
  poll s =
    (emit (EvStateUpdated None)
       (emit EvClose
          (set_socket (Some SockClosed)
             (set_connected false (emit (EvPrint (MsgPollFailed e)) s')))),
     Val true).
Proof.
  intros Hconn H Hsock. rewrite (poll_connected s Hconn).
  unfold bind at 1, try_except. rewrite H.
  unfold print, disconnect, bind, modify, sock_close, ui_onStateUpdated, ret.
  cbn. destruct (_socket s'); [reflexivity | contradiction].
Qed.

Lemma log_frame (text : bytes) :
  text <> [] ->
  is_trap (ch_O :: hexlify text) = false /\
  is_log (ch_O :: hexlify text) = true /\
  find ch_hash (ch_O :: hexlify text) = None.
Proof.
  intros Hne. repeat split.
  - unfold is_trap, long_with_head. cbn. apply andb_false_r.
  - unfold is_log, long_with_head.
    destruct text as [|c text]; [contradiction|]. reflexivity.
  - cbn. now rewrite hexlify_no_hash.
Qed.

(** A log packet, [O] in front of the hexadecimal text of a message,
    that [poll] finds in the socket: the message is printed, the observer
    hears nothing, nothing is written, and the session goes on. *)
Theorem poll_prints_log_text
        (text cc junk : bytes) (rest : list recv_outcome) (s : State) :
  text <> [] -> length cc = 2 -> clean cc ->
  _connected s = true -> _socket s = Some SockOpen ->
  _pendingData s = junk -> clean junk ->
  hd false (selects s) = true ->
  recvs s = RecvBytes (raw_frame (ch_O :: hexlify text) cc) :: rest ->
  (N.of_nat (length (raw_frame (ch_O :: hexlify text) cc)) <= 30000)%N ->
  poll s =
    (mkState (Some SockOpen) true cc (tl (selects s)) rest (sends s)
             (trace s ++
              [EvSelect true; EvRecv (raw_frame (ch_O :: hexlify text) cc);
               EvPrint (MsgLog text)]),
     Val true).
Proof.
  intros Hne Hlen Hcc Hconn Hsock Hpd Hjunk Hsel Hrecv Hsize.
  destruct (log_frame text Hne) as [Htrap [Hlog Hhash]].
  pose (p := (ch_O :: hexlify text) : bytes).
  change (ch_O :: hexlify text) with p in Hrecv, Hsize, Htrap, Hlog, Hhash |- *.
  assert (Hfs : Forall takes_whole [(p, cc)]).
  { constructor; [|constructor]. repeat split; try assumption; try apply Hcc.
    intros _. cbn. now rewrite unhexlify_hexlify. }
  assert (Hroute : route None (map fst [(p, cc)]) = ([EvPrint (MsgLog text)], None)).
  { cbn [map fst route]. rewrite Htrap, Hlog.
    unfold p. cbn [tl]. now rewrite unhexlify_hexlify. }
  rewrite <- wire_one in Hrecv, Hsize.
  pose proof (consume_wire [(p, cc)] (after_select s) junk rest
                ltac:(discriminate) Hfs Hjunk Hsock Hpd Hrecv Hsize) as Hconsume.
  rewrite Hroute, wire_one in Hconsume. cbn [fst snd] in Hconsume.
  erewrite poll_checked; [reflexivity | exact Hconn |].
  rewrite (check_ready s Hsock Hsel), (bind_val _ _ _ _ _ Hconsume).
  unfold ret. f_equal.
  same_state; rewrite ?Hconn, <- ?app_assoc; reflexivity.
Qed.

Lemma poll_prints_log_text_witness :
  let s := connected_client [true] [RecvBytes (lit "$O48690a#bb")] in
  snd (poll s) = Val true /\
  trace (fst (poll s)) =
    [EvSelect true; EvRecv (lit "$O48690a#bb"); EvPrint (MsgLog [x48; x69; x0a])].
Proof.
  intros s.
  refine (let H := poll_prints_log_text [x48; x69; x0a] (lit "bb") [] [] s
                     _ _ _ _ _ _ _ _ _ _ in
          conj (f_equal snd H) (f_equal (fun r => trace (fst r)) H)).
  - discriminate.
  - reflexivity.
  - split; reflexivity.
  - reflexivity.
  - reflexivity.
  - reflexivity.
  - split; reflexivity.
  - reflexivity.
  - reflexivity.
  - vm_compute. discriminate.
Defined.

(** A log packet whose text is no hexadecimal text ends the session:
    [unhexlify] raises inside the loop over the packets, [poll] prints
    the failure, disconnects and returns [True]. *)
Theorem bad_log_text_ends_session
        (p cc junk : bytes) (rest : list recv_outcome) (s : State) :
  is_log p = true -> unhexlify (tl p) = None -> find ch_hash p = None ->
  length cc = 2 -> clean cc ->
  _connected s = true -> _socket s = Some SockOpen ->
  _pendingData s = junk -> clean junk ->
  hd false (selects s) = true ->
  recvs s = RecvBytes (raw_frame p cc) :: rest ->
  (N.of_nat (length (raw_frame p cc)) <= 30000)%N ->
  poll s =
    (mkState (Some SockClosed) false cc (tl (selects s)) rest (sends s)
             (trace s ++
              [EvSelect true; EvRecv (raw_frame p cc);
               EvPrint (MsgPollFailed BinasciiError); EvClose;
               EvStateUpdated None]),
     Val true).
Proof.
  intros Hlog Hbad Hp Hlen Hcc Hconn Hsock Hpd Hjunk Hsel Hrecv Hsize.
  assert (Htrap : is_trap p = false).
  { destruct (is_trap p) eqn:E; [|reflexivity].
    apply trap_not_log in E. congruence. }
  destruct cc as [|c1 [|c2 [|? ?]]]; try discriminate.
  set (s1 := after_select s).
  assert (Hend : _pendingData s1 ++ raw_frame p [c1; c2] =
                 (junk ++ ch_dollar :: p) ++ [ch_hash; c1; c2]).
  { cbn. rewrite Hpd. unfold raw_frame. cbn. now rewrite <- !app_assoc. }
  assert (Hconsume :
            _rspConsumePackets s1 =
              (set_pendingData [c1; c2]
                 (set_pendingData (_pendingData s1 ++ raw_frame p [c1; c2])
                    (emit (EvRecv (raw_frame p [c1; c2])) (set_recvs rest s1))),
               Exc BinasciiError)).
  { unfold _rspConsumePackets, bind at 1, gets at 1.
    rewrite (bind_val _ _ _ _ _
               (recv_frames_hash _ s1 _ rest _ c1 c2 Hsock Hrecv Hsize
                  ltac:(discriminate) Hend)).
    unfold bind at 1, gets at 1.
    rewrite (split_packets_frame _ None _ junk p [c1; c2] Hjunk Hp)
      by (cbn; now rewrite Hpd).
    cbv zeta. now rewrite Htrap, Hlog, Hbad. }
  erewrite poll_failed; [| exact Hconn | |].
  2:{ rewrite (check_ready s Hsock Hsel). fold s1.
      unfold bind at 1. rewrite Hconsume. reflexivity. }
  2:{ cbn. rewrite Hsock. discriminate. }
  f_equal. subst s1. same_state; rewrite <- ?app_assoc; reflexivity.
Qed.

Lemma bad_log_text_ends_session_witness :
  let s := connected_client [true] [RecvBytes (lit "$Oops#00")] in
  snd (poll s) = Val true /\ _connected (fst (poll s)) = false.
Proof.
  intros s.
  refine (let H := bad_log_text_ends_session (lit "Oops") (lit "00") [] [] s
                     _ _ _ _ _ _ _ _ _ _ _ _ in
          conj (f_equal snd H) (f_equal (fun r => _connected (fst r)) H)).
  - reflexivity.
  - reflexivity.
  - reflexivity.
  - reflexivity.
  - split; reflexivity.
  - reflexivity.
  - reflexivity.
  - reflexivity.
  - split; reflexivity.
  - reflexivity.
  - reflexivity.
  - vm_compute. discriminate.
Defined.



(** ** The buffer between two operations *)

Lemma settled_refl (s : State) : settled s s.
Proof. right. split; auto. Qed.

Lemma settled_trans (a b c : State) : settled a b -> settled b c -> settled a c.
Proof.
  intros [Hb|[Hb1 Hb2]] [Hc|[Hc1 Hc2]].
  - now left.
  - left. congruence.
  - now left.
  - right. split; [congruence | auto].
Qed.

Lemma settled_same (s s' : State) :
  _connected s' = _connected s -> _pendingData s' = _pendingData s -> settled s s'.
Proof.
  intros Hc Hp. right. split; [exact Hc|]. unfold no_frame_left. now rewrite Hp.
Qed.

Lemma settled_bind {A B} (m : M A) (k : A -> M B) :
  keeps settled false m -> (forall a, keeps settled false (k a)) ->
  keeps settled false (bind m k).
Proof.
  intros Hm Hk s. unfold bind. specialize (Hm s).
  destruct (m s) as [s1 [a| e |]]; cbn [fst snd covered] in *; intros Hc;
    try discriminate Hc.
  apply settled_trans with s1; [now apply Hm | now apply Hk].
Qed.

Lemma settled_ret {A} (a : A) : keeps settled false (ret a).
Proof. intros s _. apply settled_refl. Qed.

Lemma settled_print (m : message) : keeps settled false (print m).
Proof. intros s _. now apply settled_same. Qed.

Lemma settled_select : keeps settled false sock_select.
Proof.
  intros s _. unfold sock_select.
  destruct (_socket s) as [[|]|]; try apply settled_refl.
  destruct (selects s); now apply settled_same.
Qed.

Lemma settled_recv (n : N) : keeps settled false (sock_recv n).
Proof.
  intros s _. unfold sock_recv.
  destruct (_socket s) as [[|]|]; try apply settled_refl.
  destruct (recvs s) as [|[d|e] rest]; try now apply settled_same.
  destruct (N.leb _ n); now apply settled_same.
Qed.

Lemma settled_sendall (d : bytes) : keeps settled false (sock_sendall d).
Proof.
  intros s _. unfold sock_sendall.
  destruct (_socket s) as [[|]|]; try apply settled_refl.
  destruct (sends s) as [|[|] rest]; now apply settled_same.
Qed.

Lemma find_firstn_none (c : byte) (l : bytes) (pos : nat) :
  find c l = Some pos -> find c (firstn pos l) = None.
Proof.
  revert pos. induction l as [|x l IH]; intros pos; cbn [find]; [discriminate|].
  destruct (Byte.eqb x c) eqn:E.
  - intros H. inversion H. reflexivity.
  - destruct (find c l) as [q|]; [|discriminate].
    intros H. inversion H. cbn [firstn find]. rewrite E.
    now rewrite (IH q eq_refl).
Qed.

Lemma find_skipn_none (c : byte) (l : bytes) (n : nat) :
  find c l = None -> find c (skipn n l) = None.
Proof.
  revert n. induction l as [|x l IH]; intros n H; [now destruct n|].
  destruct n as [|n]; [exact H|].
  cbn [find] in H. destruct (Byte.eqb x c); [discriminate|].
  destruct (find c l); [discriminate|]. now apply IH.
Qed.

(** The second loop ends with a buffer free of [#], and every packet it
    hands out is free of [#]. *)
Lemma split_packets_settles (f : nat) :
  forall r s,
    (forall old, r = Some old -> find ch_hash old = None) ->
    match split_packets f r s with
    | (s', Val v) =>
        _connected s' = _connected s /\ no_frame_left s' /\
        (forall p, v = Some p -> find ch_hash p = None)
    | _ => True
    end.
Proof.
  induction f as [|f IH]; intros r s Hr; [exact I|].
  cbn [split_packets]. unfold bind at 1, gets at 1.
  destruct (find ch_hash (_pendingData s)) as [pos|] eqn:Hpos.
  2:{ unfold ret. auto. }
  unfold bind at 1, modify at 1.
  pose proof (find_firstn_none _ _ _ Hpos) as Hpkt.
  assert (Hgo : forall r' s0,
             _connected s0 = _connected s ->
             (forall old, r' = Some old -> find ch_hash old = None) ->
             match split_packets f r' s0 with
             | (s', Val v) =>
                 _connected s' = _connected s /\ no_frame_left s' /\
                 (forall p, v = Some p -> find ch_hash p = None)
             | _ => True
             end).
  { intros r' s0 Hc Hr'. specialize (IH r' s0 Hr').
    destruct (split_packets f r' s0) as [s' [v| e |]]; try exact I.
    now rewrite <- Hc. }
  destruct (find ch_dollar _) as [pos2|].
  - destruct (long_with_head ch_T _).
    + unfold bind, print, ui_onStateUpdated, modify. cbn [fst snd].
      now apply Hgo.
    + destruct (long_with_head ch_O _).
      * destruct (unhexlify _); [|exact I].
        unfold bind, print, modify. cbn [fst snd]. now apply Hgo.
      * assert (Hnew : forall old,
                   Some (skipn (S pos2) (firstn pos (_pendingData s))) = Some old ->
                   find ch_hash old = None).
        { intros old H.
          assert (E : old = skipn (S pos2) (firstn pos (_pendingData s)))
            by congruence.
          rewrite E. now apply find_skipn_none. }
        destruct r; unfold bind, print, modify, ret; cbn [fst snd];
          now apply Hgo.
  - unfold bind, print, modify. cbn [fst snd]. now apply Hgo.
Qed.

Lemma sock_recv_connected (n : N) (s : State) :
  _connected (fst (sock_recv n s)) = _connected s.
Proof.
  unfold sock_recv.
  destruct (_socket s) as [[|]|]; try reflexivity.
  destruct (recvs s) as [|[d|e] rest]; try reflexivity.
  now destruct (N.leb _ n).
Qed.

(** The first loop leaves the flag as it is, unless it ends at an end of
    stream, where it clears the flag. *)
Lemma recv_frames_connected (f : nat) :
  forall s,
    match recv_frames f s with
    | (s', Val more) => _connected s' = if more then _connected s else false
    | _ => True
    end.
Proof.
  induction f as [|f IH]; intros s; [exact I|].
  cbn [recv_frames]. unfold bind at 1.
  pose proof (sock_recv_connected 30000 s) as Hrecv.
  destruct (sock_recv 30000 s) as [s1 [d| e |]]; try exact I.
  cbn [fst] in Hrecv.
  destruct d as [|x d].
  - unfold print, disconnect, ui_onStateUpdated, modify, sock_close, ret, bind.
    cbn. destruct (_socket s1); [reflexivity | exact I].
  - unfold bind at 1, gets at 1. unfold bind at 1, modify at 1.
    destruct (index_neg3 _) as [c|]; [|exact I].
    destruct (Byte.eqb c ch_hash); [exact Hrecv|].
    specialize (IH (set_pendingData (_pendingData s1 ++ x :: d) s1)).
    destruct (recv_frames f _) as [s' [more| e |]]; try exact I.
    destruct more; [now rewrite IH | exact IH].
Qed.

Lemma consume_settles (s : State) :
  match _rspConsumePackets s with
  | (s', Val r) =>
      settled s s' /\ (forall p, r = Some p -> find ch_hash p = None)
  | _ => True
  end.
Proof.
  unfold _rspConsumePackets. unfold bind at 1, gets at 1. unfold bind at 1.
  pose proof (recv_frames_connected (S (recv_budget (recvs s))) s) as Hrf.
  destruct (recv_frames _ s) as [s1 [[|]| e |]]; try exact I.
  - unfold bind at 1, gets at 1.
    pose proof (split_packets_settles (S (length (_pendingData s1))) None s1
                  ltac:(discriminate)) as Hsp.
    destruct (split_packets _ None s1) as [s2 [r| e |]]; try exact I.
    destruct Hsp as [Hc [Hn Hp]]. split; [|exact Hp].
    right. split; [congruence | auto].
  - split; [left; exact Hrf | discriminate].
Qed.

Lemma settled_consume : keeps settled false _rspConsumePackets.
Proof.
  intros s Hc. pose proof (consume_settles s) as H.
  destruct (_rspConsumePackets s) as [s' [r| e |]]; cbn [fst snd covered] in *;
    try discriminate Hc.
  apply H.
Qed.

Lemma settled_check : keeps settled false _rspCheckUnexpectedData.
Proof.
  unfold _rspCheckUnexpectedData.
  apply settled_bind; [apply settled_select|]. intros [|]; [|apply settled_ret].
  apply settled_bind; [apply settled_consume|].
  intros [pkt|]; [apply settled_print | apply settled_ret].
Qed.

Lemma settled_recv_packet (f : nat) : keeps settled false (recv_packet f).
Proof.
  induction f as [|f IH]; [intros s Hc; discriminate Hc|].
  cbn [recv_packet]. apply settled_bind; [apply settled_consume|].
  intros [pkt|]; [apply settled_ret | exact IH].
Qed.

Lemma settled_call_body (data : bytes) (ack resp : bool) :
  keeps settled false (call_body data ack resp).
Proof.
  unfold call_body, call_tail.
  apply settled_bind; [apply settled_check|]. intros _.
  apply settled_bind; [apply settled_sendall|]. intros _.
  apply settled_bind; [apply settled_sendall|]. intros _.
  apply settled_bind; [apply settled_sendall|]. intros _.
  apply settled_bind; [apply settled_sendall|]. intros _.
  apply settled_bind.
  - destruct ack; [|apply settled_ret].
    apply settled_bind; [|intros _; apply settled_ret].
    unfold _rspGetAck. apply settled_bind; [apply settled_recv|]. intros d.
    destruct (bytes_eqb d [ch_plus]); [apply settled_ret|].
    apply settled_bind; [apply settled_print | intros _; apply settled_ret].
  - intros _. destruct (negb resp); [apply settled_ret|].
    apply settled_bind; [|intros pkt; apply settled_ret].
    unfold _rspRecvPacket. apply settled_bind; [|intros b; apply settled_recv_packet].
    intros s _. apply settled_refl.
Qed.

(** A packet that [_rspRecvPacket] hands out holds no [#]. *)
Lemma recv_packet_plain (f : nat) :
  forall s,
    match recv_packet f s with
    | (_, Val p) => find ch_hash p = None
    | _ => True
    end.
Proof.
  induction f as [|f IH]; intros s; [exact I|].
  cbn [recv_packet]. unfold bind.
  pose proof (consume_settles s) as H.
  destruct (_rspConsumePackets s) as [s1 [[pkt|]| e |]]; try exact I.
  - now apply H.
  - apply IH.
Qed.

Lemma call_body_plain (data : bytes) (ack resp : bool) (s s' : State) (p : bytes) :
  call_body data ack resp s = (s', Val (VBytes p)) -> find ch_hash p = None.
Proof.
  unfold call_body, call_tail. intros H.
  do 6 (apply bind_val_inv in H as [? [? [_ H]]]).
  destruct (negb resp); [inversion H|].
  apply bind_val_inv in H as [s1 [pkt [Hpkt H]]]. inversion H; subst.
  unfold _rspRecvPacket, bind at 1, gets at 1 in Hpkt.
  match type of Hpkt with
  | recv_packet ?f ?st = _ => pose proof (recv_packet_plain f st) as Hplain
  end.
  now rewrite Hpkt in Hplain.
Qed.

Lemma handler_closes (e : exn) (s : State) :
  _connected (fst (call_handler e s)) = false.
Proof.
  unfold call_handler, print, disconnect, bind, modify, sock_close,
    ui_onStateUpdated, ret.
  cbn. now destruct (_socket s).
Qed.



(** ** The requests need no escaping *)

Lemma hexdigit_plain (d : Z) :
  hexdigit d <> ch_dollar /\ hexdigit d <> ch_hash /\ hexdigit d <> ch_brace.
Proof.
  unfold hexdigit.
  destruct d as [|p|p]; [| |repeat split; discriminate];
    [repeat split; discriminate|].
  do 4 (try destruct p as [p|p|]); repeat split; discriminate.
Qed.

Lemma no_reserved_app (a b : bytes) :
  no_reserved a -> no_reserved b -> no_reserved (a ++ b).
Proof. intros Ha Hb. apply Forall_app. now split. Qed.

Lemma hex_digits_plain (f : nat) :
  forall n acc, no_reserved acc -> no_reserved (hex_digits f n acc).
Proof.
  induction f as [|f IH]; intros n acc Hacc; [exact Hacc|].
  cbn [hex_digits]. destruct (n <? 16)%Z.
  - constructor; [apply hexdigit_plain | exact Hacc].
  - apply IH. constructor; [apply hexdigit_plain | exact Hacc].
Qed.

Lemma fmt_x_plain (width : nat) (n : Z) : no_reserved (fmt_x width n).
Proof.
  unfold fmt_x. apply no_reserved_app; [|apply no_reserved_app].
  - destruct (n <? 0)%Z; repeat constructor; discriminate.
  - apply Forall_forall. intros c Hc. apply repeat_spec in Hc. subst.
    repeat split; discriminate.
  - apply hex_digits_plain. constructor.
Qed.

Lemma hexlify_plain (data : bytes) : no_reserved (hexlify data).
Proof.
  induction data as [|c data IH]; [constructor|].
  change (hexlify (c :: data))
    with (hexdigit (ord c / 16)%Z :: hexdigit (ord c mod 16)%Z :: hexlify data).
  constructor; [apply hexdigit_plain|].
  constructor; [apply hexdigit_plain | exact IH].
Qed.

Lemma lit_plain_comma : no_reserved (lit ",").
Proof. repeat constructor; discriminate. Qed.

(** The escaping that [_rspEscape] leaves undone is never needed for the
    requests the client builds itself: whatever the address, size,
    register number, data or monitor command, the requests of [read],
    [write], [getOneReg], [monitorCmd], [bpadd] and [bpdel], like the
    fixed ones of [getRegs], [go] and [step], hold none of the bytes [$],
    [#] and [}].  An unknown kind of breakpoint raises before a request
    is built. *)
Theorem requests_hold_no_reserved_byte :
  (forall addr size, no_reserved (read_request addr size)) /\
  (forall addr data, no_reserved (write_request addr data)) /\
  (forall regID, no_reserved (reg_request regID)) /\
  (forall cmd, no_reserved (monitor_request cmd)) /\
  (forall kind addr size,
      match _getTypeID kind with
      | Some t =>
          no_reserved (bp_request x5a t addr size) /\
          no_reserved (bp_request x7a t addr size) /\
          bpadd addr kind size =
            Some (rspCall (bp_request x5a t addr size) false true) /\
          bpdel addr kind size =
            Some (rspCall (bp_request x7a t addr size) false true)
      | None => bpadd addr kind size = None /\ bpdel addr kind size = None
      end) /\
  no_reserved (lit "g") /\ no_reserved (lit "s") /\ no_reserved (lit "vCont;c").
Proof.
  assert (Hbp : forall head t addr size,
             no_reserved [head] -> no_reserved (bp_request head t addr size)).
  { intros head t addr size Hhead. unfold bp_request.
    repeat (apply no_reserved_app;
            try apply fmt_x_plain; try apply lit_plain_comma; try exact Hhead). }
  split; [|split; [|split; [|split; [|split]]]].
  - intros addr size. unfold read_request.
    repeat (apply no_reserved_app; try apply fmt_x_plain; try apply lit_plain_comma).
    repeat constructor; discriminate.
  - intros addr data. unfold write_request.
    repeat (apply no_reserved_app; try apply fmt_x_plain;
            try apply lit_plain_comma; try apply hexlify_plain);
      repeat constructor; discriminate.
  - intros regID. unfold reg_request.
    apply no_reserved_app; [|apply fmt_x_plain]. repeat constructor; discriminate.
  - intros cmd. unfold monitor_request.
    apply no_reserved_app; [|apply hexlify_plain]. repeat constructor; discriminate.
  - intros kind addr size. unfold bpadd, bpdel.
    destruct (_getTypeID kind) as [t|]; [|split; reflexivity].
    repeat split; apply Hbp; repeat constructor; discriminate.
  - repeat split; repeat constructor; discriminate.
Qed.

(** ** [disconnect] *)

(** [disconnect] is not guarded.  On a client with a socket object it
    returns [True] whether or not the client was connected, and every
    call closes the socket and gives the observer the null state once
    more; nothing is written.  On a client that has never had a socket it
    raises [AttributeError] from [close], after the flag has been
    cleared and before the observer is told. *)
Theorem disconnect_is_not_guarded (s : State) :
  (_socket s <> None ->
   snd (disconnect s) = Val VTrue /\
   snd ((disconnect ;; disconnect) s) = Val VTrue /\
   _connected (fst (disconnect s)) = false /\
   _socket (fst (disconnect s)) = Some SockClosed /\
   null_updates (trace (fst (disconnect s))) = null_updates (trace s) + 1 /\
   null_updates (trace (fst ((disconnect ;; disconnect) s))) =
     null_updates (trace s) + 2 /\
   sent (trace (fst ((disconnect ;; disconnect) s))) = sent (trace s)) /\
  (_socket s = None ->
   snd (disconnect s) = Exc AttributeError /\
   _connected (fst (disconnect s)) = false /\
   trace (fst (disconnect s)) = trace s).
Proof.
  unfold disconnect, ui_onStateUpdated, modify, sock_close, ret, bind. fields.
  split; intros Hs.
  - destruct (_socket s) as [k|]; [|contradiction]. fields.
    rewrite !null_updates_app, !sent_app. cbn.
    rewrite !app_nil_r. repeat split; lia.
  - rewrite Hs. fields. auto.
Qed.

Lemma disconnect_is_not_guarded_witness :
  state_updates (trace (fst ((disconnect ;; disconnect) (connected_client [] []))))
  = [None; None] /\
  null_updates (trace (fst ((disconnect ;; disconnect) (connected_client [] []))))
  = 2.
Proof.
  refine (conj _ (proj1 (proj2 (proj2 (proj2 (proj2 (proj2
            (proj1 (disconnect_is_not_guarded (connected_client [] [])) _)))))))).
  - reflexivity.
  - discriminate.
Defined.

(** ** Registers *)

(** What [getRegs] and [getOneReg] return goes to [parseRegs] as it is.
    When the target answers with the hexadecimal text of little-endian
    words of [width] bytes, the two together give the values of the
    words; the requests are [g] and [p] followed by the register number
    in hexadecimal. *)
Theorem register_replies_are_decoded
        (regID : Z) (width : nat) (vals : list Z)
        (cc junk : bytes) (rest : list recv_outcome) (s : State) :
  0 < width ->
  Forall (fun v => 0 <= v < 256 ^ Z.of_nat width)%Z vals ->
  length cc = 2 -> clean cc ->
  _connected s = true -> _socket s = Some SockOpen ->
  _pendingData s = junk -> clean junk ->
  hd false (selects s) = false -> sends_succeed s ->
  recvs s =
    RecvBytes (raw_frame (hexlify (flat_map (to_bytes_little width) vals)) cc)
    :: rest ->
  (N.of_nat (length (raw_frame (hexlify (flat_map (to_bytes_little width) vals)) cc))
   <= 30000)%N ->
  (exists v,
      snd (getRegs s) = Val v /\
      parseRegs v (8 * Z.of_nat width) = Val vals /\
      sent (trace (fst (getRegs s))) = sent (trace s) ++ frame (lit "g")) /\
  (exists v,
      snd (getOneReg regID s) = Val v /\
      parseRegs v (8 * Z.of_nat width) = Val vals /\
      sent (trace (fst (getOneReg regID s))) =
        sent (trace s) ++ frame (reg_request regID)).
Proof.
  intros Hw Hvals Hlen Hcc Hconn Hsock Hpd Hjunk Hsel Hsends Hrecv Hsize.
  set (d := flat_map (to_bytes_little width) vals) in *.
  assert (Hcall : forall data,
             rspCall data false true s =
               (mkState (Some SockOpen) true cc (tl (selects s)) rest
                        (tl (tl (tl (tl (sends s)))))
                        (trace s ++
                         [EvSelect false; EvSend [ch_dollar]; EvSend data;
                          EvSend [ch_hash]; EvSend (fmt_x 2 (checksum data));
                          EvRecv (raw_frame (hexlify d) cc)]),
                Val (VBytes (hexlify d)))).
  { intros data.
    apply (rspCall_answered data (hexlify d) cc junk rest s
             (hexlify_no_hash d) (hexlify_is_response d) Hlen Hcc Hconn Hsock
             Hpd Hjunk Hsel Hsends Hrecv Hsize). }
  assert (Hparse : parseRegs (VBytes (hexlify d)) (8 * Z.of_nat width) = Val vals).
  { unfold parseRegs, d. rewrite unhexlify_hexlify.
    replace (8 * Z.of_nat width / 8)%Z with (Z.of_nat width)
      by (rewrite Z.mul_comm, Z.div_mul; lia).
    destruct (Z.eqb_spec (Z.of_nat width) 0); [lia|].
    destruct (Z.ltb_spec (Z.of_nat width) 0); [lia|].
    rewrite Nat2Z.id. destruct width as [|k]; [lia|].
    rewrite slices_whole by (rewrite flat_map_length_const; nia).
    f_equal. rewrite map_map.
    clear - Hvals. induction Hvals as [|v vals Hv _ IH]; [reflexivity|].
    cbn [map]. now rewrite IH, from_to_bytes_little. }
  split; eexists; (split; [|split; [exact Hparse|]]).
  - unfold getRegs. now rewrite Hcall.
  - unfold getRegs. rewrite Hcall. cbn [fst trace]. apply sent_answered.
  - unfold getOneReg. fold (reg_request regID). now rewrite Hcall.
  - unfold getOneReg. fold (reg_request regID). rewrite Hcall. cbn [fst trace].
    apply sent_answered.
Qed.

Lemma register_replies_are_decoded_witness :
  let s := connected_client [] [RecvBytes (lit "$78563412#a4")] in
  exists v,
    snd (getOneReg 32 s) = Val v /\ parseRegs v 32 = Val [0x12345678%Z] /\
    sent (trace (fst (getOneReg 32 s))) = frame (lit "p20").
Proof.
  intros s.
  refine (proj2 (register_replies_are_decoded 32 4 [0x12345678%Z] (lit "a4") [] []
                   s _ _ _ _ _ _ _ _ _ _ _ _)).
  - lia.
  - repeat constructor; lia.
  - reflexivity.
  - split; reflexivity.
  - reflexivity.
  - reflexivity.
  - reflexivity.
  - split; reflexivity.
  - reflexivity.
  - constructor.
  - reflexivity.
  - vm_compute. discriminate.
Defined.

(** ** What the result of a call tells about the session *)

Lemma same_session_basis : basis same_session false.
Proof.
  split; try (intros; split; reflexivity).
  - intros a b c [H1 H2] [H3 H4]. split; congruence.
  - intros s _. unfold sock_select.
    destruct (_socket s) as [[|]|]; try (split; reflexivity).
    destruct (selects s); split; reflexivity.
  - intros n s _. unfold sock_recv.
    destruct (_socket s) as [[|]|]; try (split; reflexivity).
    destruct (recvs s) as [|[data|e] rest]; try (split; reflexivity).
    destruct (N.leb _ _); split; reflexivity.
Qed.

Lemma same_survives (s s' : State) : same_session s s' -> survives s s'.
Proof.
  intros [Hs Hc]. split.
  - intros _. left. now split.
  - intros [H1 H2]. split; congruence.
Qed.

Lemma survives_trans (a b c : State) : survives a b -> survives b c -> survives a c.
Proof.
  intros [Hab Hab'] [Hbc Hbc']. split; [|auto].
  intros Ha. destruct (Hab Ha) as [[Hs Hc]|Hd]; [|right; auto].
  assert (Hb : live b) by (unfold live in *; congruence).
  destruct (Hbc Hb) as [[Hs' Hc']|Hd]; [|right; auto].
  left. split; congruence.
Qed.

Lemma survives_basis : basis survives false.
Proof.
  split.
  - intros s. apply same_survives. split; reflexivity.
  - exact survives_trans.
  - intros v s. apply same_survives, (basis_pending _ _ same_session_basis).
  - intros m s. apply same_survives, (basis_print _ _ same_session_basis).
  - intros s. apply same_survives, (basis_paused _ _ same_session_basis).
  - intros s Hc. apply same_survives, (basis_select _ _ same_session_basis), Hc.
  - intros n s Hc. apply same_survives, (basis_recv _ _ same_session_basis), Hc.
Qed.

Lemma survives_disconnect : keeps survives false disconnect.
Proof.
  intros s. unfold disconnect, ui_onStateUpdated, modify, sock_close, ret, bind.
  cbn. destruct (_socket s) as [k|]; cbn; [|intros H; discriminate H].
  intros _. split; intros _; [right|]; split; reflexivity.
Qed.

Lemma same_session_sendall (d : bytes) : keeps same_session false (sock_sendall d).
Proof.
  intros s _. unfold sock_sendall.
  destruct (_socket s) as [[|]|]; try (split; reflexivity).
  destruct (sends s) as [|[|] rest]; split; reflexivity.
Qed.

Lemma survives_sendall (d : bytes) : keeps survives false (sock_sendall d).
Proof. intros s Hc. apply same_survives, same_session_sendall, Hc. Qed.

Lemma survives_recv_frames (f : nat) : keeps survives false (recv_frames f).
Proof. apply (keeps_recv_frames_by _ _ survives_basis), survives_disconnect. Qed.

(** A value comes out of a socket operation only on an open socket. *)
Lemma sock_recv_live (n : N) (s s' : State) (d : bytes) :
  sock_recv n s = (s', Val d) -> live s /\ same_session s s'.
Proof.
  unfold sock_recv, live, same_session.
  destruct (_socket s) as [[|]|] eqn:Hs; try discriminate.
  destruct (recvs s) as [|[data|e] rest]; try discriminate.
  destruct (N.leb _ _); intros H; inversion H; subst; cbn; auto.
Qed.

Lemma sock_sendall_live (d : bytes) (s s' : State) :
  sock_sendall d s = (s', Val tt) -> live s /\ same_session s s'.
Proof.
  unfold sock_sendall, live, same_session.
  destruct (_socket s) as [[|]|] eqn:Hs; try discriminate.
  destruct (sends s) as [|[|] rest]; try discriminate;
    intros H; inversion H; subst; cbn; auto.
Qed.

(** The first loop ends with [True] only on an open socket, and leaves
    the session as it is. *)
Lemma recv_frames_live (f : nat) :
  forall s s', recv_frames f s = (s', Val true) -> live s /\ same_session s s'.
Proof.
  induction f as [|f IH]; intros s s' H; [discriminate|].
  cbn [recv_frames] in H.
  apply bind_val_inv in H as [s1 [d [Hrecv H]]].
  apply sock_recv_live in Hrecv as [Hlive [Hs1 Hc1]].
  split; [exact Hlive|].
  destruct d as [|x d].
  - do 2 (apply bind_val_inv in H as [? [? [_ H]]]). discriminate.
  - apply bind_val_inv in H as [s2 [pending [Hg H]]]. inversion Hg; subst s2 pending.
    apply bind_val_inv in H as [s3 [[] [Hm H]]]. inversion Hm; subst s3.
    destruct (index_neg3 _) as [c|]; [|discriminate].
    destruct (Byte.eqb c ch_hash).
    + inversion H; subst. split; assumption.
    + apply IH in H as [_ [Hs Hc]]. cbn in Hs, Hc. split; congruence.
Qed.

Lemma consume_some_live (s s' : State) (p : bytes) :
  _rspConsumePackets s = (s', Val (Some p)) -> live s /\ same_session s s'.
Proof.
  unfold _rspConsumePackets. intros H.
  apply bind_val_inv in H as [s0 [budget [Hg H]]]. inversion Hg; subst s0 budget.
  apply bind_val_inv in H as [s1 [more [Hrf H]]].
  destruct more; [|discriminate].
  apply recv_frames_live in Hrf as [Hlive [Hs1 Hc1]].
  split; [exact Hlive|].
  apply bind_val_inv in H as [s2 [pending [Hg' H]]]. inversion Hg'; subst s2 pending.
  pose proof (keeps_split_packets _ _ same_session_basis
                (S (length (_pendingData s1))) None s1) as Hsp.
  rewrite H in Hsp. destruct (Hsp I) as [Hs2 Hc2]. cbn [fst] in *.
  split; congruence.
Qed.

Lemma survives_consume : keeps survives false _rspConsumePackets.
Proof. apply (keeps_consume _ _ survives_basis survives_recv_frames). Qed.

(** The loop around [_rspConsumePackets] hands out a packet only from an
    open socket. *)
Lemma recv_packet_live (f : nat) :
  forall s s' p,
    recv_packet f s = (s', Val p) ->
    exists s0, survives s s0 /\ live s0 /\ same_session s0 s'.
Proof.
  induction f as [|f IH]; intros s s' p H; [discriminate|].
  cbn [recv_packet] in H.
  apply bind_val_inv in H as [s1 [r [Hc H]]].
  destruct r as [pkt|].
  - inversion H; subst. apply consume_some_live in Hc as [Hlive Hsame].
    exists s. split; [apply (basis_refl _ _ survives_basis) | now split].
  - pose proof (survives_consume s) as Hsv. rewrite Hc in Hsv.
    apply IH in H as [s0 [H0 [Hlive Hsame]]].
    exists s0. split; [|now split].
    apply survives_trans with s1; [now apply Hsv | exact H0].
Qed.

Lemma survives_live (s s' : State) :
  survives s s' -> live s -> live s' -> _connected s' = _connected s.
Proof.
  intros [H _] Hs Hs'. destruct (H Hs) as [[_ Hc]|[Hd _]]; [exact Hc|].
  unfold live in Hs'. congruence.
Qed.

Lemma getAck_live (s s' : State) (b : bool) :
  _rspGetAck s = (s', Val b) -> live s /\ same_session s s'.
Proof.
  unfold _rspGetAck. intros H.
  apply bind_val_inv in H as [s1 [d [Hrecv H]]].
  apply sock_recv_live in Hrecv as [Hlive [Hs1 Hc1]].
  split; [exact Hlive|].
  destruct (bytes_eqb d [ch_plus]).
  - inversion H; subst. now split.
  - apply bind_val_inv in H as [s2 [[] [Hp H]]].
    inversion Hp; subst. inversion H; subst. cbn. now split.
Qed.

(** The body of the [try] returns only with the session as it found
    it. *)
Lemma call_body_live (data : bytes) (ack resp : bool) (s s' : State) (v : value) :
  live s -> call_body data ack resp s = (s', Val v) ->
  live s' /\ _connected s' = _connected s.
Proof.
  intros Hlive H. unfold call_body in H.
  apply bind_val_inv in H as [s1 [[] [Hcheck H]]].
  apply bind_val_inv in H as [s2 [[] [H1 H]]].
  apply bind_val_inv in H as [s3 [[] [H2 H]]].
  apply bind_val_inv in H as [s4 [[] [H3 H]]].
  apply bind_val_inv in H as [s5 [[] [H4 H]]].
  pose proof (keeps_check _ _ survives_basis survives_recv_frames s) as Hsv.
  rewrite Hcheck in Hsv. specialize (Hsv I). cbn [fst] in Hsv.
  apply sock_sendall_live in H1 as [Hl1 [Hs2 Hc2]].
  apply sock_sendall_live in H2 as [_ [Hs3 Hc3]].
  apply sock_sendall_live in H3 as [_ [Hs4 Hc4]].
  apply sock_sendall_live in H4 as [_ [Hs5 Hc5]].
  assert (Hc1 : _connected s1 = _connected s) by now apply survives_live.
  assert (Hl5 : live s5) by (unfold live in *; congruence).
  assert (Hcn5 : _connected s5 = _connected s) by congruence.
  clear - Hl5 Hcn5 H.
  unfold call_tail in H.
  apply bind_val_inv in H as [s6 [[] [Hack H]]].
  assert (H6 : live s6 /\ _connected s6 = _connected s).
  { destruct ack.
    - apply bind_val_inv in Hack as [s7 [b [Hg Hr]]]. inversion Hr; subst.
      apply getAck_live in Hg as [_ [Hs Hc]].
      unfold live in *. split; congruence.
    - inversion Hack; subst. now split. }
  destruct H6 as [Hl6 Hcn6].
  destruct (negb resp).
  - inversion H; subst. now split.
  - apply bind_val_inv in H as [s7 [pkt [Hpkt H]]]. inversion H; subst.
    unfold _rspRecvPacket in Hpkt.
    apply bind_val_inv in Hpkt as [s8 [budget [Hg Hpkt]]]. inversion Hg; subst.
    apply recv_packet_live in Hpkt as [s0 [Hsv [Hl0 [Hs Hc]]]].
    pose proof (survives_live _ _ Hsv Hl6 Hl0) as Hc0.
    unfold live in *. split; congruence.
Qed.

Lemma rspCall_session (data : bytes) (ack resp : bool) (s s' : State) (v : value) :
  _connected s = true -> _socket s = Some SockOpen ->
  rspCall data ack resp s = (s', Val v) ->
  (v <> VNone -> _connected s' = true /\ _socket s' = Some SockOpen) /\
  (v = VNone -> _connected s' = false /\ _socket s' = Some SockClosed).
Proof.
  intros Hconn Hsock.
  rewrite rspCall_unfold, Hconn. unfold try_except.
  pose proof (call_body_live (_rspEscape data) ack resp s) as Hlive.
  pose proof (call_body_value (_rspEscape data) ack resp s) as Hval.
  pose proof (tame_call_body (_rspEscape data) ack resp s) as [Htame _].
  destruct (call_body (_rspEscape data) ack resp s) as [s1 [v1| e |]];
    cbn [fst snd] in *.
  - intros H. inversion H; subst v1 s1.
    destruct (Hlive s' v Hsock eq_refl) as [Hl Hc].
    split; [intros _; split; [congruence | exact Hl]|].
    intros ->. now elim (Hval s' VNone).
  - rewrite (handler_run e s1) by (apply Htame; congruence).
    intros H. inversion H; subst v s'.
    split; [intros Hne; now elim Hne | intros _; split; reflexivity].
  - discriminate.
Qed.



(** A call that waits for a response returns a payload or [None]. *)
Lemma rspCall_resp_value (data : bytes) (ack : bool) (s s' : State) (v : value) :
  rspCall data ack true s = (s', Val v) -> v <> VTrue.
Proof.
  rewrite rspCall_unfold. destruct (_connected s); [|discriminate].
  unfold try_except.
  destruct (call_body (_rspEscape data) ack true s) as [s1 [v1| e |]] eqn:E.
  - intros H. inversion H; subst. unfold call_body, call_tail in E.
    do 6 (apply bind_val_inv in E as [? [? [_ E]]]).
    cbn [negb] in E. apply bind_val_inv in E as [? [? [_ E]]].
    inversion E. discriminate.
  - intros H. apply (f_equal snd) in H. cbn [snd] in H.
    apply handler_value in H. subst. discriminate.
  - discriminate.
Qed.



(** * Properties of the operations above the packet layer *)

Lemma hbind_val {A B} (m : HostM A) (k : A -> HostM B) (h h' : Host) (a : A) :
  m h = (h', Val a) -> hbind m k h = k a h'.
Proof. intros E. unfold hbind. now rewrite E. Qed.

Lemma hbind_val_inv {A B} (m : HostM A) (k : A -> HostM B) (h h' : Host) (b : B) :
  hbind m k h = (h', Val b) ->
  exists h1 a, m h = (h1, Val a) /\ k a h1 = (h', Val b).
Proof.
  unfold hbind. destruct (m h) as [h1 [a| e |]]; try discriminate. eauto.
Qed.

Lemma skipn_old (A : Type) (old new : list A) : skipn (length old) (old ++ new) = new.
Proof. apply skipn_length_app. Qed.

(** A piece of the packet layer that ends with a value, seen from
    above. *)
Lemma lift_val {A} (m : M A) (h : Host) (s' : State) (a : A) (new : list event) :
  m (client h) = (s', Val a) -> trace s' = trace (client h) ++ new ->
  lift m h =
    (mkHost s' (files h) (opens h) (connects h) (timeline h ++ map Client new),
     Val a).
Proof.
  intros E Ht. unfold lift. rewrite E, Ht, skipn_old. reflexivity.
Qed.

Lemma host_prints_client (l : list event) : host_prints (map Client l) = [].
Proof. induction l as [|e l IH]; [reflexivity | exact IH]. Qed.

Lemma host_prints_app (t1 t2 : list host_event) :
  host_prints (t1 ++ t2) = host_prints t1 ++ host_prints t2.
Proof. apply flat_map_app. Qed.

Lemma lift_inv {A} (m : M A) (h h' : Host) (r : outcome A) :
  lift m h = (h', r) ->
  m (client h) = (client h', r) /\ files h' = files h /\
  host_prints (timeline h') = host_prints (timeline h).
Proof.
  unfold lift. destruct (m (client h)) as [s' r'].
  intros E. inversion E; subst. cbn [client files timeline].
  repeat split. rewrite host_prints_app, host_prints_client. apply app_nil_r.
Qed.

(** ** [monitorCmd] and [reset] *)



(** ** A client at rest *)

Lemma at_rest_call (data p cc junk : bytes) (rest : list recv_outcome) (s : State) :
  at_rest s junk (RecvBytes (raw_frame p cc) :: rest) -> reply p cc ->
  exists s',
    rspCall data false true s = (s', Val (VBytes p)) /\
    at_rest s' cc rest /\
    trace s' =
      trace s ++
      [EvSelect false; EvSend [ch_dollar]; EvSend data; EvSend [ch_hash];
       EvSend (fmt_x 2 (checksum data)); EvRecv (raw_frame p cc)].
Proof.
  intros [Hconn [Hsock [Hpd [Hjunk [Hsel [Hsnd Hrecv]]]]]]
         [Hp [Hclass [Hlen [Hcc Hsize]]]].
  eexists. split.
  - apply (rspCall_answered data p cc junk rest s Hp Hclass Hlen Hcc Hconn Hsock
             Hpd Hjunk);
      [now rewrite Hsel | unfold sends_succeed; rewrite Hsnd; constructor
       | exact Hrecv | exact Hsize].
  - split; [|reflexivity]. rewrite Hsel, Hsnd.
    repeat split; try reflexivity; apply Hcc.
Qed.

Lemma at_rest_acked_call (data p cc junk : bytes) (a : byte)
      (rest : list recv_outcome) (s : State) :
  at_rest s junk (RecvBytes (a :: raw_frame p cc) :: rest) -> reply p cc ->
  exists s',
    rspCall data true true s = (s', Val (VBytes p)) /\
    at_rest s' cc rest /\
    trace s' =
      trace s ++
      [EvSelect false; EvSend [ch_dollar]; EvSend data; EvSend [ch_hash];
       EvSend (fmt_x 2 (checksum data)); EvRecv [a]] ++
      (if Byte.eqb a ch_plus then [] else [EvPrint (MsgUnknownAck [a])]) ++
      [EvRecv (raw_frame p cc)].
Proof.
  intros [Hconn [Hsock [Hpd [Hjunk [Hsel [Hsnd Hrecv]]]]]]
         [Hp [Hclass [Hlen [Hcc Hsize]]]].
  eexists. split.
  - apply (rspCall_acked data p cc junk a rest s Hp Hclass Hlen Hcc Hconn Hsock
             Hpd Hjunk);
      [now rewrite Hsel | unfold sends_succeed; rewrite Hsnd; constructor
       | exact Hrecv | exact Hsize].
  - split.
    + rewrite Hsel, Hsnd. repeat split; try reflexivity; apply Hcc.
    + cbn [trace after_request]. rewrite <- !app_assoc. reflexivity.
Qed.

Lemma sent_call (t : list event) (data : bytes) (more : list event) :
  sent more = [] ->
  sent (t ++ [EvSelect false; EvSend [ch_dollar]; EvSend data; EvSend [ch_hash];
              EvSend (fmt_x 2 (checksum data))] ++ more)
  = sent t ++ frame data.
Proof.
  intros Hmore. rewrite app_assoc, sent_app, sent_no_wait, Hmore.
  apply app_nil_r.
Qed.

(** ** [connect] *)

Lemma getAck_plus (s : State) (rest : list recv_outcome) :
  _socket s = Some SockOpen -> recvs s = RecvBytes [ch_plus] :: rest ->
  _rspGetAck s = (emit (EvRecv [ch_plus]) (set_recvs rest s), Val true).
Proof.
  intros Hsock Hrecv. unfold _rspGetAck.
  rewrite (bind_val _ _ _ _ _
             (sock_recv_whole 1 s [ch_plus] rest Hsock Hrecv ltac:(cbn; lia))).
  reflexivity.
Qed.

(** One step of the packet layer inside an operation: [run] says how the
    step ends on the client, [grown] what it adds to the trace. *)
Ltac hlift run grown :=
  match goal with
  | |- context [hbind (lift ?m) _ ?hh] =>
      rewrite (hbind_val _ _ hh _ _ (lift_val m hh _ _ _ run grown));
      cbn [client files opens connects timeline]
  end.

Lemma socket_socket_run (h : Host) :
  socket_socket h =
    (mkHost (set_socket (Some SockClosed) (client h)) (files h) (opens h)
            (connects h) (timeline h ++ [SocketCreated]), Val tt).
Proof.
  unfold socket_socket, hbind, lift, modify, note.
  cbn [client files opens connects timeline trace set_socket].
  rewrite skipn_all. cbn [map]. now rewrite app_nil_r.
Qed.

Lemma socket_connect_ok (host : string) (port : Z) (h : Host) :
  hd true (connects h) = true ->
  socket_connect host port h =
    (mkHost (set_socket (Some SockOpen) (client h)) (files h) (opens h)
            (tl (connects h)) (timeline h ++ [SocketConnected host port]), Val tt).
Proof.
  intros Hc. unfold socket_connect.
  destruct (connects h) as [|[|] rest]; [reflexivity | reflexivity | discriminate].
Qed.

Lemma open_wb_ok (name : string) (h : Host) :
  hd true (opens h) = true ->
  open_wb name h =
    (mkHost (client h) (file_set name [] (files h)) (tl (opens h)) (connects h)
            (timeline h ++ [FileOpened name true]), Val tt).
Proof.
  intros Hc. unfold open_wb.
  destruct (opens h) as [|[|] rest]; [reflexivity | reflexivity | discriminate].
Qed.

Lemma file_get_set (name : string) (data : bytes) (fs : list (string * bytes)) :
  file_get name (file_set name data fs) = Some data.
Proof.
  induction fs as [|[n d] fs IH]; cbn.
  - now rewrite String.eqb_refl.
  - destruct (String.eqb n name) eqn:E; cbn; rewrite E; [reflexivity | exact IH].
Qed.

Lemma file_set_set (name : string) (d1 d2 : bytes) (fs : list (string * bytes)) :
  file_set name d2 (file_set name d1 fs) = file_set name d2 fs.
Proof.
  induction fs as [|[n d] fs IH]; cbn.
  - now rewrite String.eqb_refl.
  - destruct (String.eqb n name) eqn:E; cbn; rewrite E; [reflexivity|].
    now rewrite IH.
Qed.

(** [f.write] adds to what the file holds. *)
Lemma file_write_run (name : string) (data old : bytes) (h : Host) :
  file_get name (files h) = Some old ->
  file_write name data h =
    (mkHost (client h) (file_set name (old ++ data) (files h)) (opens h)
            (connects h) (timeline h ++ [FileWritten name data]), Val tt).
Proof. intros Hg. unfold file_write. now rewrite Hg. Qed.



Lemma bytes_eqb_neq (x y : bytes) : x <> y -> bytes_eqb x y = false.
Proof.
  intros Hne. unfold bytes_eqb.
  destruct (list_eq_dec Byte.byte_eq_dec x y); [contradiction | reflexivity].
Qed.

(** [_rspGetAck] when the first byte that arrives is no [+], or when the
    stream ends. *)
Lemma getAck_other (s : State) (d : bytes) (rest : list recv_outcome) :
  _socket s = Some SockOpen -> recvs s = RecvBytes d :: rest ->
  firstn 1 d <> [ch_plus] ->
  exists s',
    _rspGetAck s = (s', Val false) /\ same_session s s' /\
    sent (trace s') = sent (trace s).
Proof.
  intros Hsock Hrecv Hne. unfold _rspGetAck, bind at 1, sock_recv.
  rewrite Hsock, Hrecv.
  destruct (N.leb_spec (N.of_nat (length d)) 1) as [Hle|Hgt].
  - assert (Hd : firstn 1 d = d)
      by (destruct d as [|x [|y d]]; [reflexivity | reflexivity | cbn in Hle; lia]).
    rewrite Hd in Hne. rewrite (bytes_eqb_neq _ _ Hne).
    eexists. split; [reflexivity|]. split; [split; reflexivity|].
    cbn [fst trace emit set_recvs]. rewrite !sent_app. cbn. now rewrite !app_nil_r.
  - change (N.to_nat 1) with 1. rewrite (bytes_eqb_neq _ _ Hne).
    eexists. split; [reflexivity|]. split; [split; reflexivity|].
    cbn [fst trace emit set_recvs]. rewrite !sent_app. cbn. now rewrite !app_nil_r.
Qed.

Lemma lift_run {A} (m : M A) (h : Host) (s' : State) (r : outcome A) :
  m (client h) = (s', r) ->
  lift m h =
    (mkHost s' (files h) (opens h) (connects h)
            (timeline h ++
             map Client (skipn (length (trace (client h))) (trace s'))), r).
Proof. intros E. unfold lift. now rewrite E. Qed.

(** Without the [+] of the target, [connect] gives up: when the first
    byte that arrives is another one, or the stream ends, it prints that
    there is no acknowledgement, closes the socket and returns [False].
    Nothing has been written, and the flag [_connected] is as it was. *)
Theorem connect_gives_up_without_ack
        (host : string) (port : Z) (d : bytes) (rest : list recv_outcome) (h : Host) :
  hd true (connects h) = true ->
  recvs (client h) = RecvBytes d :: rest -> firstn 1 d <> [ch_plus] ->
  snd (connect host port h) = Val false /\
  _socket (client (fst (connect host port h))) = Some SockClosed /\
  _connected (client (fst (connect host port h))) = _connected (client h) /\
  sent (trace (client (fst (connect host port h)))) = sent (trace (client h)) /\
  host_prints (timeline (fst (connect host port h))) =
    host_prints (timeline h) ++ [lit "No ack from GDB server"].
Proof.
  intros Hconn Hrecv Hne.
  set (s2 := set_socket (Some SockOpen) (set_socket (Some SockClosed) (client h))).
  destruct (getAck_other s2 d rest eq_refl Hrecv Hne)
    as [s3 [Hack [[Hs3 Hc3] Hsent3]]].
  assert (Hrun : exists h',
             connect host port h = (h', Val false) /\
             client h' = emit EvClose (set_socket (Some SockClosed) s3) /\
             host_prints (timeline h') =
               host_prints (timeline h) ++ [lit "No ack from GDB server"]).
  { unfold connect.
    rewrite (hbind_val _ _ _ _ _ (socket_socket_run h)).
    match goal with
    | |- context [hbind (socket_connect host port) _ ?hh] =>
        rewrite (hbind_val _ _ hh _ _ (socket_connect_ok host port hh Hconn))
    end.
    cbn [client files opens connects timeline]. fold s2.
    unfold hbind at 1, note at 1. cbn [client files opens connects timeline].
    unfold hbind at 1, note at 1. cbn [client files opens connects timeline].
    match goal with
    | |- context [hbind (lift _rspGetAck) _ ?hh] =>
        rewrite (hbind_val _ _ hh _ _ (lift_run _rspGetAck hh _ _ Hack))
    end.
    cbn [client files opens connects timeline negb].
    unfold hbind at 1, note at 1. cbn [client files opens connects timeline].
    assert (Hclose : sock_close s3 =
                     (emit EvClose (set_socket (Some SockClosed) s3), Val tt))
      by (unfold sock_close; rewrite Hs3; reflexivity).
    match goal with
    | |- context [hbind (lift sock_close) _ ?hh] =>
        rewrite (hbind_val _ _ hh _ _ (lift_run sock_close hh _ _ Hclose))
    end.
    unfold hret. eexists. split; [reflexivity|].
    cbn [client timeline]. split; [reflexivity|].
    rewrite !host_prints_app, !host_prints_client. cbn. now rewrite !app_nil_r. }
  destruct Hrun as [h' [Hrun [Hclient Hprints]]].
  rewrite Hrun. cbn [fst snd]. rewrite Hclient.
  cbn [_socket _connected trace emit set_socket].
  repeat split; try assumption.
  rewrite sent_app, Hsent3. cbn. now rewrite app_nil_r.
Qed.

Lemma connect_gives_up_without_ack_witness :
  let h := host_of (mkState None false [] [] [RecvBytes (lit "-")] [] []) in
  snd (connect "127.0.0.1" 3333 h) = Val false /\
  _socket (client (fst (connect "127.0.0.1" 3333 h))) = Some SockClosed.
Proof.
  intros h.
  refine (let T := connect_gives_up_without_ack "127.0.0.1" 3333 (lit "-") [] h
                     _ _ _ in
          conj (proj1 T) (proj1 (proj2 T))).
  - reflexivity.
  - reflexivity.
  - discriminate.
Defined.

Lemma note_inv (e : host_event) (h h' : Host) (r : outcome unit) :
  note e h = (h', r) -> client h' = client h /\ r = Val tt.
Proof. unfold note. intros E. inversion E. now cbn. Qed.

Lemma open_wb_inv (name : string) (h h' : Host) (r : outcome unit) :
  open_wb name h = (h', r) -> client h' = client h.
Proof.
  unfold open_wb. destruct (opens h) as [|[|] rest]; intros E; inversion E; now cbn.
Qed.

Lemma file_write_inv (name : string) (data : bytes) (h h' : Host) (r : outcome unit) :
  file_write name data h = (h', r) -> client h' = client h.
Proof. unfold file_write. intros E. inversion E. now cbn. Qed.

Lemma socket_connect_inv (host : string) (port : Z) (h h' : Host) :
  socket_connect host port h = (h', Val tt) ->
  client h' = set_socket (Some SockOpen) (client h).
Proof.
  unfold socket_connect.
  destruct (connects h) as [|[|] rest]; intros E; inversion E; now cbn.
Qed.

Lemma value_none_dec (v : value) : {v = VNone} + {v <> VNone}.
Proof. destruct v; [right | right | left]; (reflexivity || discriminate). Qed.

Lemma quiet_getAck (s : State) : quiet s (fst (_rspGetAck s)).
Proof. apply (keeps_getAck _ _ quiet_basis), covered_all. Qed.

(** A call made by an operation above the packet layer, on a connected
    client with an open socket: the operation goes on with a client that
    is still connected, or with one that will refuse the next call. *)
Lemma lift_call_session (data : bytes) (ack resp : bool) (h h' : Host) (v : value) :
  _connected (client h) = true -> _socket (client h) = Some SockOpen ->
  lift (rspCall data ack resp) h = (h', Val v) ->
  (v <> VNone ->
   _connected (client h') = true /\ _socket (client h') = Some SockOpen) /\
  (v = VNone -> _connected (client h') = false).
Proof.
  intros Hc Hs E. apply lift_inv in E as [E _].
  destruct (rspCall_session _ _ _ _ _ _ Hc Hs E) as [Hlive Hdead].
  split; [exact Hlive | intros Hv; now apply Hdead].
Qed.

Lemma lift_call_closed {A} (data : bytes) (ack resp : bool) (h h' : Host) (v : value) :
  _connected (client h) = false ->
  lift (rspCall data ack resp) h = (h', Val v) -> A.
Proof.
  intros Hc E. apply lift_inv in E as [E _].
  rewrite (rspCall_closed data ack resp _ Hc) in E. discriminate.
Qed.



(** ** [readToFile] *)

(** The operations come to an end: [rspCall] always does, and a call
    that hands out a payload has taken something from the oracle. *)
Lemma halts_rspCall (data : bytes) (ack resp : bool) : halts (rspCall data ack resp).
Proof.
  intros s. rewrite rspCall_unfold. destruct (_connected s); [|discriminate].
  unfold try_except.
  pose proof (halts_call_body (_rspEscape data) ack resp s) as Hhalt.
  destruct (call_body (_rspEscape data) ack resp s) as [s1 [v| e |]];
    cbn [snd] in *; [discriminate | | now elim Hhalt].
  unfold call_handler, print, disconnect, ui_onStateUpdated, modify, sock_close,
    ret, bind.
  cbn. destruct (_socket s1); discriminate.
Qed.

Lemma halts_read (addr size : Z) : halts (read addr size).
Proof.
  unfold read. apply halts_bind; [apply halts_rspCall|].
  intros [|d|]; try (intros s; discriminate).
  intros s. cbn [unhexlify_value]. destruct (unhexlify d); discriminate.
Qed.

Lemma recv_packet_advances (f : nat) :
  forall s s' p,
    recv_packet f s = (s', Val p) ->
    recv_budget (recvs s') < recv_budget (recvs s).
Proof.
  induction f as [|f IH]; intros s s' p H; [discriminate|].
  cbn [recv_packet] in H.
  apply bind_val_inv in H as [s1 [r [Hc H]]].
  pose proof (consume_advances s) as Hadv. unfold advances, advanced in Hadv.
  rewrite Hc in Hadv. cbn [fst snd] in Hadv.
  destruct r as [pkt|].
  - inversion H; subst. exact Hadv.
  - apply IH in H. lia.
Qed.

Lemma rspCall_advances (data : bytes) (ack : bool) (s s' : State) (p : bytes) :
  rspCall data ack true s = (s', Val (VBytes p)) ->
  recv_budget (recvs s') < recv_budget (recvs s).
Proof.
  rewrite rspCall_unfold. destruct (_connected s); [|discriminate].
  unfold try_except.
  destruct (call_body (_rspEscape data) ack true s) as [s1 [v| e |]] eqn:E.
  - intros H. inversion H; subst. unfold call_body in E.
    apply bind_val_inv in E as [s2 [[] [H1 E]]].
    apply bind_val_inv in E as [s3 [[] [H2 E]]].
    apply bind_val_inv in E as [s4 [[] [H3 E]]].
    apply bind_val_inv in E as [s5 [[] [H4 E]]].
    apply bind_val_inv in E as [s6 [[] [H5 E]]].
    unfold call_tail in E.
    apply bind_val_inv in E as [s7 [[] [H6 E]]]. cbn [negb] in E.
    apply bind_val_inv in E as [s8 [pkt [H7 E]]]. inversion E; subst.
    pose proof (keeps_check _ _ tame_basis tame_recv_frames s (covered_all _))
      as [_ T1].
    pose proof (tame_sendall [ch_dollar] s2 (covered_all _)) as [_ T2].
    pose proof (tame_sendall (_rspEscape data) s3 (covered_all _)) as [_ T3].
    pose proof (tame_sendall [ch_hash] s4 (covered_all _)) as [_ T4].
    pose proof (tame_sendall (fmt_x 2 (checksum (_rspEscape data))) s5
                  (covered_all _)) as [_ T5].
    rewrite H1 in T1. rewrite H2 in T2. rewrite H3 in T3. rewrite H4 in T4.
    rewrite H5 in T5. cbn [fst] in *.
    assert (T6 : recv_budget (recvs s7) <= recv_budget (recvs s6)).
    { destruct ack.
      - apply bind_val_inv in H6 as [s9 [b [Hg Hr]]]. inversion Hr; subst.
        pose proof (keeps_getAck _ _ tame_basis s6 (covered_all _)) as [_ T].
        now rewrite Hg in T.
      - inversion H6; subst. lia. }
    unfold _rspRecvPacket in H7.
    apply bind_val_inv in H7 as [s9 [budget [Hg H7]]]. inversion Hg; subst.
    apply recv_packet_advances in H7. lia.
  - intros H. apply (f_equal snd) in H. cbn [snd] in H.
    apply handler_value in H. discriminate.
  - discriminate.
Qed.

Lemma read_advances (addr size : Z) (s s' : State) (d : bytes) :
  read addr size s = (s', Val d) ->
  recv_budget (recvs s') < recv_budget (recvs s).
Proof.
  unfold read. intros H.
  apply bind_val_inv in H as [s1 [v [Hcall H]]].
  destruct v as [|p|]; try discriminate.
  cbn [unhexlify_value] in H. destruct (unhexlify p); [|discriminate].
  inversion H; subst. now apply rspCall_advances in Hcall.
Qed.

Lemma read_loop_halts (file : string) (fuel : nat) :
  forall addr size h,
    recv_budget (recvs (client h)) < fuel ->
    snd (read_loop fuel addr size file h) <> OutOfFuel.
Proof.
  induction fuel as [|f IH]; intros addr size h Hf; [lia|].
  cbn [read_loop]. destruct (0 <? size)%Z; [|discriminate].
  unfold hbind.
  destruct (lift (read addr (Z.min size 4096)) h) as [h1 [d| e |]] eqn:E.
  - apply lift_inv in E as [E _]. apply read_advances in E.
    unfold file_write. cbn [fst snd]. apply IH. cbn [client]. lia.
  - discriminate.
  - apply lift_inv in E as [E _].
    pose proof (halts_read addr (Z.min size 4096) (client h)) as Hh.
    rewrite E in Hh. now elim Hh.
Qed.

Lemma readToFile_halts (addr size : Z) (file : string) (h : Host) :
  snd (readToFile addr size file h) <> OutOfFuel.
Proof.
  unfold readToFile, hbind at 1.
  destruct (open_wb file h) as [h1 [[]| e |]] eqn:E; try discriminate.
  - unfold hbind at 1, hgets at 1. unfold hbind.
    pose proof (read_loop_halts file (S (recv_budget (recvs (client h1)))) addr
                  size h1 (Nat.lt_succ_diag_r _)) as Hh.
    destruct (read_loop _ addr size file h1) as [h2 [[]| e |]];
      [discriminate | discriminate | now elim Hh].
  - unfold open_wb in E. destruct (opens h) as [|[|] os]; discriminate.
Qed.

Lemma recv_budget_length (rs : list recv_outcome) : length rs <= recv_budget rs.
Proof.
  induction rs as [|[d|e] rs IH]; cbn [recv_budget length]; lia.
Qed.

Lemma reply_hexlify (d cc : bytes) :
  length cc = 2 -> clean cc ->
  (N.of_nat (length (raw_frame (hexlify d) cc)) <= 30000)%N ->
  reply (hexlify d) cc.
Proof.
  intros Hlen Hcc Hsize. repeat split; try assumption; try apply Hcc.
  - apply hexlify_no_hash.
  - apply hexlify_is_response.
Qed.

(** One [read] of an operation above the packet layer, on a client at
    rest whose target answers with the bytes [d]. *)
Lemma lift_read_at_rest (addr size : Z) (d cc junk : bytes)
      (rest : list recv_outcome) (h : Host) :
  at_rest (client h) junk (RecvBytes (raw_frame (hexlify d) cc) :: rest) ->
  reply (hexlify d) cc ->
  exists h',
    lift (read addr size) h = (h', Val d) /\
    at_rest (client h') cc rest /\
    files h' = files h /\ opens h' = opens h /\
    sent (trace (client h')) =
      sent (trace (client h)) ++ frame (read_request addr size) /\
    host_prints (timeline h') = host_prints (timeline h).
Proof.
  intros Hrest Hreply.
  destruct (at_rest_call (read_request addr size) (hexlify d) cc junk rest
              (client h) Hrest Hreply) as [s' [Hcall [Hrest' Htr]]].
  assert (Hread : read addr size (client h) = (s', Val d)).
  { unfold read. fold (read_request addr size).
    rewrite (bind_val _ _ _ _ _ Hcall). unfold unhexlify_value.
    now rewrite unhexlify_hexlify. }
  eexists. split; [apply (lift_val _ _ _ _ _ Hread Htr)|].
  cbn [client files opens timeline]. repeat split; try apply Hrest'.
  - rewrite Htr. apply sent_answered.
  - rewrite host_prints_app, host_prints_client. apply app_nil_r.
Qed.

Lemma file_write_get (name : string) (data old : bytes) (h : Host) :
  file_get name (files h) = Some old ->
  exists h',
    file_write name data h = (h', Val tt) /\ client h' = client h /\
    opens h' = opens h /\
    file_get name (files h') = Some (old ++ data) /\
    host_prints (timeline h') = host_prints (timeline h).
Proof.
  intros Hg. eexists. split; [apply (file_write_run name data old h Hg)|].
  cbn [client files opens timeline]. repeat split.
  - apply file_get_set.
  - rewrite host_prints_app. cbn. apply app_nil_r.
Qed.

Lemma read_loop_run (file : string) (rest : list recv_outcome)
      (chunks : list (bytes * bytes)) :
  forall fuel addr size junk old h,
    at_rest (client h) junk (answers chunks ++ rest) ->
    Forall (fun c => reply (hexlify (fst c)) (snd c)) chunks ->
    covers size (map fst chunks) ->
    file_get file (files h) = Some old ->
    length chunks < fuel ->
    exists h' junk',
      read_loop fuel addr size file h = (h', Val tt) /\
      at_rest (client h') junk' rest /\
      file_get file (files h') = Some (old ++ concat (map fst chunks)) /\
      sent (trace (client h')) =
        sent (trace (client h)) ++ read_requests addr size (map fst chunks) /\
      host_prints (timeline h') = host_prints (timeline h).
Proof.
  induction chunks as [|[d cc] chunks IH];
    intros fuel addr size junk old h Hrest Hok Hcov Hfile Hfuel.
  - destruct fuel as [|f]; [cbn in Hfuel; lia|].
    cbn [map covers] in Hcov. cbn [read_loop].
    destruct (Z.ltb_spec 0 size) as [H0|_]; [lia|].
    exists h, junk. cbn [map concat read_requests]. rewrite !app_nil_r.
    repeat split; try assumption; apply Hrest.
  - destruct fuel as [|f]; [cbn in Hfuel; lia|].
    cbn [map fst covers] in Hcov. destruct Hcov as [Hpos Hcov].
    inversion Hok as [|? ? Hreply Hok']; subst. cbn [fst snd] in Hreply.
    cbn [read_loop].
    destruct (Z.ltb_spec 0 size) as [_|H0]; [|lia].
    destruct (lift_read_at_rest addr (Z.min size 4096) d cc junk
                (answers chunks ++ rest) h Hrest Hreply)
      as [h1 [Hread [Hrest1 [Hf1 [_ [Hsent1 Hp1]]]]]].
    rewrite (hbind_val _ _ _ _ _ Hread).
    assert (Hfile1 : file_get file (files h1) = Some old) by now rewrite Hf1.
    destruct (file_write_get file d old h1 Hfile1)
      as [h2 [Hwrite [Hc2 [_ [Hfile2 Hp2]]]]].
    rewrite (hbind_val _ _ _ _ _ Hwrite).
    rewrite <- Hc2 in Hrest1.
    destruct (IH f (addr + Z.of_nat (length d))%Z (size - Z.of_nat (length d))%Z
                cc (old ++ d) h2 Hrest1 Hok' Hcov Hfile2 ltac:(cbn in Hfuel; lia))
      as [h' [junk' [Hloop [Hrest' [Hfile' [Hsent' Hp']]]]]].
    exists h', junk'. split; [exact Hloop|]. split; [exact Hrest'|].
    cbn [map fst concat read_requests]. repeat split.
    + now rewrite Hfile', <- app_assoc.
    + rewrite Hsent', Hc2, Hsent1, <- app_assoc. reflexivity.
    + congruence.
Qed.



(** ** [writeFromFile] *)

Lemma slices_fuel (width : nat) :
  forall f1 f2 buf,
    0 < width -> length buf <= f1 -> length buf <= f2 ->
    slices f1 width buf = slices f2 width buf.
Proof.
  induction f1 as [|f1 IH]; intros f2 buf Hw H1 H2.
  - destruct buf; [|cbn in H1; lia]. now destruct f2.
  - destruct buf as [|x buf]; [now destruct f2|].
    destruct f2 as [|f2]; [cbn in H2; lia|].
    cbn [slices]. f_equal.
    apply IH; [exact Hw | |]; rewrite length_skipn; cbn [length] in *; lia.
Qed.

Lemma slices_step (buf : bytes) :
  buf <> [] ->
  slices (length buf) 4096 buf =
    firstn 4096 buf :: slices (length (skipn 4096 buf)) 4096 (skipn 4096 buf).
Proof.
  intros Hne. destruct buf as [|x buf]; [contradiction|].
  cbn [length slices]. f_equal.
  apply slices_fuel; [lia | | lia].
  rewrite length_skipn. cbn [length]. lia.
Qed.

(** One [write] of an operation above the packet layer, on a client at
    rest; the reply is handed back as it is. *)
Lemma lift_write_at_rest (addr : Z) (d p cc junk : bytes)
      (rest : list recv_outcome) (h : Host) :
  at_rest (client h) junk (RecvBytes (raw_frame p cc) :: rest) ->
  reply p cc ->
  exists h',
    lift (write addr d) h = (h', Val (VBytes p)) /\
    at_rest (client h') cc rest /\
    sent (trace (client h')) =
      sent (trace (client h)) ++ frame (write_request addr d) /\
    host_prints (timeline h') = host_prints (timeline h).
Proof.
  intros Hrest Hreply.
  destruct (at_rest_call (write_request addr d) p cc junk rest
              (client h) Hrest Hreply) as [s' [Hcall [Hrest' Htr]]].
  eexists. split; [apply (lift_val (write addr d) _ _ _ _ Hcall Htr)|].
  cbn [client timeline]. repeat split; try apply Hrest'.
  - rewrite Htr. apply sent_answered.
  - rewrite host_prints_app, host_prints_client. apply app_nil_r.
Qed.

Lemma write_loop_run (data : bytes) (rest : list recv_outcome)
      (replies : list (bytes * bytes)) :
  forall fuel addr pos junk h,
    at_rest (client h) junk (replies_of replies ++ rest) ->
    Forall (fun r => reply (fst r) (snd r)) replies ->
    length replies =
      length (slices (length (skipn pos data)) 4096 (skipn pos data)) ->
    length replies < fuel ->
    exists h' junk',
      write_loop fuel addr pos data h = (h', Val true) /\
      at_rest (client h') junk' rest /\
      sent (trace (client h')) =
        sent (trace (client h)) ++
        write_requests addr (slices (length (skipn pos data)) 4096 (skipn pos data)) /\
      host_prints (timeline h') = host_prints (timeline h).
Proof.
  induction replies as [|[p cc] replies IH];
    intros fuel addr pos junk h Hrest Hok Hlen Hfuel.
  - destruct fuel as [|f]; [cbn in Hfuel; lia|].
    assert (Hnil : skipn pos data = []).
    { destruct (skipn pos data) as [|x l] eqn:E; [reflexivity|].
      cbn in Hlen. discriminate. }
    assert (Hpos : length data <= pos).
    { pose proof (length_skipn pos data) as Hl. rewrite Hnil in Hl. cbn in Hl. lia. }
    cbn [write_loop]. destruct (Nat.ltb_spec pos (length data)) as [H0|_]; [lia|].
    exists h, junk. rewrite Hnil. cbn [length slices write_requests].
    rewrite app_nil_r. repeat split; try reflexivity; apply Hrest.
  - destruct fuel as [|f]; [cbn in Hfuel; lia|].
    assert (Hne : skipn pos data <> []).
    { intros E. rewrite E in Hlen. cbn in Hlen. discriminate. }
    assert (Hpos : pos < length data).
    { destruct (Nat.le_gt_cases (length data) pos) as [Hle|Hlt]; [|exact Hlt].
      elim Hne. now apply skipn_all2. }
    rewrite (slices_step _ Hne) in Hlen |- *.
    inversion Hok as [|? ? Hreply Hok']; subst. cbn [fst snd] in Hreply.
    cbn [write_loop]. destruct (Nat.ltb_spec pos (length data)) as [_|H0]; [|lia].
    destruct (lift_write_at_rest addr (firstn 4096 (skipn pos data)) p cc junk
                (replies_of replies ++ rest) h Hrest Hreply)
      as [h1 [Hwrite [Hrest1 [Hsent1 Hp1]]]].
    rewrite (hbind_val _ _ _ _ _ Hwrite). cbn [is_False].
    assert (Hskip : skipn (pos + 4096) data = skipn 4096 (skipn pos data))
      by (rewrite skipn_skipn; f_equal; lia).
    destruct (IH f (addr + 4096)%Z (pos + 4096) cc h1 Hrest1 Hok'
                ltac:(rewrite Hskip; cbn [length] in Hlen; lia)
                ltac:(cbn [length] in Hfuel; lia))
      as [h' [junk' [Hloop [Hrest' [Hsent' Hp']]]]].
    exists h', junk'. split; [exact Hloop|]. split; [exact Hrest'|].
    cbn [write_requests]. split; [|congruence].
    rewrite Hsent', Hsent1, Hskip, <- app_assoc. reflexivity.
Qed.

Lemma write_loop_never_false (data : bytes) (fuel : nat) :
  forall addr pos h,
    length data - pos < fuel ->
    snd (write_loop fuel addr pos data h) <> Val false /\
    snd (write_loop fuel addr pos data h) <> OutOfFuel.
Proof.
  induction fuel as [|f IH]; intros addr pos h Hf; [lia|].
  - cbn [write_loop].
    destruct (Nat.ltb_spec pos (length data)) as [Hlt|_];
      [|split; discriminate].
    unfold hbind.
    destruct (lift (write addr (firstn 4096 (skipn pos data))) h)
      as [h1 [r| e |]] eqn:E.
    + replace (is_False r) with false by now destruct r.
      apply IH. lia.
    + split; discriminate.
    + apply lift_inv in E as [E _].
      pose proof (halts_rspCall
                    (write_request addr (firstn 4096 (skipn pos data)))
                    false true (client h)) as Hh.
      unfold write in E. unfold write_request in Hh. rewrite E in Hh.
      now elim Hh.
Qed.


